(** * Career-choice Monte Carlo simulation ([exam project/exam.py])

    A shallow embedding of class [CareerChoice] and of the aggregators
    [count] and [count2], with the properties of the simulation stated
    and proved over it.

    Numbers.  Python's integers are [Z].  A float64 value is the
    rational [Q] it stands for.  In the simulation the operations on
    floats are idealised: [+], [-], [*], [/] are the field operations,
    [==] on floats is [Qeq_bool], and [np.max] is [Qmax]; rounding,
    infinities and NaN are outside the model there.  The quotients of
    the aggregators are not idealised: [/] on Python integers rounds
    the exact quotient to the nearest binary64 number ([round64]).

    Randomness.  The process-wide legacy generator of [np.random] is a
    state of an abstract type [G]; drawing one standard normal deviate
    is a deterministic function of that state ([gauss]), and
    [np.random.seed] installs a state computed from the seed
    ([seed_state]).  Every method of the class threads this state.

    Errors.  Python exceptions are the [Raise] outcomes of the monad
    [M].

    Not modelled: class [ProductionEconomy] (real powers and SciPy's
    solvers) and the plotting functions.  The one NaN the class can
    produce, [np.mean] of an empty draw in [utility], is modelled
    there by the value [NaN] of [float]. *)

From Stdlib Require Import ZArith QArith Qminmax Qfield Qround Qabs Qpower.
From Stdlib Require Import Lia Lqa List.
From stdpp Require Import base gmap list.

Local Open Scope Z_scope.

(** ** Outcomes and the state-and-exception monad *)

Inductive exn : Type :=
| KeyError            (* d[k] on a missing key *)
| IndexError          (* l[i] out of range *)
| ValueError          (* np.random.normal with scale < 0, seed out of range *)
| ZeroDivisionError   (* x / 0 on Python numbers *)
| OverflowError       (* x / y on integers, too large for a float *)
| OutOfFuel.          (* not a Python exception: a while loop ran out of fuel *)

Inductive outcome (A : Type) : Type :=
| Ok (a : A)
| Raise (e : exn).
Arguments Ok {A} a.
Arguments Raise {A} e.

(** [f(x)] when evaluating [x] may raise. *)
Definition outcome_map {A B} (f : A -> B) (o : outcome A) : outcome B :=
  match o with
  | Ok a => Ok (f a)
  | Raise e => Raise e
  end.

Definition M (G A : Type) : Type := G -> outcome (A * G).

Definition ret {G A} (a : A) : M G A := fun g => Ok (a, g).

Definition bind {G A B} (m : M G A) (k : A -> M G B) : M G B :=
  fun g => match m g with
           | Ok (a, g') => k a g'
           | Raise e => Raise e
           end.

Definition raise {G A} (e : exn) : M G A := fun _ => Raise e.

Definition lift {G A} (o : outcome A) : M G A :=
  fun g => match o with Ok a => Ok (a, g) | Raise e => Raise e end.

Declare Scope py_scope.
Delimit Scope py_scope with py.
Notation "x <- m ;; k" := (bind m (fun x => k))
  (at level 100, m at next level, right associativity) : py_scope.
Local Open Scope py_scope.

(** [for x in l: s = body(x, s)] *)
Fixpoint for_in {G A St} (l : list A) (body : A -> St -> M G St) (s : St)
  : M G St :=
  match l with
  | [] => ret s
  | x :: l' => s' <- body x s ;; for_in l' body s'
  end.

(** [while cond(s): s = body(s)], with fuel bounding the number of
    iterations the model is willing to run. *)
Fixpoint while {G St} (fuel : nat) (cond : St -> bool) (body : St -> M G St)
    (s : St) : M G St :=
  if cond s then
    match fuel with
    | O => raise OutOfFuel
    | S fuel' => s' <- body s ;; while fuel' cond body s'
    end
  else ret s.

(** [range(lo, hi)] *)
Definition range (lo hi : Z) : list Z := seqZ lo (hi - lo).

(** [l[i]] on a Python list: negative indices count from the end. *)
Definition index {A} (l : list A) (i : Z) : outcome A :=
  let n := Z.of_nat (length l) in
  let k := if i <? 0 then i + n else i in
  if (0 <=? k) && (k <? n) then
    match l !! Z.to_nat k with Some x => Ok x | None => Raise IndexError end
  else Raise IndexError.

(** [d[k].append(x)] on a dict of lists: the list [d[k]] is looked up
    before the argument [x] is evaluated. *)
Definition dict_append {A} (d : gmap Z (list A)) (k : Z) (x : outcome A)
  : outcome (gmap Z (list A)) :=
  match d !! k with
  | Some l =>
      match x with
      | Ok v => Ok (<[k := l ++ [v]]> d)
      | Raise e => Raise e
      end
  | None => Raise KeyError
  end.

(** [d[k][n]] on a dict of lists. *)
Definition dict_get {A} (d : gmap Z (list A)) (k n : Z) : outcome A :=
  match d !! k with
  | Some l => index l n
  | None => Raise KeyError
  end.

(** The dict literal [{1: [], 2: [], ..., 10: []}] that every method
    of the class starts its collections from. *)
Definition ten_lists {A} : gmap Z (list A) :=
  <[1 := []]> (<[2 := []]> (<[3 := []]> (<[4 := []]> (<[5 := []]>
  (<[6 := []]> (<[7 := []]> (<[8 := []]> (<[9 := []]> (<[10 := []]> ∅))))))))).

(** ** NumPy *)

Class RandomState (G : Type) : Type := {
  (** one standard normal deviate and the next state *)
  gauss : G -> Q * G;
  (** the state [np.random.seed(s)] installs, for [0 <= s < 2^32] *)
  seed_state : Z -> G
}.

(** [eps.sum()] *)
Definition np_sum (l : list Q) : Q := fold_left Qplus l 0%Q.

(** [np.max([a, b, c])] *)
Definition np_max3 (a b c : Q) : Q := Qmax (Qmax a b) c.

Section Generator.
Context {G : Type} `{RandomState G}.

(** [n] deviates, each [loc + scale * gauss], drawn one after the
    other. *)
Fixpoint draws (loc scale : Q) (n : nat) (g : G) : list Q * G :=
  match n with
  | O => ([], g)
  | S n' =>
      let '(z, g1) := gauss g in
      let '(zs, g2) := draws loc scale n' g1 in
      ((loc + scale * z)%Q :: zs, g2)
  end.

(** [np.random.normal(loc, scale, size)] for an integer [size]; a
    negative scale or size is a [ValueError]. *)
Definition np_random_normal (loc scale : Q) (size : Z) : M G (list Q) :=
  fun g =>
    if Qle_bool 0 scale && (0 <=? size) then Ok (draws loc scale (Z.to_nat size) g)
    else Raise ValueError.

(** [np.random.seed(seed)] *)
Definition np_random_seed (seed : Z) : M G unit :=
  fun _ =>
    if (0 <=? seed) && (seed <? 2 ^ 32) then Ok (tt, seed_state seed)
    else Raise ValueError.

End Generator.

(** ** class CareerChoice *)

(** [self.par] *)
Record par : Type := {
  par_J : Z;
  par_N : Z;
  par_K : Z;
  par_F : list Z;
  par_sigma : Q;
  par_v : list Q;
  par_c : Q
}.

(** The four collections [career_alt] fills, in the order it returns
    them: [switchdict, careerdict_alt, EVdict_alt, RVdict_alt]. *)
Abbreviation alt_dicts :=
  (gmap Z (list Z) * gmap Z (list Z) * gmap Z (list Q) * gmap Z (list Q))%type.

(** The parameters [__init__] stores in [self.par]. *)
Definition default_par : par :=
  let N := 10 in
  {| par_J := 3; par_N := N; par_K := 10000;
     par_F := range 1 (N + 1); par_sigma := 2;
     par_v := [1; 2; 3]%Q; par_c := 1 |}.

Section CareerChoice.
Context {G : Type} `{RandomState G}.

(** [CareerChoice.__init__]: the parameters are literals; the seed,
    when given, resets the process-wide generator. *)
Definition init (seed : option Z) : M G par :=
  _ <- match seed with
       | Some s => np_random_seed s
       | None => ret tt
       end ;;
  ret default_par.

(** [CareerChoice.epsdraw] *)
Definition epsdraw (p : par) (size : Z) : M G (list Q) :=
  np_random_normal 0 (par_sigma p) size.

(** [CareerChoice.v1], [v2], [v3]: for every type [i] the estimate
    [1/i * (j*i + eps.sum())] of career [j] from [i] fresh draws. *)
Definition v1 (p : par) : M G (list Q) :=
  for_in (range 1 (par_N p + 1))
    (fun i EU =>
       eps <- np_random_normal 0 (par_sigma p) i ;;
       let eu := (1 / inject_Z i * (inject_Z (1 * i) + np_sum eps))%Q in
       ret (EU ++ [eu]))
    [].

Definition v2 (p : par) : M G (list Q) :=
  for_in (range 1 (par_N p + 1))
    (fun i EU =>
       eps <- np_random_normal 0 (par_sigma p) i ;;
       let eu := (1 / inject_Z i * (inject_Z (2 * i) + np_sum eps))%Q in
       ret (EU ++ [eu]))
    [].

Definition v3 (p : par) : M G (list Q) :=
  for_in (range 1 (par_N p + 1))
    (fun i EU =>
       eps <- np_random_normal 0 (par_sigma p) i ;;
       let eu := (1 / inject_Z i * (inject_Z (3 * i) + np_sum eps))%Q in
       ret (EU ++ [eu]))
    [].

(** [CareerChoice.career]: one cohort, one graduate of every type. *)
Definition career (p : par) : M G (list Z * list Q * list Q) :=
  EUv1 <- v1 p ;;
  EUv2 <- v2 p ;;
  EUv3 <- v3 p ;;
  s <- for_in (range 0 (par_N p))
         (fun i s =>
            let '(career, EV, noiseterm) := s in
            e1 <- lift (index EUv1 i) ;;
            e2 <- lift (index EUv2 i) ;;
            e3 <- lift (index EUv3 i) ;;
            let choice := np_max3 e1 e2 e3 in
            if Qeq_bool choice e1 then
              noise <- np_random_normal 0 (par_sigma p) 1 ;;
              n0 <- lift (index noise 0) ;;
              ret (career ++ [1], EV ++ [e1], noiseterm ++ [n0])
            else if Qeq_bool choice e2 then
              noise <- np_random_normal 0 (par_sigma p) 1 ;;
              n0 <- lift (index noise 0) ;;
              ret (career ++ [2], EV ++ [e2], noiseterm ++ [n0])
            else
              noise <- np_random_normal 0 (par_sigma p) 1 ;;
              n0 <- lift (index noise 0) ;;
              ret (career ++ [3], EV ++ [e3], noiseterm ++ [n0]))
         ([], [], []) ;;
  let '(career, EV, noiseterm) := s in
  RV <- for_in (range 0 (par_N p))
          (fun i RV =>
             ci <- lift (index career i) ;;
             ni <- lift (index noiseterm i) ;;
             ret (RV ++ [(inject_Z ci + ni)%Q]))
          [] ;;
  ret (career, EV, RV).

(** [CareerChoice.simulate].  The state of the inner [while] is
    [(n, careerdict, EVdict, RVdict)]. *)
Definition simulate (fuel : nat) (p : par)
  : M G (gmap Z (list Z) * gmap Z (list Q) * gmap Z (list Q)) :=
  for_in (range 0 (par_N p))
    (fun i d =>
       let '(careerdict, EVdict, RVdict) := d in
       s <- while fuel
              (fun s => let '(n, _, _, _) := s in n <=? par_K p)
              (fun s =>
                 let '(n, careerdict, EVdict, RVdict) := s in
                 r <- career p ;;
                 let '(career, EV, RV) := r in
                 careerdict <- lift (dict_append careerdict (i + 1)
                                      (index career i)) ;;
                 EVdict <- lift (dict_append EVdict (i + 1) (index EV i)) ;;
                 RVdict <- lift (dict_append RVdict (i + 1) (index RV i)) ;;
                 ret (n + 1, careerdict, EVdict, RVdict))
              (0, careerdict, EVdict, RVdict) ;;
       let '(_, careerdict, EVdict, RVdict) := s in
       ret (careerdict, EVdict, RVdict))
    (ten_lists, ten_lists, ten_lists).

(** The branch of [career_alt] that keeps the first career [a]:
    the four appends of the [if c == RVdict[i+1][n]] arm. *)
Definition alt_keep (i a : Z) (rv : Q) (d : alt_dicts) : M G alt_dicts :=
  let '(switchdict, careerdict_alt, EVdict_alt, RVdict_alt) := d in
  careerdict_alt <- lift (dict_append careerdict_alt (i + 1) (Ok a)) ;;
  EVdict_alt <- lift (dict_append EVdict_alt (i + 1) (Ok rv)) ;;
  switchdict <- lift (dict_append switchdict (i + 1) (Ok 0)) ;;
  RVdict_alt <- lift (dict_append RVdict_alt (i + 1) (Ok rv)) ;;
  ret (switchdict, careerdict_alt, EVdict_alt, RVdict_alt).

(** A branch of [career_alt] that moves to career [a], whose
    estimate net of the cost is [ev]: three appends, one noise draw,
    and the append of [a - par.c + noiseterm[0]]. *)
Definition alt_move (p : par) (i a : Z) (ev : Q) (d : alt_dicts) : M G alt_dicts :=
  let '(switchdict, careerdict_alt, EVdict_alt, RVdict_alt) := d in
  careerdict_alt <- lift (dict_append careerdict_alt (i + 1) (Ok a)) ;;
  EVdict_alt <- lift (dict_append EVdict_alt (i + 1) (Ok ev)) ;;
  switchdict <- lift (dict_append switchdict (i + 1) (Ok 1)) ;;
  noiseterm <- np_random_normal 0 (par_sigma p) 1 ;;
  RVdict_alt <- lift (dict_append RVdict_alt (i + 1)
                        (outcome_map (fun n0 => (inject_Z a - par_c p + n0)%Q)
                           (index noiseterm 0))) ;;
  ret (switchdict, careerdict_alt, EVdict_alt, RVdict_alt).

(** One iteration of the inner loop of [career_alt], for type
    [i + 1] and trial [n]. *)
Definition alt_iteration (p : par) (careerdict : gmap Z (list Z))
    (RVdict : gmap Z (list Q)) (i n : Z) (d : alt_dicts) : M G alt_dicts :=
  EUv1 <- v1 p ;;
  EUv2 <- v2 p ;;
  EUv3 <- v3 p ;;
  o <- lift (dict_get careerdict (i + 1) n) ;;
  if o =? 1 then
    rv <- lift (dict_get RVdict (i + 1) n) ;;
    e2 <- lift (index EUv2 i) ;;
    e3 <- lift (index EUv3 i) ;;
    let c := np_max3 rv (e2 - par_c p) (e3 - par_c p) in
    if Qeq_bool c rv then alt_keep i 1 rv d
    else if Qeq_bool c (e2 - par_c p) then alt_move p i 2 (e2 - par_c p)%Q d
    else alt_move p i 3 (e3 - par_c p)%Q d
  else if o =? 2 then
    rv <- lift (dict_get RVdict (i + 1) n) ;;
    e1 <- lift (index EUv1 i) ;;
    e3 <- lift (index EUv3 i) ;;
    let c := np_max3 rv (e1 - par_c p) (e3 - par_c p) in
    if Qeq_bool c rv then alt_keep i 2 rv d
    else if Qeq_bool c (e1 - par_c p) then alt_move p i 1 (e1 - par_c p)%Q d
    else alt_move p i 3 (e3 - par_c p)%Q d
  else
    rv <- lift (dict_get RVdict (i + 1) n) ;;
    e1 <- lift (index EUv1 i) ;;
    e2 <- lift (index EUv2 i) ;;
    let c := np_max3 rv (e1 - par_c p) (e2 - par_c p) in
    if Qeq_bool c rv then alt_keep i 3 rv d
    else if Qeq_bool c (e1 - par_c p) then alt_move p i 1 (e1 - par_c p)%Q d
    else alt_move p i 2 (e2 - par_c p)%Q d.

(** [CareerChoice.career_alt] *)
Definition career_alt (p : par) (careerdict : gmap Z (list Z))
    (RVdict : gmap Z (list Q)) : M G alt_dicts :=
  for_in (range 0 (par_N p))
    (fun i d =>
       for_in (range 0 (par_K p))
         (fun n d => alt_iteration p careerdict RVdict i n d)
         d)
    (ten_lists, ten_lists, ten_lists, ten_lists).

(** [CareerChoice.sort_career]: the switch indicators, split by the
    career chosen first. *)
Definition sort_career (p : par) (switchdict careerdict : gmap Z (list Z))
  : M G (gmap Z (list Z) * gmap Z (list Z) * gmap Z (list Z)) :=
  for_in (range 0 (par_N p))
    (fun i d =>
       for_in (range 0 (par_K p))
         (fun n d =>
            let '(v1_original, v2_original, v3_original) := d in
            o <- lift (dict_get careerdict (i + 1) n) ;;
            if o =? 1 then
              s <- lift (dict_get switchdict (i + 1) n) ;;
              v1_original <- lift (dict_append v1_original (i + 1)
                                     (Ok (if s =? 1 then 1 else 0))) ;;
              ret (v1_original, v2_original, v3_original)
            else if o =? 2 then
              s <- lift (dict_get switchdict (i + 1) n) ;;
              v2_original <- lift (dict_append v2_original (i + 1)
                                     (Ok (if s =? 1 then 1 else 0))) ;;
              ret (v1_original, v2_original, v3_original)
            else
              s <- lift (dict_get switchdict (i + 1) n) ;;
              v3_original <- lift (dict_append v3_original (i + 1)
                                     (Ok (if s =? 1 then 1 else 0))) ;;
              ret (v1_original, v2_original, v3_original))
         d)
    (ten_lists, ten_lists, ten_lists).

(** One run of the simulation: construct the model with a seed,
    overwrite parameters ([cfg]), simulate the first year, then the
    second year on its collections. *)
Definition run (fuel : nat) (seed : option Z) (cfg : par -> par)
  : M G (gmap Z (list Z) * gmap Z (list Q) * gmap Z (list Q) * alt_dicts) :=
  p0 <- init seed ;;
  let p := cfg p0 in
  r <- simulate fuel p ;;
  let '(careerdict, EVdict, RVdict) := r in
  a <- career_alt p careerdict RVdict ;;
  ret (r, a).

End CareerChoice.

(** ** The aggregators *)

(** The integer nearest to [q], the even one of the two when [q]
    lies half way. *)
Definition round_half_even (q : Q) : Z :=
  let f := Qfloor q in
  match (q - inject_Z f ?= 1 # 2)%Q with
  | Lt => f
  | Gt => f + 1
  | Eq => if Z.even f then f else f + 1
  end.

(** [floor (log2 q)], for [q > 0]. *)
Definition Qlog2 (q : Q) : Z :=
  let k := Z.log2 (Qnum q) - Z.log2 (Z.pos (Qden q)) in
  if Qle_bool (2 ^ k) q then k else k - 1.

(** The exponent of the unit in the last place of the binary64
    numbers around [q]: 53 significant bits, and no unit below
    [2^-1074] (the subnormal numbers). *)
Definition ulp_exponent (q : Q) : Z := Z.max (Qlog2 (Qabs q) - 52) (-1074).

(** [q] rounded to the nearest binary64 number, ties to even, the
    exponent unbounded above. *)
Definition round64 (q : Q) : Q :=
  if Qeq_bool q 0 then 0%Q
  else
    let e := ulp_exponent q in
    (inject_Z (round_half_even (q / 2 ^ e)) * 2 ^ e)%Q.

(** [x / y] on Python integers: true division.  The result is the
    float nearest to the exact quotient; a quotient that rounds to
    [2^1024] or more has no float. *)
Definition truediv (x y : Z) : outcome Q :=
  if y =? 0 then Raise ZeroDivisionError
  else
    let r := round64 (inject_Z x / inject_Z y) in
    if Qle_bool (2 ^ 1024) (Qabs r) then Raise OverflowError else Ok r.

(** The counting loop of [count]: [(count1, count2, count3)]. *)
Fixpoint count_loop (l : list Z) (cs : Z * Z * Z) : Z * Z * Z :=
  match l with
  | [] => cs
  | element :: l' =>
      let '(count1, count2, count3) := cs in
      count_loop l'
        (if element =? 1 then (count1 + 1, count2, count3)
         else if element =? 2 then (count1, count2 + 1, count3)
         else (count1, count2, count3 + 1))
  end.

(** [count(list)]: the shares of the careers 1, 2 and anything else. *)
Definition count (l : list Z) : outcome (list Q) :=
  let '(count1, count2, count3) := count_loop l (0, 0, 0) in
  let len := Z.of_nat (length l) in
  match truediv count1 len, truediv count2 len, truediv count3 len with
  | Ok v1, Ok v2, Ok v3 => Ok [v1; v2; v3]
  | Raise e, _, _ | _, Raise e, _ | _, _, Raise e => Raise e
  end.

(** The counting loop of [count2]: [(count0, count1)]. *)
Fixpoint count2_loop (l : list Z) (cs : Z * Z) : Z * Z :=
  match l with
  | [] => cs
  | element :: l' =>
      let '(count0, count1) := cs in
      count2_loop l'
        (if element =? 0 then (count0 + 1, count1) else (count0, count1 + 1))
  end.

(** [count2(list)]: the share of entries other than 0. *)
Definition count2 (l : list Z) : outcome Q :=
  let '(_, count1) := count2_loop l (0, 0) in
  truediv count1 (Z.of_nat (length l)).

(** ** [CareerChoice.utility]

    The only method in which a NaN arises: its values are rationals
    or NaN. *)

Inductive float : Type :=
| Num (q : Q)
| NaN.

(** [np.mean(a)]: NaN (with a warning, no exception) on an empty
    array. *)
Definition np_mean (a : list Q) : float :=
  match a with
  | [] => NaN
  | _ :: _ => Num (np_sum a / inject_Z (Z.of_nat (length a)))%Q
  end.

(** [v + m] for a number [v] and a float [m]. *)
Definition float_add (v : Q) (m : float) : float :=
  match m with
  | Num q => Num (v + q)%Q
  | NaN => NaN
  end.

Section Utility.
Context {G : Type} `{RandomState G}.

(** [CareerChoice.utility] *)
Definition utility (p : par) : M G (list float) :=
  for_in (par_v p)
    (fun v utility =>
       eps <- epsdraw p (par_K p) ;;
       ret (utility ++ [float_add v (np_mean eps)]))
    [].

End Utility.

(** ** A replay generator for worked examples

    The state is the list of the standard normal deviates still to be
    handed out; once the list is used up every further deviate is 0.
    Seeding installs a fixed list computed from the seed. *)
#[export] Instance replay : RandomState (list Q) := {
  gauss := fun g => (hd 0%Q g, tl g);
  seed_state := fun s => [inject_Z s; (- inject_Z s)%Q; (1 # 2)%Q]
}.

(** Attribute assignments after construction: [par.N = N],
    [par.K = K], [par.sigma = sigma]. *)
Definition set_par (N K : Z) (sigma : Q) (p : par) : par :=
  {| par_J := par_J p; par_N := N; par_K := K; par_F := par_F p;
     par_sigma := sigma; par_v := par_v p; par_c := par_c p |}.

(** Parameters as [__init__] sets them, with [N], [K] and [sigma]
    overwritten afterwards. *)
Definition par_with (N K : Z) (sigma : Q) : par := set_par N K sigma default_par.

(** ** The stream of deviates behind a generator state

    The definitions below name what the methods above read from the
    generator: [tape g t] is the deviate handed out by the [t]-th draw
    after state [g], [skip n g] the state after [n] draws. *)

Section Stream.
Context {G : Type} `{RandomState G}.

Fixpoint skip (n : nat) (g : G) : G :=
  match n with
  | O => g
  | S n' => skip n' (snd (gauss g))
  end.

Definition tape (g : G) (t : nat) : Q := fst (gauss (skip t g)).

(** A state [g'] is reached from [g] by drawing deviates. *)
Definition later (g g' : G) : Prop := exists n, g' = skip n g.

(** [0 + 1 + ... + k]: the number of deviates [v1] draws for the
    types [1 .. k]. *)
Fixpoint tri (k : nat) : nat :=
  match k with
  | O => O
  | S k' => (tri k' + k)%nat
  end.

(** The [i] deviates [v1], [v2] or [v3] draws for type [i] when it
    is called in state [g]: those at positions
    [tri (i-1) .. tri (i-1) + i - 1], scaled by [sigma]. *)
Definition sample (p : par) (i : Z) (g : G) : list Q :=
  (fun t => (0 + par_sigma p * tape g (tri (Z.to_nat (i - 1)) + t))%Q)
    <$> seq 0 (Z.to_nat i).

(** Sample mean. *)
Definition mean (l : list Q) : Q :=
  (np_sum l / inject_Z (Z.of_nat (length l)))%Q.

(** Entry [k] (type [k + 1]) of the list [v1] ([j = 1]), [v2]
    ([j = 2]) or [v3] ([j = 3]) returns when called in state [g]. *)
Definition EU_at (j : Z) (p : par) (k : nat) (g : G) : Q :=
  let i := Z.of_nat k + 1 in
  (1 / inject_Z i * (inject_Z (j * i) + np_sum (sample p i g)))%Q.

(** The common shape of [v1], [v2] and [v3]: [j] stands for the
    literal that multiplies [i]. *)
Definition v_ (j : Z) (p : par) : M G (list Q) :=
  for_in (range 1 (par_N p + 1))
    (fun i EU =>
       eps <- np_random_normal 0 (par_sigma p) i ;;
       let eu := (1 / inject_Z i * (inject_Z (j * i) + np_sum eps))%Q in
       ret (EU ++ [eu]))
    [].

(** The number of deviates one call of [v1] (or [v2], [v3]) draws,
    and the number one call of [career] draws. *)
Definition draws_v (p : par) : nat := tri (Z.to_nat (par_N p)).
Definition draws_career (p : par) : nat :=
  (3 * draws_v p + Z.to_nat (par_N p))%nat.

(** The estimates [EUv1[k]], [EUv2[k]], [EUv3[k]] inside a call of
    [career] (or an iteration of [career_alt]) that starts in state
    [g], and the noise term the first loop of [career] draws at
    index [k]. *)
Definition EU1 (p : par) (k : nat) (g : G) : Q := EU_at 1 p k g.
Definition EU2 (p : par) (k : nat) (g : G) : Q :=
  EU_at 2 p k (skip (draws_v p) g).
Definition EU3 (p : par) (k : nat) (g : G) : Q :=
  EU_at 3 p k (skip (2 * draws_v p) g).
Definition noise_at (p : par) (k : nat) (g : G) : Q :=
  (0 + par_sigma p * tape g (3 * draws_v p + k))%Q.

(** The cascade [if choice == EUv1[i] ... elif choice == EUv2[i] ...
    else ...] of [career]: the career appended, and the estimate
    appended to [EV]. *)
Definition pick (e1 e2 e3 : Q) : Z :=
  if Qeq_bool (np_max3 e1 e2 e3) e1 then 1
  else if Qeq_bool (np_max3 e1 e2 e3) e2 then 2
  else 3.
Definition pick_EV (e1 e2 e3 : Q) : Q :=
  if Qeq_bool (np_max3 e1 e2 e3) e1 then e1
  else if Qeq_bool (np_max3 e1 e2 e3) e2 then e2
  else e3.

(** Entry [k] of the three lists a call of [career] in state [g]
    returns. *)
Definition career_at (p : par) (k : nat) (g : G) : Z :=
  pick (EU1 p k g) (EU2 p k g) (EU3 p k g).
Definition EV_at (p : par) (k : nat) (g : G) : Q :=
  pick_EV (EU1 p k g) (EU2 p k g) (EU3 p k g).
Definition RV_at (p : par) (k : nat) (g : G) : Q :=
  (inject_Z (career_at p k g) + noise_at p k g)%Q.

(** [simulate] calls [career] once per type and trial, one call
    after the other: the call for type [i + 1] and trial [n] starts
    in [trial_state p g i n].  Each type has [trials p] trials. *)
Definition trials (p : par) : nat := Z.to_nat (par_K p + 1).
Definition trial_state (p : par) (g : G) (i n : nat) : G :=
  skip ((i * trials p + n) * draws_career p) g.

End Stream.

Section Records.
Context {G : Type} `{RandomState G}.

(** The estimate of career [t] for type [k + 1] in a trial that
    starts in state [g]: [EUv1[k]], [EUv2[k]] or [EUv3[k]]. *)
Definition estimate (p : par) (k : nat) (g : G) (t : Z) : Q :=
  if t =? 1 then EU1 p k g else if t =? 2 then EU2 p k g else EU3 p k g.

(** The position, in the stream of deviates behind the state
    [simulate] starts in, of the noise term of type [i + 1] in trial
    [n]. *)
Definition noise_index (p : par) (i n : nat) : nat :=
  ((i * trials p + n) * draws_career p + 3 * draws_v p + i)%nat.

End Records.

(** ** One iteration of [career_alt], as a step relation *)

(** What one iteration appends to [switchdict], [careerdict_alt],
    [EVdict_alt] and [RVdict_alt]. *)
Record alt_record : Type := {
  alt_switch : Z;
  alt_career : Z;
  alt_EV : Q;
  alt_RV : Q
}.

(** The arm of [if careerdict[i+1][n] == 1 ... elif ... == 2 ... else]
    that runs for a first career [o], and the two other careers in
    the order that arm compares them. *)
Definition first_career (o : Z) : Z :=
  if o =? 1 then 1 else if o =? 2 then 2 else 3.
Definition alternatives (o : Z) : Z * Z :=
  if o =? 1 then (2, 3) else if o =? 2 then (1, 3) else (1, 2).

Section AltStep.
Context {G : Type} `{RandomState G}.

(** The noise term an iteration of [career_alt] that starts in state
    [g] draws when it switches: the deviate after the three
    estimators have drawn theirs. *)
Definition alt_noise (p : par) (g : G) : Q :=
  (0 + par_sigma p * tape g (3 * draws_v p))%Q.

(** [alt_step p k o rv g r g']: the iteration for type [k + 1] that
    starts in state [g] with first career [o] and realized utility
    [rv] appends [r] and leaves the generator in [g']. *)
Inductive alt_step (p : par) (k : nat) (o : Z) (rv : Q) (g : G)
  : alt_record -> G -> Prop :=
| alt_step_keep a b :
    alternatives o = (a, b) ->
    (np_max3 rv (estimate p k g a - par_c p) (estimate p k g b - par_c p)
     == rv)%Q ->
    alt_step p k o rv g
      {| alt_switch := 0; alt_career := first_career o;
         alt_EV := rv; alt_RV := rv |}
      (skip (3 * draws_v p) g)
| alt_step_first a b :
    alternatives o = (a, b) ->
    ~ (np_max3 rv (estimate p k g a - par_c p) (estimate p k g b - par_c p)
       == rv)%Q ->
    (np_max3 rv (estimate p k g a - par_c p) (estimate p k g b - par_c p)
     == estimate p k g a - par_c p)%Q ->
    alt_step p k o rv g
      {| alt_switch := 1; alt_career := a;
         alt_EV := (estimate p k g a - par_c p)%Q;
         alt_RV := (inject_Z a - par_c p + alt_noise p g)%Q |}
      (skip (3 * draws_v p + 1) g)
| alt_step_second a b :
    alternatives o = (a, b) ->
    ~ (np_max3 rv (estimate p k g a - par_c p) (estimate p k g b - par_c p)
       == rv)%Q ->
    ~ (np_max3 rv (estimate p k g a - par_c p) (estimate p k g b - par_c p)
       == estimate p k g a - par_c p)%Q ->
    alt_step p k o rv g
      {| alt_switch := 1; alt_career := b;
         alt_EV := (estimate p k g b - par_c p)%Q;
         alt_RV := (inject_Z b - par_c p + alt_noise p g)%Q |}
      (skip (3 * draws_v p + 1) g).

(** The first-year collections [career_alt] is given: for every type
    and each of the first [K] trials a career 1, 2 or 3 and a
    realized utility are on file. *)
Definition first_year (p : par) (careerdict : gmap Z (list Z))
    (RVdict : gmap Z (list Q)) : Prop :=
  forall i n, 0 <= i < par_N p -> 0 <= n < par_K p ->
    exists o rv,
      dict_get careerdict (i + 1) n = Ok o
      /\ dict_get RVdict (i + 1) n = Ok rv
      /\ 1 <= o <= 3.

(** The records [rs] of type [k + 1] come, one per trial, from steps
    that start in states reached from [g]. *)
Definition alt_trace (p : par) (careerdict : gmap Z (list Z))
    (RVdict : gmap Z (list Q)) (g : G) (k : nat) (rs : list alt_record) : Prop :=
  forall n r, rs !! n = Some r ->
    exists o rv gt gt',
      dict_get careerdict (Z.of_nat k + 1) (Z.of_nat n) = Ok o
      /\ dict_get RVdict (Z.of_nat k + 1) (Z.of_nat n) = Ok rv
      /\ 1 <= o <= 3
      /\ later g gt
      /\ alt_step p k o rv gt r gt'.

End AltStep.

(** The shape of the collections: [filled f k] is the dict with keys
    [1 .. 10] whose first [k] lists are [f 0 .. f (k-1)] and whose
    other lists are still empty, seen through its lookups. *)
Definition filled {A} (f : nat -> list A) (k : nat) (key : Z) : option (list A) :=
  if decide (1 <= key <= 10) then
    Some (if decide (key <= Z.of_nat k) then f (Z.to_nat (key - 1)) else [])
  else None.

(** [d] is [rest], except that the list under [key0] is [l]. *)
Definition dict_is {A} (d : gmap Z (list A)) (key0 : Z) (l : list A)
    (rest : Z -> option (list A)) : Prop :=
  forall key, d !! key = if decide (key = key0) then Some l else rest key.

(** The four collections of [career_alt] while the list of key [key]
    is being filled with the records [rs], the lists of the first [k]
    types being those of [R]. *)
Definition alt_dicts_are (d : alt_dicts)
    (key : Z) (rs : list alt_record) (R : nat -> list alt_record) (k : nat)
  : Prop :=
  let '(switchdict, careerdict_alt, EVdict_alt, RVdict_alt) := d in
  dict_is switchdict key (alt_switch <$> rs)
    (filled (fun i => alt_switch <$> R i) k)
  /\ dict_is careerdict_alt key (alt_career <$> rs)
       (filled (fun i => alt_career <$> R i) k)
  /\ dict_is EVdict_alt key (alt_EV <$> rs)
       (filled (fun i => alt_EV <$> R i) k)
  /\ dict_is RVdict_alt key (alt_RV <$> rs)
       (filled (fun i => alt_RV <$> R i) k).

(** The four collections once the lists of the first [k] types are
    those of [R]. *)
Definition alt_dicts_filled (d : alt_dicts)
    (R : nat -> list alt_record) (k : nat) : Prop :=
  let '(switchdict, careerdict_alt, EVdict_alt, RVdict_alt) := d in
  (forall key, switchdict !! key = filled (fun i => alt_switch <$> R i) k key)
  /\ (forall key, careerdict_alt !! key
                  = filled (fun i => alt_career <$> R i) k key)
  /\ (forall key, EVdict_alt !! key = filled (fun i => alt_EV <$> R i) k key)
  /\ (forall key, RVdict_alt !! key = filled (fun i => alt_RV <$> R i) k key).

(** Parameters the specification calls malformed. *)
Definition malformed (p : par) : Prop :=
  par_N p <= 0 \/ par_K p <= 0 \/ (par_sigma p <= 0)%Q \/ par_v p = [].

(** ** What [utility] reads from the generator *)

Section UtilityStream.
Context {G : Type} `{RandomState G}.

(** The [K] deviates [utility] draws for entry [j] of [par.v] when it
    is called in state [g]: those at positions [j*K .. j*K + K - 1],
    scaled by [sigma]. *)
Definition utility_sample (p : par) (j : nat) (g : G) : list Q :=
  (fun t => (0 + par_sigma p * tape g (j * Z.to_nat (par_K p) + t))%Q)
    <$> seq 0 (Z.to_nat (par_K p)).

End UtilityStream.

(** A dict has exactly the keys [1 .. 10] of the literals the methods
    start from. *)
Definition ten_keys {A} (d : gmap Z (list A)) : Prop :=
  forall key, is_Some (d !! key) <-> 1 <= key <= 10.

(** The number of switches on file for the types [1 .. n]: the sum of
    the indicators of their lists. *)
Definition switches_recorded (switchdict : gmap Z (list Z)) (n : nat) : nat :=
  sum_list_with
    (fun i => sum_list_with Z.to_nat
                (default [] (switchdict !! (Z.of_nat i + 1))))
    (seq 0 n).

(** The number of switches among the records [rs]. *)
Definition switch_count (rs : list alt_record) : nat :=
  sum_list_with (fun r => Z.to_nat (alt_switch r)) rs.

(** The number of switches [career_alt] has on file when it starts
    the iteration of type [i + 1] and trial [n]: those of the types
    [1 .. i], and those of the first [n] trials of type [i + 1]. *)
Definition switches_before (switchdict : gmap Z (list Z)) (i n : nat) : nat :=
  (switches_recorded switchdict i
   + sum_list_with Z.to_nat
       (take n (default [] (switchdict !! (Z.of_nat i + 1)%Z))))%nat.

Section SecondYearStream.
Context {G : Type} `{RandomState G}.

(** [career_alt] runs its iterations one after the other, and each
    draws the [3 * draws_v p] deviates of the three estimators and one
    more when it switches: the iteration of type [i + 1] and trial [n]
    starts in [alt_state p switchdict g i n], when [career_alt] starts
    in [g] and [switchdict] is what it returns. *)
Definition alt_state (p : par) (switchdict : gmap Z (list Z)) (g : G)
    (i n : nat) : G :=
  skip ((i * Z.to_nat (par_K p) + n) * (3 * draws_v p)
        + switches_before switchdict i n) g.

(** The records [rs] of type [k + 1] come, one per trial, from steps
    run one after the other from position [base] of the stream behind
    [g]. *)
Definition alt_trace_from (p : par) (careerdict : gmap Z (list Z))
    (RVdict : gmap Z (list Q)) (g : G) (k base : nat)
    (rs : list alt_record) : Prop :=
  forall n r, rs !! n = Some r ->
    exists o rv gt',
      dict_get careerdict (Z.of_nat k + 1) (Z.of_nat n) = Ok o
      /\ dict_get RVdict (Z.of_nat k + 1) (Z.of_nat n) = Ok rv
      /\ 1 <= o <= 3
      /\ alt_step p k o rv
           (skip (base + n * (3 * draws_v p) + switch_count (take n rs)) g)
           r gt'.

(** The position at which the iterations of type [k + 1] start, the
    records of the types before being those of [R]. *)
Definition alt_base (p : par) (R : nat -> list alt_record) (k : nat) : nat :=
  (k * Z.to_nat (par_K p) * (3 * draws_v p)
   + sum_list_with (fun i => switch_count (R i)) (seq 0 k))%nat.

End SecondYearStream.

(** What [sort_career] appends for a switch indicator [s]: the arms
    [if switchdict[i+1][n] == 1: ...append(1) else: ...append(0)]. *)
Definition indicator (s : Z) : Z := if s =? 1 then 1 else 0.

(** The indicators [sort_career] files under first career [t] for one
    type, from the first [K] entries of that type's career list [lc]
    and switch list [ls], in trial order. *)
Definition sorted_indicators (t : Z) (lc ls : list Z) (K : nat) : list Z :=
  (fun os => indicator (snd os))
    <$> filter (fun os => first_career (fst os) = t) (take K (zip lc ls)).

(** The collections [sort_career] is given hold, for every type, at
    least [K] careers and [K] switch indicators. *)
Definition sortable (p : par) (switchdict careerdict : gmap Z (list Z)) : Prop :=
  forall i, 0 <= i < par_N p ->
    exists lc ls,
      careerdict !! (i + 1) = Some lc /\ switchdict !! (i + 1) = Some ls
      /\ (Z.to_nat (par_K p) <= length lc)%nat
      /\ (Z.to_nat (par_K p) <= length ls)%nat.

(** ** Basic facts: monad, loops, lists *)

Section Monad.
Context {G : Type}.

Lemma bind_Ok {A B} (m : M G A) (k : A -> M G B) g a g' :
  m g = Ok (a, g') -> bind m k g = k a g'.
Proof. intros E. unfold bind. now rewrite E. Qed.

Lemma bind_Raise {A B} (m : M G A) (k : A -> M G B) g e :
  m g = Raise e -> bind m k g = Raise e.
Proof. intros E. unfold bind. now rewrite E. Qed.

Lemma lift_Ok {A} (o : outcome A) a (g : G) :
  o = Ok a -> lift o g = Ok (a, g).
Proof. now intros ->. Qed.

Lemma lift_Ok_bind {A B} (o : outcome A) (k : A -> M G B) a (g : G) :
  o = Ok a -> bind (lift o) k g = k a g.
Proof. now intros ->. Qed.

(** Invariant rule for [for_in]: [I k] holds after [k] iterations. *)
Lemma for_in_inv {A St} (l : list A) (body : A -> St -> M G St)
    (I : nat -> St -> G -> Prop) s g :
  I O s g ->
  (forall k x s g, l !! k = Some x -> I k s g ->
     exists s' g', body x s g = Ok (s', g') /\ I (S k) s' g') ->
  exists s' g', for_in l body s g = Ok (s', g') /\ I (length l) s' g'.
Proof.
  revert I s g. induction l as [|x l IH]; intros I s g H0 Hstep.
  - exists s, g. split; [reflexivity | exact H0].
  - destruct (Hstep O x s g eq_refl H0) as (s1 & g1 & E1 & H1).
    destruct (IH (fun k => I (S k)) s1 g1 H1) as (s2 & g2 & E2 & H2).
    + intros k y s' g' Hk Hi. exact (Hstep (S k) y s' g' Hk Hi).
    + exists s2, g2. split; [|exact H2].
      cbn [for_in]. now rewrite (bind_Ok _ _ _ _ _ E1).
Qed.

(** Invariant rule for [while]: the test holds during the first [m]
    iterations and fails after them; [m] units of fuel are enough. *)
Lemma while_inv {St} (fuel m : nat) (cond : St -> bool)
    (body : St -> M G St) (I : nat -> St -> G -> Prop) s g :
  I O s g ->
  (forall k s g, (k < m)%nat -> I k s g ->
     cond s = true /\
     exists s' g', body s g = Ok (s', g') /\ I (S k) s' g') ->
  (forall s g, I m s g -> cond s = false) ->
  (m <= fuel)%nat ->
  exists s' g', while fuel cond body s g = Ok (s', g') /\ I m s' g'.
Proof.
  revert fuel I s g. induction m as [|m IH]; intros fuel I s g H0 Hstep Hend Hf.
  - exists s, g. split; [|exact H0].
    destruct fuel; cbn [while]; now rewrite (Hend s g H0).
  - destruct fuel as [|fuel]; [lia|].
    destruct (Hstep O s g ltac:(lia) H0) as (Hc & s1 & g1 & E1 & H1).
    destruct (IH fuel (fun k => I (S k)) s1 g1 H1) as (s2 & g2 & E2 & H2).
    + intros k s' g' Hk Hi. apply (Hstep (S k)); [lia | exact Hi].
    + exact Hend.
    + lia.
    + exists s2, g2. split; [|exact H2].
      cbn [while]. rewrite Hc. now rewrite (bind_Ok _ _ _ _ _ E1).
Qed.

End Monad.

(** ** Basic facts: lists and dicts *)

Lemma range_lookup lo hi k x :
  range lo hi !! k = Some x <-> x = lo + Z.of_nat k /\ Z.of_nat k < hi - lo.
Proof. unfold range. apply lookup_seqZ. Qed.

Lemma range_length lo hi : length (range lo hi) = Z.to_nat (hi - lo).
Proof. unfold range. apply length_seqZ. Qed.

Lemma index_Ok {A} (l : list A) (k : nat) x :
  l !! k = Some x -> index l (Z.of_nat k) = Ok x.
Proof.
  intros E. pose proof (lookup_lt_Some _ _ _ E) as Hlt. unfold index.
  destruct (Z.ltb_spec (Z.of_nat k) 0) as [?|_]; [lia|].
  destruct (Z.leb_spec 0 (Z.of_nat k)) as [_|?]; [|lia].
  destruct (Z.ltb_spec (Z.of_nat k) (Z.of_nat (length l))) as [_|?]; [|lia].
  cbn [andb]. now rewrite Nat2Z.id, E.
Qed.

Lemma index_Ok_inv {A} (l : list A) (n : Z) x :
  0 <= n -> index l n = Ok x -> l !! Z.to_nat n = Some x.
Proof.
  intros Hn. unfold index.
  destruct (Z.ltb_spec n 0) as [?|_]; [lia|].
  destruct ((0 <=? n) && (n <? Z.of_nat (length l))); [|discriminate].
  destruct (l !! Z.to_nat n); [|discriminate]. now intros [= ->].
Qed.

Lemma all_zero_replicate (l : list Z) (m : nat) :
  length l = m -> (forall k, (k < m)%nat -> l !! k = Some 0) ->
  l = replicate m 0.
Proof.
  intros Hlen Hall. apply list_eq. intros k.
  destruct (decide (k < m)%nat) as [Hk|Hk].
  - rewrite (Hall k Hk). symmetry. now apply lookup_replicate_2.
  - rewrite !lookup_ge_None_2; [reflexivity | rewrite length_replicate; lia | lia].
Qed.

Lemma index_fmap_seq {A} (f : nat -> A) (n k : nat) :
  (k < n)%nat -> index (f <$> seq 0 n) (Z.of_nat k) = Ok (f k).
Proof.
  intros Hk. apply index_Ok. rewrite list_lookup_fmap.
  assert (E : seq 0 n !! k = Some k) by (apply lookup_seq; lia).
  now rewrite E.
Qed.

Lemma fmap_seq_snoc {A} (f : nat -> A) (k : nat) :
  f <$> seq 0 (S k) = (f <$> seq 0 k) ++ [f k].
Proof. now rewrite seq_S, fmap_app. Qed.

Lemma ten_lists_lookup {A} (f : nat -> list A) key :
  (ten_lists : gmap Z (list A)) !! key = filled f 0 key.
Proof.
  unfold filled. destruct (decide (1 <= key <= 10)) as [Hk|Hk].
  - destruct (decide (key <= Z.of_nat 0)) as [?|_]; [lia|].
    assert (Hc : key = 1 \/ key = 2 \/ key = 3 \/ key = 4 \/ key = 5 \/
                 key = 6 \/ key = 7 \/ key = 8 \/ key = 9 \/ key = 10) by lia.
    repeat (destruct Hc as [->|Hc]; [reflexivity|]). now subst.
  - unfold ten_lists. rewrite !lookup_insert_ne by lia. apply lookup_empty.
Qed.

Lemma dict_append_is {A} (d : gmap Z (list A)) key0 l x rest :
  dict_is d key0 l rest ->
  exists d', dict_append d key0 (Ok x) = Ok d' /\ dict_is d' key0 (l ++ [x]) rest.
Proof.
  intros Hd. unfold dict_append. pose proof (Hd key0) as E.
  destruct (decide (key0 = key0)) as [_|?]; [|congruence]. rewrite E.
  eexists. split; [reflexivity|]. intros key. rewrite lookup_insert.
  destruct (decide (key0 = key)) as [<-|Hne].
  - now destruct (decide (key0 = key0)).
  - rewrite Hd. now destruct (decide (key = key0)); [congruence|].
Qed.

Lemma filled_open {A} (d : gmap Z (list A)) f (k : nat) :
  Z.of_nat k < 10 ->
  (forall key, d !! key = filled f k key) ->
  dict_is d (Z.of_nat k + 1) [] (filled f k).
Proof.
  intros Hk Hd key. rewrite Hd. destruct (decide (key = Z.of_nat k + 1)) as [->|]; [|reflexivity].
  unfold filled. destruct (decide (1 <= Z.of_nat k + 1 <= 10)); [|lia].
  now destruct (decide (Z.of_nat k + 1 <= Z.of_nat k)); [lia|].
Qed.

Lemma filled_close {A} (d : gmap Z (list A)) f (k : nat) :
  Z.of_nat k < 10 ->
  dict_is d (Z.of_nat k + 1) (f k) (filled f k) ->
  forall key, d !! key = filled f (S k) key.
Proof.
  intros Hk Hd key. rewrite Hd. unfold filled.
  destruct (decide (key = Z.of_nat k + 1)) as [->|Hne].
  - destruct (decide (1 <= Z.of_nat k + 1 <= 10)); [|lia].
    destruct (decide (Z.of_nat k + 1 <= Z.of_nat (S k))); [|lia].
    do 2 f_equal. lia.
  - destruct (decide (1 <= key <= 10)); [|reflexivity].
    destruct (decide (key <= Z.of_nat k)), (decide (key <= Z.of_nat (S k)));
      try reflexivity; lia.
Qed.

Lemma filled_get {A} (d : gmap Z (list A)) f (k i n : nat) x :
  (forall key, d !! key = filled f k key) ->
  (i < k)%nat -> Z.of_nat k <= 10 -> f i !! n = Some x ->
  dict_get d (Z.of_nat i + 1) (Z.of_nat n) = Ok x.
Proof.
  intros Hd Hi Hk Hx. unfold dict_get. rewrite Hd. unfold filled.
  destruct (decide (1 <= Z.of_nat i + 1 <= 10)); [|lia].
  destruct (decide (Z.of_nat i + 1 <= Z.of_nat k)); [|lia].
  replace (Z.to_nat (Z.of_nat i + 1 - 1)) with i by lia.
  now apply index_Ok.
Qed.

(** ** The generator as a stream *)

Section StreamFacts.
Context {G : Type} `{RandomState G}.

Lemma skip_add a b (g : G) : skip (a + b) g = skip b (skip a g).
Proof. revert g. induction a as [|a IH]; intros g; [reflexivity | apply IH]. Qed.

Lemma tape_skip a t (g : G) : tape (skip a g) t = tape g (a + t).
Proof. unfold tape. now rewrite skip_add. Qed.

Lemma later_refl (g : G) : later g g.
Proof. now exists O. Qed.

Lemma later_skip n (g g' : G) : later g g' -> later g (skip n g').
Proof. intros [m ->]. exists (m + n)%nat. now rewrite skip_add. Qed.

Lemma draws_spec loc scale n (g : G) :
  draws loc scale n g
  = ((fun t => (loc + scale * tape g t)%Q) <$> seq 0 n, skip n g).
Proof.
  revert g. induction n as [|n IH]; intros g; [reflexivity|].
  cbn [draws]. destruct (gauss g) as [z g1] eqn:E. rewrite IH.
  cbn [seq fmap list_fmap skip]. rewrite E. cbn [snd]. f_equal.
  unfold tape at 2. cbn [skip]. rewrite E. cbn [fst]. f_equal.
  rewrite <- seq_shift, <- list_fmap_compose. apply list_fmap_ext.
  intros _ t _. cbn. unfold tape. cbn [skip]. now rewrite E.
Qed.

Lemma np_random_normal_Ok loc scale size (g : G) :
  (0 <= scale)%Q -> 0 <= size ->
  np_random_normal loc scale size g
  = Ok ((fun t => (loc + scale * tape g t)%Q) <$> seq 0 (Z.to_nat size),
        skip (Z.to_nat size) g).
Proof.
  intros Hs Hn. unfold np_random_normal.
  apply Qle_bool_iff in Hs. rewrite Hs.
  destruct (Z.leb_spec 0 size) as [_|?]; [|lia].
  cbn [andb]. now rewrite draws_spec.
Qed.

Lemma tri_S k : tri (S k) = (tri k + S k)%nat.
Proof. reflexivity. Qed.

(** [v1], [v2] and [v3] are the instances of [v_]. *)
Lemma v1_eq : v1 (G := G) = v_ 1.
Proof. reflexivity. Qed.

Lemma v2_eq : v2 (G := G) = v_ 2.
Proof. reflexivity. Qed.

Lemma v3_eq : v3 (G := G) = v_ 3.
Proof. reflexivity. Qed.

(** What [v1], [v2], [v3] return, and where they leave the
    generator. *)
Lemma v_spec j p (g : G) :
  (0 <= par_sigma p)%Q ->
  v_ j p g
  = Ok ((fun k => EU_at j p k g) <$> seq 0 (Z.to_nat (par_N p)),
        skip (tri (Z.to_nat (par_N p))) g).
Proof.
  intros Hs. unfold v_.
  edestruct (for_in_inv (range 1 (par_N p + 1))
               (fun i EU =>
                  eps <- np_random_normal 0 (par_sigma p) i ;;
                  ret (EU ++ [(1 / inject_Z i
                               * (inject_Z (j * i) + np_sum eps))%Q]))
               (fun k EU g' =>
                  EU = (fun k => EU_at j p k g) <$> seq 0 k
                  /\ g' = skip (tri k) g) [] g)
    as (EU & g' & E & -> & ->).
  - split; reflexivity.
  - intros k x EU g' Hx [-> ->]. apply range_lookup in Hx as [-> Hk].
    eexists _, _. split.
    + erewrite bind_Ok by (apply np_random_normal_Ok; [exact Hs | lia]).
      reflexivity.
    + split.
      * rewrite fmap_seq_snoc. f_equal. f_equal. unfold EU_at, sample.
        replace (Z.of_nat k + 1) with (1 + Z.of_nat k) by lia.
        replace (Z.to_nat (1 + Z.of_nat k - 1)) with k by lia.
        do 3 f_equal. apply list_fmap_ext. intros _ t _.
        now rewrite tape_skip.
      * rewrite <- skip_add, tri_S. f_equal. lia.
  - rewrite E, range_length. do 4 f_equal; lia.
Qed.

Lemma v1_spec p (g : G) :
  (0 <= par_sigma p)%Q ->
  v1 p g = Ok ((fun k => EU1 p k g) <$> seq 0 (Z.to_nat (par_N p)),
               skip (draws_v p) g).
Proof. intros Hs. rewrite v1_eq. now apply v_spec. Qed.

Lemma v2_spec p (g : G) :
  (0 <= par_sigma p)%Q ->
  v2 p (skip (draws_v p) g)
  = Ok ((fun k => EU2 p k g) <$> seq 0 (Z.to_nat (par_N p)),
        skip (2 * draws_v p) g).
Proof.
  intros Hs. rewrite v2_eq, v_spec by exact Hs. unfold EU2.
  fold (draws_v p). rewrite <- skip_add. do 3 f_equal. lia.
Qed.

Lemma v3_spec p (g : G) :
  (0 <= par_sigma p)%Q ->
  v3 p (skip (2 * draws_v p) g)
  = Ok ((fun k => EU3 p k g) <$> seq 0 (Z.to_nat (par_N p)),
        skip (3 * draws_v p) g).
Proof.
  intros Hs. rewrite v3_eq, v_spec by exact Hs. unfold EU3.
  fold (draws_v p). rewrite <- skip_add. do 3 f_equal. lia.
Qed.

(** One noise term: [np.random.normal(0, sigma, 1)] then [noise[0]]. *)
Lemma one_noise {B} p (g : G) (k : Q -> M G B) :
  (0 <= par_sigma p)%Q ->
  (noise <- np_random_normal 0 (par_sigma p) 1 ;;
   n0 <- lift (index noise 0) ;; k n0) g
  = k (0 + par_sigma p * tape g 0)%Q (skip 1 g).
Proof.
  intros Hs.
  erewrite bind_Ok by (apply np_random_normal_Ok; [exact Hs | lia]).
  reflexivity.
Qed.

(** What [career] returns, and where it leaves the generator. *)
Lemma career_spec p (g : G) :
  (0 <= par_sigma p)%Q ->
  career p g
  = Ok (((fun k => career_at p k g) <$> seq 0 (Z.to_nat (par_N p)),
         (fun k => EV_at p k g) <$> seq 0 (Z.to_nat (par_N p)),
         (fun k => RV_at p k g) <$> seq 0 (Z.to_nat (par_N p))),
        skip (draws_career p) g).
Proof.
  intros Hs. unfold career.
  erewrite bind_Ok by (apply v1_spec; exact Hs).
  erewrite bind_Ok by (apply v2_spec; exact Hs).
  erewrite bind_Ok by (apply v3_spec; exact Hs).
  set (n := Z.to_nat (par_N p)).
  match goal with
  | |- bind (for_in ?l0 ?b0 ?s0) _ ?g0 = _ =>
      destruct (for_in_inv l0 b0
        (fun k s g' =>
           s = ((fun k => career_at p k g) <$> seq 0 k,
                (fun k => EV_at p k g) <$> seq 0 k,
                (fun k => noise_at p k g) <$> seq 0 k)
           /\ g' = skip (3 * draws_v p + k) g) s0 g0)
        as (s1 & g1 & E1 & -> & ->)
  end.
  - split; [reflexivity | f_equal; lia].
  - intros k x s g' Hx [-> ->]. apply range_lookup in Hx as [-> Hk].
    assert (Hkn : (k < n)%nat) by (unfold n; lia).
    rewrite Z.add_0_l.
    rewrite (lift_Ok_bind _ _ _ _ (index_fmap_seq _ _ _ Hkn)).
    rewrite (lift_Ok_bind _ _ _ _ (index_fmap_seq _ _ _ Hkn)).
    rewrite (lift_Ok_bind _ _ _ _ (index_fmap_seq _ _ _ Hkn)).
    exists ((fun k => career_at p k g) <$> seq 0 (S k),
            (fun k => EV_at p k g) <$> seq 0 (S k),
            (fun k => noise_at p k g) <$> seq 0 (S k)),
           (skip (3 * draws_v p + S k) g).
    split; [|split; reflexivity].
    assert (En : noise_at p k g
                 = (0 + par_sigma p * tape (skip (3 * draws_v p + k) g) 0)%Q)
      by (unfold noise_at; now rewrite tape_skip, Nat.add_0_r).
    assert (Eg : skip (3 * draws_v p + S k) g
                 = skip 1 (skip (3 * draws_v p + k) g))
      by (rewrite <- skip_add; f_equal; lia).
    rewrite !fmap_seq_snoc, En, Eg.
    assert (Ec : career_at p k g
                 = pick (EU1 p k g) (EU2 p k g) (EU3 p k g)) by reflexivity.
    assert (Ee : EV_at p k g
                 = pick_EV (EU1 p k g) (EU2 p k g) (EU3 p k g)) by reflexivity.
    unfold pick in Ec. unfold pick_EV in Ee.
    destruct (Qeq_bool _ (EU1 p k g)) eqn:T1;
      [|destruct (Qeq_bool _ (EU2 p k g)) eqn:T2];
      rewrite one_noise, Ec, Ee by exact Hs; reflexivity.
  - erewrite bind_Ok by exact E1. rewrite range_length, Z.sub_0_r. fold n.
    match goal with
    | |- bind (for_in ?l0 ?b0 ?s0) _ ?g0 = _ =>
        destruct (for_in_inv l0 b0
          (fun k s g' =>
             s = (fun k => RV_at p k g) <$> seq 0 k /\ g' = g0) s0 g0)
          as (s2 & g2 & E2 & -> & ->)
    end.
    + split; reflexivity.
    + intros k x s g' Hx [-> ->]. apply range_lookup in Hx as [-> Hk].
      assert (Hkn : (k < n)%nat) by (unfold n; lia).
      rewrite Z.add_0_l.
      rewrite (lift_Ok_bind _ _ _ _ (index_fmap_seq _ _ _ Hkn)).
      rewrite (lift_Ok_bind _ _ _ _ (index_fmap_seq _ _ _ Hkn)).
      eexists _, _. split; [reflexivity|].
      split; [|reflexivity]. now rewrite fmap_seq_snoc.
    + erewrite bind_Ok by exact E2. rewrite range_length, Z.sub_0_r. fold n.
      unfold ret, draws_career. do 3 f_equal.
Qed.

Lemma trial_state_next p (g : G) i n :
  skip (draws_career p) (trial_state p g i n) = trial_state p g i (S n).
Proof. unfold trial_state. rewrite <- skip_add. f_equal. nia. Qed.

Lemma trial_state_wrap p (g : G) i :
  trial_state p g i (trials p) = trial_state p g (S i) 0.
Proof. unfold trial_state. f_equal. nia. Qed.

Lemma trial_state_later p (g : G) i n : later g (trial_state p g i n).
Proof. unfold trial_state. now eexists. Qed.

(** What [simulate] returns: the three dicts hold, under key
    [i + 1], the entries [i] of the successive calls of [career],
    one per trial [0 .. K]. *)
Lemma simulate_spec fuel p (g : G) :
  (0 <= par_sigma p)%Q -> par_N p <= 10 -> (trials p <= fuel)%nat ->
  exists careerdict EVdict RVdict,
    simulate fuel p g
    = Ok ((careerdict, EVdict, RVdict),
          trial_state p g (Z.to_nat (par_N p)) 0)
    /\ (forall key, careerdict !! key
         = filled (fun i => (fun n => career_at p i (trial_state p g i n))
                              <$> seq 0 (trials p))
             (Z.to_nat (par_N p)) key)
    /\ (forall key, EVdict !! key
         = filled (fun i => (fun n => EV_at p i (trial_state p g i n))
                              <$> seq 0 (trials p))
             (Z.to_nat (par_N p)) key)
    /\ (forall key, RVdict !! key
         = filled (fun i => (fun n => RV_at p i (trial_state p g i n))
                              <$> seq 0 (trials p))
             (Z.to_nat (par_N p)) key).
Proof.
  intros Hs HN Hf. unfold simulate.
  set (fc := fun i => (fun n => career_at p i (trial_state p g i n))
                        <$> seq 0 (trials p)).
  set (fe := fun i => (fun n => EV_at p i (trial_state p g i n))
                        <$> seq 0 (trials p)).
  set (fr := fun i => (fun n => RV_at p i (trial_state p g i n))
                        <$> seq 0 (trials p)).
  match goal with
  | |- context [for_in ?l0 ?b0 ?s0 g] =>
      destruct (for_in_inv l0 b0
        (fun k s g' =>
           exists cd ed rd, s = (cd, ed, rd)
             /\ g' = trial_state p g k 0
             /\ (forall key, cd !! key = filled fc k key)
             /\ (forall key, ed !! key = filled fe k key)
             /\ (forall key, rd !! key = filled fr k key)) s0 g)
        as (s1 & g1 & E1 & cd & ed & rd & -> & -> & Hc & He & Hr)
  end.
  - exists ten_lists, ten_lists, ten_lists.
    split; [reflexivity|]. split; [reflexivity|].
    split; [|split]; intros key; apply ten_lists_lookup.
  - intros k x s g' Hx (cd & ed & rd & -> & -> & Hc & He & Hr).
    apply range_lookup in Hx as [-> Hk]. rewrite Z.add_0_l.
    assert (Hkn : (k < Z.to_nat (par_N p))%nat) by lia.
    cbv beta iota.
    match goal with
    | |- context [bind (while fuel ?c0 ?b0 ?s0) _ ?g0] =>
        destruct (while_inv fuel (trials p) c0 b0
          (fun m s g' =>
             exists cd ed rd, s = (Z.of_nat m, cd, ed, rd)
               /\ g' = trial_state p g k m
               /\ dict_is cd (Z.of_nat k + 1)
                    ((fun n => career_at p k (trial_state p g k n)) <$> seq 0 m)
                    (filled fc k)
               /\ dict_is ed (Z.of_nat k + 1)
                    ((fun n => EV_at p k (trial_state p g k n)) <$> seq 0 m)
                    (filled fe k)
               /\ dict_is rd (Z.of_nat k + 1)
                    ((fun n => RV_at p k (trial_state p g k n)) <$> seq 0 m)
                    (filled fr k)) s0 g0)
          as (s2 & g2 & E2 & cd2 & ed2 & rd2 & -> & -> & Hc2 & He2 & Hr2)
    end.
    + exists cd, ed, rd. split; [reflexivity|]. split; [reflexivity|].
      split; [|split]; apply filled_open; (lia || assumption).
    + intros m s g' Hm (cd1 & ed1 & rd1 & -> & -> & Hc1 & He1 & Hr1).
      split; [apply Z.leb_le; unfold trials in Hm; lia|].
      erewrite bind_Ok by (apply career_spec; exact Hs).
      cbv beta iota.
      rewrite !(index_fmap_seq _ _ _ Hkn).
      destruct (dict_append_is _ _ _ (career_at p k (trial_state p g k m)) _ Hc1)
        as (cd' & -> & Hc').
      rewrite (lift_Ok_bind _ _ _ _ eq_refl).
      destruct (dict_append_is _ _ _ (EV_at p k (trial_state p g k m)) _ He1)
        as (ed' & -> & He').
      rewrite (lift_Ok_bind _ _ _ _ eq_refl).
      destruct (dict_append_is _ _ _ (RV_at p k (trial_state p g k m)) _ Hr1)
        as (rd' & -> & Hr').
      rewrite (lift_Ok_bind _ _ _ _ eq_refl).
      eexists _, _. split; [reflexivity|].
      exists cd', ed', rd'. rewrite !fmap_seq_snoc, trial_state_next.
      split; [do 3 f_equal; lia|]. now repeat split.
    + intros s g' (cd1 & ed1 & rd1 & -> & _). apply Z.leb_gt.
      unfold trials. lia.
    + exact Hf.
    + erewrite bind_Ok by exact E2. eexists _, _. split; [reflexivity|].
      exists cd2, ed2, rd2. split; [reflexivity|].
      split; [apply trial_state_wrap|].
      split; [|split]; apply filled_close; (lia || assumption).
  - rewrite range_length, Z.sub_0_r in E1, Hc, He, Hr.
    exists cd, ed, rd. rewrite E1. auto.
Qed.

End StreamFacts.

(** ** The estimators [v1], [v2], [v3] *)

Lemma np_sum_from (l : list Q) (a : Q) :
  (fold_left Qplus l a == a + np_sum l)%Q.
Proof.
  unfold np_sum. revert a. induction l as [|x l IH]; intros a; cbn [fold_left].
  - ring.
  - rewrite IH, (IH (0 + x)%Q). ring.
Qed.

Section Estimators.
Context {G : Type} `{RandomState G}.

Lemma sample_length p i (g : G) : length (sample p i g) = Z.to_nat i.
Proof. unfold sample. now rewrite length_fmap, length_seq. Qed.

(** The estimate is the literal [j] plus the sample mean: the
    factor [1/i] divides the term [j * i] as well. *)
Lemma EU_at_mean j p k (g : G) :
  (EU_at j p k g == inject_Z j + mean (sample p (Z.of_nat k + 1) g))%Q.
Proof.
  unfold EU_at, mean. cbv zeta. rewrite sample_length.
  rewrite Z2Nat.id by lia. rewrite inject_Z_mult.
  assert (Hi : ~ (inject_Z (Z.of_nat k + 1) == 0)%Q).
  { change 0%Q with (inject_Z 0). rewrite inject_Z_injective. lia. }
  field. exact Hi.
Qed.

Lemma v_lookup j p (g : G) i :
  (0 <= par_sigma p)%Q -> 1 <= i <= par_N p ->
  exists EU g',
    v_ j p g = Ok (EU, g')
    /\ index EU (i - 1) = Ok (EU_at j p (Z.to_nat (i - 1)) g).
Proof.
  intros Hs Hi. eexists _, _. split; [apply v_spec; exact Hs|].
  replace (i - 1) with (Z.of_nat (Z.to_nat (i - 1))) at 1 by lia.
  apply (index_fmap_seq (fun k => EU_at j p k g)). lia.
Qed.

End Estimators.

Section EstimatorClaims.
Context {G : Type} `{RandomState G}.

(** C1, as amended.  For every type [i] in [1 .. N], the estimators
    [v1], [v2] and [v3] return, at index [i - 1], the literal [1], [2]
    or [3] plus the mean of the [i] deviates of scale [sigma] drawn for
    that type: the base does not scale with [i], because the factor
    [1/i] divides the term [j * i] too. *)
Theorem estimators_add_track_to_sample_mean p (g : G) i :
  (0 <= par_sigma p)%Q -> 1 <= i <= par_N p ->
  exists EUv1 EUv2 EUv3 g1 g2 g3 e1 e2 e3,
    v1 p g = Ok (EUv1, g1) /\ v2 p g = Ok (EUv2, g2) /\ v3 p g = Ok (EUv3, g3)
    /\ index EUv1 (i - 1) = Ok e1
    /\ index EUv2 (i - 1) = Ok e2
    /\ index EUv3 (i - 1) = Ok e3
    /\ length (sample p i g) = Z.to_nat i
    /\ (e1 == 1 + mean (sample p i g))%Q
    /\ (e2 == 2 + mean (sample p i g))%Q
    /\ (e3 == 3 + mean (sample p i g))%Q.
Proof.
  intros Hs Hi.
  destruct (v_lookup 1 p g i Hs Hi) as (EUv1 & g1 & E1 & I1).
  destruct (v_lookup 2 p g i Hs Hi) as (EUv2 & g2 & E2 & I2).
  destruct (v_lookup 3 p g i Hs Hi) as (EUv3 & g3 & E3 & I3).
  exists EUv1, EUv2, EUv3, g1, g2, g3.
  eexists _, _, _. rewrite v1_eq, v2_eq, v3_eq.
  repeat (split; [eassumption|]).
  split; [apply sample_length|].
  assert (Ei : Z.of_nat (Z.to_nat (i - 1)) + 1 = i) by lia.
  pose proof (EU_at_mean 1 p (Z.to_nat (i - 1)) g) as M1.
  pose proof (EU_at_mean 2 p (Z.to_nat (i - 1)) g) as M2.
  pose proof (EU_at_mean 3 p (Z.to_nat (i - 1)) g) as M3.
  rewrite Ei in M1, M2, M3. auto.
Qed.

End EstimatorClaims.

(** A worked instance: two types, deviates [1; -1; 3], unit scale. *)
Lemma estimators_add_track_to_sample_mean_witness :
  exists EUv1 EUv2 EUv3 g1 g2 g3 e1 e2 e3,
    v1 (par_with 2 0 1) [1; -1; 3]%Q = Ok (EUv1, g1)
    /\ v2 (par_with 2 0 1) [1; -1; 3]%Q = Ok (EUv2, g2)
    /\ v3 (par_with 2 0 1) [1; -1; 3]%Q = Ok (EUv3, g3)
    /\ index EUv1 (2 - 1) = Ok e1
    /\ index EUv2 (2 - 1) = Ok e2
    /\ index EUv3 (2 - 1) = Ok e3
    /\ length (sample (par_with 2 0 1) 2 [1; -1; 3]%Q) = Z.to_nat 2
    /\ (e1 == 1 + mean (sample (par_with 2 0 1) 2 [1; -1; 3]%Q))%Q
    /\ (e2 == 2 + mean (sample (par_with 2 0 1) 2 [1; -1; 3]%Q))%Q
    /\ (e3 == 3 + mean (sample (par_with 2 0 1) 2 [1; -1; 3]%Q))%Q.
Proof.
  apply (estimators_add_track_to_sample_mean (par_with 2 0 1) [1; -1; 3]%Q 2).
  - vm_compute. discriminate.
  - simpl. lia.
Defined.

(** C1, as stated, fails: with deviates [1; -1; 3] the estimate of
    track 1 for type 2 is [1/2 * (1*2 + 2) = 2], that is [1] plus the
    sample mean [1], and not [1 * 2] plus the sample mean. *)
Lemma base_scales_with_type_counterexample :
  exists EU g' eu,
    v1 (par_with 2 0 1) [1; -1; 3]%Q = Ok (EU, g')
    /\ index EU (2 - 1) = Ok eu
    /\ (mean (sample (par_with 2 0 1) 2 [1; -1; 3]%Q) == 1)%Q
    /\ (eu == 2)%Q
    /\ ~ (eu == inject_Z (1 * 2) + mean (sample (par_with 2 0 1) 2 [1; -1; 3]%Q))%Q.
Proof.
  eexists _, _, _. split; [vm_compute; reflexivity|].
  split; [vm_compute; reflexivity|].
  split; [vm_compute; reflexivity|].
  split; [vm_compute; reflexivity|].
  vm_compute. discriminate.
Qed.

(** ** The aggregator [count] *)

Lemma count_loop_occ (l : list Z) c1 c2 c3 :
  count_loop l (c1, c2, c3)
  = (c1 + Z.of_nat (count_occ Z.eq_dec l 1),
     c2 + Z.of_nat (count_occ Z.eq_dec l 2),
     c3 + Z.of_nat (length l - count_occ Z.eq_dec l 1
                    - count_occ Z.eq_dec l 2)).
Proof.
  revert c1 c2 c3. induction l as [|x l IH]; intros c1 c2 c3.
  - cbn. apply (f_equal2 pair); [apply (f_equal2 pair)|]; lia.
  - pose proof (count_occ_bound Z.eq_dec 1 l) as B1.
    pose proof (count_occ_bound Z.eq_dec 2 l) as B2.
    assert (B12 : (count_occ Z.eq_dec l 1%Z + count_occ Z.eq_dec l 2%Z
                   <= length l)%nat).
    { clear. induction l as [|y l IH]; cbn; [lia|].
      destruct (Z.eq_dec y 1), (Z.eq_dec y 2); lia. }
    cbn [count_loop count_occ length].
    destruct (Z.eqb_spec x 1) as [->|N1].
    + rewrite IH. destruct (Z.eq_dec 1 1); [|congruence].
      destruct (Z.eq_dec 1 2); [lia|]. apply (f_equal2 pair); [apply (f_equal2 pair)|]; lia.
    + destruct (Z.eq_dec x 1); [congruence|].
      destruct (Z.eqb_spec x 2) as [->|N2].
      * rewrite IH. destruct (Z.eq_dec 2 2); [|congruence].
        apply (f_equal2 pair); [apply (f_equal2 pair)|]; lia.
      * rewrite IH. destruct (Z.eq_dec x 2); [congruence|].
        apply (f_equal2 pair); [apply (f_equal2 pair)|]; lia.
Qed.

Lemma count2_loop_occ (l : list Z) c0 c1 :
  count2_loop l (c0, c1)
  = (c0 + Z.of_nat (count_occ Z.eq_dec l 0),
     c1 + Z.of_nat (length l - count_occ Z.eq_dec l 0)).
Proof.
  revert c0 c1. induction l as [|x l IH]; intros c0 c1.
  - cbn. apply (f_equal2 pair); lia.
  - pose proof (count_occ_bound Z.eq_dec 0 l) as B0.
    cbn [count2_loop count_occ length].
    destruct (Z.eqb_spec x 0) as [->|N0]; rewrite IH.
    + destruct (Z.eq_dec 0 0); [|congruence]. apply (f_equal2 pair); lia.
    + destruct (Z.eq_dec x 0); [congruence|]. apply (f_equal2 pair); lia.
Qed.

Lemma share_bounds (a b : Z) :
  0 <= a <= b -> 0 < b -> (0 <= inject_Z a / inject_Z b <= 1)%Q.
Proof.
  intros Ha Hb.
  assert (Hb' : (0 < inject_Z b)%Q)
    by (change 0%Q with (inject_Z 0); now rewrite <- Zlt_Qlt).
  split.
  - apply Qle_shift_div_l; [exact Hb'|]. rewrite Qmult_0_l.
    change 0%Q with (inject_Z 0). rewrite <- Zle_Qle. lia.
  - apply Qle_shift_div_r; [exact Hb'|]. rewrite Qmult_1_l.
    rewrite <- Zle_Qle. lia.
Qed.

(** ** Division of integers: rounding to binary64 *)

Lemma round_half_even_cases (x : Q) :
  (round_half_even x = Qfloor x /\ (x - inject_Z (Qfloor x) <= 1 # 2)%Q)
  \/ (round_half_even x = Qfloor x + 1 /\ (1 # 2 <= x - inject_Z (Qfloor x))%Q).
Proof.
  unfold round_half_even.
  destruct (x - inject_Z (Qfloor x) ?= 1 # 2)%Q eqn:C.
  - apply Qeq_alt in C. destruct (Z.even (Qfloor x)); [left | right];
      (split; [reflexivity | rewrite C; apply Qle_refl]).
  - apply Qlt_alt in C. left. split; [reflexivity | now apply Qlt_le_weak].
  - apply Qgt_alt in C. right. split; [reflexivity | now apply Qlt_le_weak].
Qed.

Lemma round_half_even_error (x : Q) :
  (Qabs (inject_Z (round_half_even x) - x) <= 1 # 2)%Q.
Proof.
  pose proof (Qfloor_le x) as Hlo. pose proof (Qlt_floor x) as Hhi.
  rewrite inject_Z_plus in Hhi. change (inject_Z 1) with 1%Q in Hhi.
  apply Qabs_Qle_condition.
  destruct (round_half_even_cases x) as [[-> Hr] | [-> Hr]];
    rewrite ?inject_Z_plus; change (inject_Z 1) with 1%Q; split; lra.
Qed.

Lemma round_half_even_le (x : Q) (z : Z) :
  (x <= inject_Z z)%Q -> round_half_even x <= z.
Proof.
  intros Hx. pose proof (Qfloor_le x) as Hlo.
  assert (Hf : Qfloor x <= z).
  { rewrite Zle_Qle. eapply Qle_trans; eassumption. }
  destruct (round_half_even_cases x) as [[-> Hr] | [-> Hr]]; [exact Hf|].
  destruct (Z.eq_dec (Qfloor x) z) as [E|NE]; [|lia].
  exfalso. rewrite E in Hr. lra.
Qed.

Lemma round_half_even_ge (x : Q) (z : Z) :
  (inject_Z z <= x)%Q -> z <= round_half_even x.
Proof.
  intros Hx.
  assert (Hf : z <= Qfloor x).
  { rewrite <- (Qfloor_Z z). now apply Qfloor_resp_le. }
  destruct (round_half_even_cases x) as [[-> Hr] | [-> Hr]]; lia.
Qed.

Lemma round_half_even_Z (z : Z) : round_half_even (inject_Z z) = z.
Proof.
  apply Z.le_antisymm;
    [apply round_half_even_le | apply round_half_even_ge]; apply Qle_refl.
Qed.

Lemma two_pow_pos (e : Z) : (0 < 2 ^ e)%Q.
Proof. now apply Qpower_0_lt. Qed.

(** [Qlog2 q] is at most 0 on [(0, 1]], below 0 on [(0, 1)], and
    [2 ^ Qlog2 q] does not exceed [q]. *)
Lemma Qlog2_le_0 (q : Q) : (0 < q)%Q -> (q <= 1)%Q -> Qlog2 q <= 0.
Proof.
  intros H0 H1. unfold Qlog2.
  destruct q as [n d]. cbn [Qnum Qden].
  assert (Hn : 0 < n) by (unfold Qlt in H0; cbn in H0; lia).
  assert (Hnd : n <= Z.pos d) by (unfold Qle in H1; cbn in H1; lia).
  pose proof (Z.log2_le_mono n (Z.pos d) Hnd) as Hl.
  destruct (Qle_bool _ _); lia.
Qed.

Lemma Qlog2_lt_0 (q : Q) : (0 < q)%Q -> (q < 1)%Q -> Qlog2 q <= -1.
Proof.
  intros H0 H1. unfold Qlog2.
  destruct q as [n d]. cbn [Qnum Qden].
  assert (Hn : 0 < n) by (unfold Qlt in H0; cbn in H0; lia).
  assert (Hnd : n <= Z.pos d) by (unfold Qlt in H1; cbn in H1; lia).
  pose proof (Z.log2_le_mono n (Z.pos d) Hnd) as Hl.
  destruct (Qle_bool (2 ^ (Z.log2 n - Z.log2 (Z.pos d))) (n # d)) eqn:T; [|lia].
  apply Qle_bool_iff in T.
  destruct (Z.eq_dec (Z.log2 n - Z.log2 (Z.pos d)) 0) as [E|NE]; [|lia].
  rewrite E in T. change (2 ^ 0)%Q with 1%Q in T. lra.
Qed.

Lemma Qlog2_lower (q : Q) : (0 < q)%Q -> (2 ^ Qlog2 q <= q)%Q.
Proof.
  intros H0. unfold Qlog2.
  destruct (Qle_bool _ q) eqn:T; [now apply Qle_bool_iff in T|]. clear T.
  destruct q as [n d]. cbn [Qnum Qden].
  assert (Hn : 0 < n) by (unfold Qlt in H0; cbn in H0; lia).
  destruct (Z.log2_spec n Hn) as [Hn1 _].
  destruct (Z.log2_spec (Z.pos d) ltac:(lia)) as [_ Hd2].
  pose proof (Z.log2_nonneg n) as Ln. pose proof (Z.log2_nonneg (Z.pos d)) as Ld.
  set (a := Z.log2 n) in *. set (b := Z.log2 (Z.pos d)) in *.
  replace (a - b - 1) with (a - (b + 1)) by lia.
  rewrite Qpower_minus by discriminate.
  rewrite <- !(Zpower_Qpower 2) by lia.
  apply Qle_shift_div_r.
  - change 0%Q with (inject_Z 0). rewrite <- Zlt_Qlt. lia.
  - unfold Qle, Qmult, inject_Z. cbn [Qnum Qden].
    rewrite !Z.mul_1_r. rewrite Pos.mul_1_r.
    apply Z.lt_succ_r in Hd2 || idtac.
    nia.
Qed.

Lemma round_half_even_eq (x : Q) (z : Z) :
  (x == inject_Z z)%Q -> round_half_even x = z.
Proof.
  intros E. apply Z.le_antisymm;
    [apply round_half_even_le | apply round_half_even_ge]; rewrite E;
    apply Qle_refl.
Qed.

Lemma Qabs_nonneg_eq (q : Q) : (0 <= q)%Q -> Qabs q = q.
Proof.
  destruct q as [n d]. unfold Qle. cbn. intros Hn. f_equal.
  apply Z.abs_eq. lia.
Qed.

Lemma round64_nonzero (q : Q) :
  ~ (q == 0)%Q ->
  round64 q
  = (inject_Z (round_half_even (q / 2 ^ ulp_exponent q)) * 2 ^ ulp_exponent q)%Q.
Proof.
  intros Hq. unfold round64.
  destruct (Qeq_bool q 0) eqn:T; [|reflexivity].
  apply Qeq_bool_iff in T. contradiction.
Qed.

Lemma round64_zero (q : Q) : (q == 0)%Q -> round64 q = 0%Q.
Proof.
  intros Hq. unfold round64. apply Qeq_bool_iff in Hq. now rewrite Hq.
Qed.

Lemma ulp_exponent_unit (q : Q) :
  (0 < q)%Q -> (q <= 1)%Q ->
  -1074 <= ulp_exponent q <= -52 /\ ((q < 1)%Q -> ulp_exponent q <= -53).
Proof.
  intros H0 H1. unfold ulp_exponent.
  rewrite (Qabs_nonneg_eq q) by now apply Qlt_le_weak.
  pose proof (Qlog2_le_0 q H0 H1). split; [lia|].
  intros Hlt. pose proof (Qlog2_lt_0 q H0 Hlt). lia.
Qed.

Lemma scaled_back (q : Q) (e : Z) : (q / 2 ^ e * 2 ^ e == q)%Q.
Proof. field. apply Qpower_not_0. discriminate. Qed.

Lemma two_pow_opp (e : Z) : e <= 0 -> (/ 2 ^ e == inject_Z (2 ^ (- e)))%Q.
Proof.
  intros He. rewrite (Zpower_Qpower 2) by lia. now rewrite Qpower_opp.
Qed.

(** A quotient in [[0, 1]] rounds to a number in [[0, 1]]. *)
Lemma round64_unit (q : Q) : (0 <= q <= 1)%Q -> (0 <= round64 q <= 1)%Q.
Proof.
  intros [H0 H1]. destruct (Qeq_dec q 0) as [E|NE].
  - rewrite (round64_zero q E). split; [apply Qle_refl | discriminate].
  - assert (Hpos : (0 < q)%Q) by (apply Qlt_leneq; split; [exact H0 | intros E; apply NE; now symmetry]).
    rewrite (round64_nonzero q NE).
    destruct (ulp_exponent_unit q Hpos H1) as [[He1 He2] _].
    set (e := ulp_exponent q) in *.
    pose proof (two_pow_pos e) as Hp.
    assert (Eone : (inject_Z (2 ^ (- e)) * 2 ^ e == 1)%Q).
    { rewrite <- two_pow_opp by lia. field. apply Qpower_not_0. discriminate. }
    assert (Hx0 : (inject_Z 0 <= q / 2 ^ e)%Q).
    { apply Qle_shift_div_l; [exact Hp|]. now rewrite Qmult_0_l. }
    assert (Hx1 : (q / 2 ^ e <= inject_Z (2 ^ (- e)))%Q).
    { apply Qle_shift_div_r; [exact Hp|]. now rewrite Eone. }
    apply round_half_even_ge in Hx0. apply round_half_even_le in Hx1.
    rewrite Zle_Qle in Hx0, Hx1. split.
    + apply Qmult_le_0_compat; [exact Hx0 | now apply Qlt_le_weak].
    + apply (Qmult_le_compat_r _ _ (2 ^ e)) in Hx1; [|now apply Qlt_le_weak].
      now rewrite Eone in Hx1.
Qed.

(** The rounding error of a quotient in [[0, 1]]: half a unit in the
    last place of the numbers below 1. *)
Lemma round64_error (q : Q) :
  (0 <= q <= 1)%Q -> (Qabs (round64 q - q) <= 2 ^ (-54))%Q.
Proof.
  intros [H0 H1]. destruct (Qeq_dec q 0) as [E|NE].
  - rewrite (round64_zero q E), E. discriminate.
  - assert (Hpos : (0 < q)%Q) by (apply Qlt_leneq; split; [exact H0 | intros E; apply NE; now symmetry]).
    rewrite (round64_nonzero q NE).
    destruct (ulp_exponent_unit q Hpos H1) as [[He1 He2] He3].
    set (e := ulp_exponent q) in *.
    pose proof (two_pow_pos e) as Hp.
    destruct (Qlt_le_dec q 1) as [Hlt|Hge].
    + specialize (He3 Hlt).
      pose proof (round_half_even_error (q / 2 ^ e)) as Herr.
      set (r := inject_Z (round_half_even (q / 2 ^ e))) in *.
      assert (Eq : (r * 2 ^ e - q == (r - q / 2 ^ e) * 2 ^ e)%Q).
      { field. apply Qpower_not_0. discriminate. }
      rewrite Eq, Qabs_Qmult, (Qabs_pos (2 ^ e)) by now apply Qlt_le_weak.
      assert (Hpe : (2 ^ e <= 2 ^ (-53))%Q)
        by (apply Qpower_le_compat_l; [exact He3 | discriminate]).
      apply Qle_trans with ((1 # 2) * 2 ^ e)%Q.
      * apply Qmult_le_compat_r; [exact Herr | now apply Qlt_le_weak].
      * apply Qle_trans with ((1 # 2) * 2 ^ (-53))%Q; [|discriminate].
        apply Qmult_le_l; [reflexivity | exact Hpe].
    + assert (E1 : (q == 1)%Q) by (apply Qle_antisym; assumption).
      assert (Ex : (q / 2 ^ e == inject_Z (2 ^ (- e)))%Q).
      { rewrite <- two_pow_opp by lia. rewrite E1. unfold Qdiv. ring. }
      rewrite (round_half_even_eq _ _ Ex), <- two_pow_opp by lia.
      assert (Ez : (/ 2 ^ e * 2 ^ e - q == 0)%Q)
        by (rewrite E1; field; apply Qpower_not_0; discriminate).
      rewrite Ez. discriminate.
Qed.

(** A quotient in [[2^-1074, 1]] does not round to 0. *)
Lemma round64_positive (q : Q) :
  (2 ^ (-1074) <= q)%Q -> (q <= 1)%Q -> (0 < round64 q)%Q.
Proof.
  intros Hlo H1.
  assert (Hpos : (0 < q)%Q)
    by (eapply Qlt_le_trans; [apply (two_pow_pos (-1074)) | exact Hlo]).
  assert (NE : ~ (q == 0)%Q) by (intros E; rewrite E in Hpos; discriminate).
  rewrite (round64_nonzero q NE).
  pose proof (Qlog2_lower q Hpos) as Hk.
  assert (He : (2 ^ ulp_exponent q <= q)%Q).
  { unfold ulp_exponent. rewrite (Qabs_nonneg_eq q) by now apply Qlt_le_weak.
    destruct (Z.max_spec (Qlog2 q - 52) (-1074)) as [[_ ->] | [_ ->]];
      [exact Hlo|].
    eapply Qle_trans; [|exact Hk].
    apply Qpower_le_compat_l; [lia | discriminate]. }
  set (e := ulp_exponent q) in *.
  pose proof (two_pow_pos e) as Hp.
  assert (Hx : (inject_Z 1 <= q / 2 ^ e)%Q).
  { apply Qle_shift_div_l; [exact Hp|]. now rewrite Qmult_1_l. }
  apply round_half_even_ge in Hx. rewrite Zle_Qle in Hx.
  apply Qlt_le_trans with (inject_Z 1 * 2 ^ e)%Q.
  - rewrite Qmult_1_l. exact Hp.
  - apply Qmult_le_compat_r; [exact Hx | now apply Qlt_le_weak].
Qed.

(** [truediv] on sample quotients, as CPython evaluates them: [1 / 3]
    is the float [6004799503160661 / 2^54]; [3 / 2^1075] lies half way
    between two subnormal numbers and goes to the even one, [2^-1073];
    [1 / 2^1076] underflows to 0; [(2^1024 - 2^971) / 1] is the
    largest float, and [(2^1024 - 2^970) / 1], half way to [2^1024],
    rounds beyond it. *)
Example truediv_examples :
  truediv 1 3 = Ok (6004799503160661 # 18014398509481984)
  /\ (exists x, truediv 3 (2 ^ 1075) = Ok x /\ (x == 2 ^ (-1073))%Q)
  /\ (exists x, truediv 1 (2 ^ 1076) = Ok x /\ (x == 0)%Q)
  /\ (exists x, truediv (2 ^ 1024 - 2 ^ 971) 1 = Ok x
                /\ (x == inject_Z (2 ^ 1024 - 2 ^ 971))%Q)
  /\ truediv (2 ^ 1024 - 2 ^ 970) 1 = Raise OverflowError
  /\ truediv 1 0 = Raise ZeroDivisionError.
Proof.
  split; [vm_compute; reflexivity|].
  split; [eexists; split; [vm_compute; reflexivity | vm_compute; reflexivity]|].
  split; [eexists; split; [vm_compute; reflexivity | vm_compute; reflexivity]|].
  split; [eexists; split; [vm_compute; reflexivity | vm_compute; reflexivity]|].
  split; vm_compute; reflexivity.
Qed.

(** The share of a count in a length: the rounded quotient, and no
    exception. *)
Lemma truediv_share (a b : Z) :
  0 <= a <= b -> 0 < b ->
  truediv a b = Ok (round64 (inject_Z a / inject_Z b)).
Proof.
  intros Ha Hb. unfold truediv.
  destruct (Z.eqb_spec b 0) as [?|_]; [lia|].
  destruct (round64_unit (inject_Z a / inject_Z b) (share_bounds a b Ha Hb))
    as [H0 H1].
  destruct (Qle_bool _ _) eqn:T; [|reflexivity].
  apply Qle_bool_iff in T. rewrite (Qabs_pos _ H0) in T.
  exfalso. apply (Qle_not_lt _ _ T).
  eapply Qle_lt_trans; [exact H1|]. now apply Qpower_1_lt.
Qed.

Lemma count_loop_total l c1 c2 c3 :
  let '(a, b, c) := count_loop l (c1, c2, c3) in
  a + b + c = c1 + c2 + c3 + Z.of_nat (length l).
Proof.
  revert c1 c2 c3. induction l as [|x l IH]; intros c1 c2 c3.
  - cbn. lia.
  - cbn [count_loop length].
    destruct (x =? 1); [|destruct (x =? 2)].
    + specialize (IH (c1 + 1) c2 c3).
      destruct (count_loop l (c1 + 1, c2, c3)) as [[a b] c]. lia.
    + specialize (IH c1 (c2 + 1) c3).
      destruct (count_loop l (c1, c2 + 1, c3)) as [[a b] c]. lia.
    + specialize (IH c1 c2 (c3 + 1)).
      destruct (count_loop l (c1, c2, c3 + 1)) as [[a b] c]. lia.
Qed.

(** C8.  Over a non-empty list of careers, [count] returns three
    shares, and they sum to 1 up to the rounding of the three
    quotients: the sum of the three floats differs from 1 by at most
    [3 * 2^-54], three half units in the last place. *)
Theorem count_shares_sum_to_one (l : list Z) :
  l <> [] ->
  exists s1 s2 s3,
    count l = Ok [s1; s2; s3]
    /\ (Qabs (s1 + s2 + s3 - 1) <= 3 * 2 ^ (-54))%Q.
Proof.
  intros Hl. unfold count. rewrite count_loop_occ, !Z.add_0_l.
  assert (Hn : 0 < Z.of_nat (length l)) by (destruct l; [congruence | cbn; lia]).
  pose proof (count_occ_bound Z.eq_dec 1 l) as B1.
  pose proof (count_occ_bound Z.eq_dec 2 l) as B2.
  set (a := Z.of_nat (count_occ Z.eq_dec l 1)).
  set (b := Z.of_nat (count_occ Z.eq_dec l 2)).
  set (c := Z.of_nat (length l - count_occ Z.eq_dec l 1
                      - count_occ Z.eq_dec l 2)).
  set (n := Z.of_nat (length l)) in *.
  assert (Ht : a + b + c = n).
  { pose proof (count_loop_total l 0 0 0) as Ht.
    rewrite count_loop_occ in Ht. fold a b c n in Ht. lia. }
  assert (Ha : 0 <= a <= n) by (unfold a, n; lia).
  assert (Hb : 0 <= b <= n) by (unfold b, n; lia).
  assert (Hc : 0 <= c <= n) by (unfold c, n; lia).
  rewrite !truediv_share by assumption.
  eexists _, _, _. split; [reflexivity|].
  pose proof (round64_error _ (share_bounds a n Ha Hn)) as Ea.
  pose proof (round64_error _ (share_bounds b n Hb Hn)) as Eb.
  pose proof (round64_error _ (share_bounds c n Hc Hn)) as Ec.
  apply Qabs_Qle_condition in Ea, Eb, Ec.
  assert (Hq : ~ (inject_Z n == 0)%Q).
  { change 0%Q with (inject_Z 0). rewrite inject_Z_injective. lia. }
  assert (Hsum : (inject_Z a / inject_Z n + inject_Z b / inject_Z n
                  + inject_Z c / inject_Z n == 1)%Q).
  { rewrite <- Ht, !inject_Z_plus. field. rewrite <- !inject_Z_plus, Ht.
    exact Hq. }
  set (eps := (2 ^ (-54))%Q) in *.
  apply Qabs_Qle_condition. split; lra.
Qed.

(** The tolerance is needed: of the six careers 1, 1, 2, 2, 2, 3 the
    shares are the floats nearest to 1/3, 1/2 and 1/6, and the first
    and the last lie below the exact quotients. *)
Example count_shares_need_tolerance :
  exists s1 s2 s3,
    count [1; 1; 2; 2; 2; 3] = Ok [s1; s2; s3] /\ (s1 + s2 + s3 < 1)%Q.
Proof. eexists _, _, _. split; [vm_compute; reflexivity|]. reflexivity. Qed.

Lemma count_shares_sum_to_one_witness :
  exists s1 s2 s3,
    count [3; 1; 3; 2] = Ok [s1; s2; s3]
    /\ (Qabs (s1 + s2 + s3 - 1) <= 3 * 2 ^ (-54))%Q.
Proof. apply (count_shares_sum_to_one [3; 1; 3; 2]). discriminate. Defined.

(** ** The first choice: [career] and [simulate] *)

(** The cascade of [career] returns the lowest-indexed maximal
    estimate. *)
Lemma pick_range e1 e2 e3 : 1 <= pick e1 e2 e3 <= 3.
Proof.
  unfold pick.
  destruct (Qeq_bool _ e1); [lia|]. destruct (Qeq_bool _ e2); lia.
Qed.

Lemma np_max3_ub a b c :
  (a <= np_max3 a b c /\ b <= np_max3 a b c /\ c <= np_max3 a b c)%Q.
Proof.
  unfold np_max3. repeat split.
  - eapply Qle_trans; [apply Q.le_max_l | apply Q.le_max_l].
  - eapply Qle_trans; [apply Q.le_max_r | apply Q.le_max_l].
  - apply Q.le_max_r.
Qed.

Lemma np_max3_cases a b c :
  (np_max3 a b c == a \/ np_max3 a b c == b \/ np_max3 a b c == c)%Q.
Proof.
  unfold np_max3.
  destruct (Q.max_dec (Qmax a b) c) as [E|E]; [|now right; right].
  destruct (Q.max_dec a b) as [E'|E']; [left | right; left];
    (eapply Qeq_trans; [exact E | exact E']).
Qed.

Lemma Qle_neq_lt (x y : Q) : (x <= y)%Q -> ~ (y == x)%Q -> (x < y)%Q.
Proof.
  intros Hle Hne. apply Qle_lteq in Hle as [Hlt|Heq]; [exact Hlt|].
  exfalso. apply Hne. now symmetry.
Qed.

Lemma pick_argmax e1 e2 e3 :
  let est := fun t : Z => if t =? 1 then e1 else if t =? 2 then e2 else e3 in
  pick_EV e1 e2 e3 = est (pick e1 e2 e3)
  /\ (forall t, 1 <= t <= 3 -> (est t <= est (pick e1 e2 e3))%Q)
  /\ (forall t, 1 <= t < pick e1 e2 e3 -> (est t < est (pick e1 e2 e3))%Q).
Proof.
  intros est. unfold pick, pick_EV.
  destruct (np_max3_ub e1 e2 e3) as (U1 & U2 & U3).
  assert (Hest : forall t, 1 <= t <= 3 -> (est t <= np_max3 e1 e2 e3)%Q).
  { intros t Ht. unfold est.
    destruct (Z.eqb_spec t 1); [exact U1|].
    destruct (Z.eqb_spec t 2); [exact U2 | exact U3]. }
  destruct (Qeq_bool (np_max3 e1 e2 e3) e1) eqn:T1.
  - apply Qeq_bool_iff in T1. cbn. split; [reflexivity|]. split.
    + intros t Ht. rewrite <- T1. now apply Hest.
    + intros t Ht. lia.
  - apply Qeq_bool_neq in T1.
    destruct (Qeq_bool (np_max3 e1 e2 e3) e2) eqn:T2.
    + apply Qeq_bool_iff in T2. cbn. split; [reflexivity|]. split.
      * intros t Ht. rewrite <- T2. now apply Hest.
      * intros t Ht. assert (t = 1) as -> by lia. cbn.
        rewrite <- T2. now apply Qle_neq_lt.
    + apply Qeq_bool_neq in T2.
      assert (T3 : (np_max3 e1 e2 e3 == e3)%Q)
        by (destruct (np_max3_cases e1 e2 e3) as [?|[?|?]]; tauto).
      cbn. split; [reflexivity|]. split.
      * intros t Ht. rewrite <- T3. now apply Hest.
      * intros t Ht. rewrite <- T3.
        assert (t = 1 \/ t = 2) as [-> | ->] by lia; cbn;
          now apply Qle_neq_lt.
Qed.

Section FirstChoice.
Context {G : Type} `{RandomState G}.

(** The records of type [i + 1], trial [n], read back from what
    [simulate] returns. *)
Lemma simulate_records fuel p (g : G) :
  (0 <= par_sigma p)%Q -> par_N p <= 10 -> (trials p <= fuel)%nat ->
  exists careerdict EVdict RVdict g',
    simulate fuel p g = Ok ((careerdict, EVdict, RVdict), g')
    /\ later g g'
    /\ forall i n, 0 <= i < par_N p -> 0 <= n <= par_K p ->
         let gt := trial_state p g (Z.to_nat i) (Z.to_nat n) in
         dict_get careerdict (i + 1) n = Ok (career_at p (Z.to_nat i) gt)
         /\ dict_get EVdict (i + 1) n = Ok (EV_at p (Z.to_nat i) gt)
         /\ dict_get RVdict (i + 1) n = Ok (RV_at p (Z.to_nat i) gt).
Proof.
  intros Hs HN Hf.
  destruct (simulate_spec fuel p g Hs HN Hf) as (cd & ed & rd & E & Hc & He & Hr).
  exists cd, ed, rd. eexists. split; [exact E|].
  split; [apply trial_state_later|]. intros i n Hi Hn gt.
  assert (Hseq : seq 0 (trials p) !! Z.to_nat n = Some (Z.to_nat n))
    by (apply lookup_seq; unfold trials; lia).
  replace (i + 1) with (Z.of_nat (Z.to_nat i) + 1) by lia.
  replace n with (Z.of_nat (Z.to_nat n)) at 1 2 3 by lia.
  split; [|split].
  - eapply filled_get; [exact Hc | lia | lia |].
    cbv beta. rewrite list_lookup_fmap, Hseq. reflexivity.
  - eapply filled_get; [exact He | lia | lia |].
    cbv beta. rewrite list_lookup_fmap, Hseq. reflexivity.
  - eapply filled_get; [exact Hr | lia | lia |].
    cbv beta. rewrite list_lookup_fmap, Hseq. reflexivity.
Qed.

(** The collections [simulate] returns are first-year collections. *)
Lemma simulate_first_year fuel p (g : G) careerdict EVdict RVdict g' :
  (0 <= par_sigma p)%Q -> par_N p <= 10 -> (trials p <= fuel)%nat ->
  simulate fuel p g = Ok ((careerdict, EVdict, RVdict), g') ->
  first_year p careerdict RVdict.
Proof.
  intros Hs HN Hf E i n Hi Hn.
  destruct (simulate_records fuel p g Hs HN Hf)
    as (cd & ed & rd & g1 & E1 & _ & Hrec).
  rewrite E in E1. injection E1 as <- <- <- <-.
  destruct (Hrec i n Hi ltac:(lia)) as (Ec & _ & Er).
  eexists _, _. split; [exact Ec|]. split; [exact Er | apply pick_range].
Qed.

(** Distinct types or trials draw their noise terms at distinct
    positions of the stream. *)
Lemma noise_index_inj p (i n i' n' : nat) :
  (i < Z.to_nat (par_N p))%nat -> (i' < Z.to_nat (par_N p))%nat ->
  (n < trials p)%nat -> (n' < trials p)%nat ->
  noise_index p i n = noise_index p i' n' -> i = i' /\ n = n'.
Proof.
  unfold noise_index, draws_career. intros Hi Hi' Hn Hn' E.
  set (T := draws_v p) in *. set (N := Z.to_nat (par_N p)) in *.
  set (K1 := trials p) in *.
  assert (Ea : (i * K1 + n = i' * K1 + n')%nat) by nia.
  assert (Ei : i = i') by nia.
  split; [exact Ei | nia].
Qed.

End FirstChoice.

Section FirstChoiceClaims.
Context {G : Type} `{RandomState G}.

(** C2, as the code has it.  [simulate] succeeds and files, for every
    type [1 .. N], one more record than the trial count: the loop
    [n = 0; while n <= par.K] runs its body for [n = 0, 1, ..., K], so
    each of the three lists of a type has [K + 1] entries. *)
Theorem simulate_files_one_record_too_many fuel p (g : G) key :
  (0 <= par_sigma p)%Q -> par_N p <= 10 -> (trials p <= fuel)%nat ->
  0 <= par_K p -> 1 <= key <= par_N p ->
  exists careerdict EVdict RVdict g' lc le lr,
    simulate fuel p g = Ok ((careerdict, EVdict, RVdict), g')
    /\ careerdict !! key = Some lc
    /\ EVdict !! key = Some le
    /\ RVdict !! key = Some lr
    /\ Z.of_nat (length lc) = par_K p + 1
    /\ Z.of_nat (length le) = par_K p + 1
    /\ Z.of_nat (length lr) = par_K p + 1.
Proof.
  intros Hs HN Hf HK Hkey.
  destruct (simulate_spec fuel p g Hs HN Hf) as (cd & ed & rd & E & Hc & He & Hr).
  exists cd, ed, rd. eexists _, _, _, _. split; [exact E|].
  rewrite Hc, He, Hr. unfold filled.
  destruct (decide (1 <= key <= 10)); [|lia].
  destruct (decide (key <= Z.of_nat (Z.to_nat (par_N p)))); [|lia].
  repeat (split; [reflexivity|]).
  rewrite !length_fmap, !length_seq. unfold trials. lia.
Qed.

(** C3.  For every type and trial, the realized utility [simulate]
    records is the recorded career (1, 2 or 3) plus one noise term
    [0 + sigma * z], where [z] is the deviate at position
    [noise_index] of the stream: a position no other type or trial
    reads its noise from. *)
Theorem realized_utility_is_track_plus_noise fuel p (g : G) i n :
  (0 <= par_sigma p)%Q -> par_N p <= 10 -> (trials p <= fuel)%nat ->
  0 <= i < par_N p -> 0 <= n <= par_K p ->
  exists careerdict EVdict RVdict g' t rv,
    simulate fuel p g = Ok ((careerdict, EVdict, RVdict), g')
    /\ dict_get careerdict (i + 1) n = Ok t
    /\ dict_get RVdict (i + 1) n = Ok rv
    /\ 1 <= t <= 3
    /\ rv = (inject_Z t
             + (0 + par_sigma p
                    * tape g (noise_index p (Z.to_nat i) (Z.to_nat n))))%Q
    /\ (forall i' n', 0 <= i' < par_N p -> 0 <= n' <= par_K p ->
          noise_index p (Z.to_nat i') (Z.to_nat n')
          = noise_index p (Z.to_nat i) (Z.to_nat n) ->
          i' = i /\ n' = n).
Proof.
  intros Hs HN Hf Hi Hn.
  destruct (simulate_records fuel p g Hs HN Hf)
    as (cd & ed & rd & g' & E & _ & Hrec).
  destruct (Hrec i n Hi Hn) as (Ec & _ & Er).
  exists cd, ed, rd, g'. eexists _, _.
  split; [exact E|]. split; [exact Ec|]. split; [exact Er|].
  split; [apply pick_range|]. split.
  - unfold RV_at, noise_at, trial_state, noise_index. rewrite tape_skip.
    do 4 f_equal. lia.
  - intros i' n' Hi' Hn' Eq.
    apply noise_index_inj in Eq; unfold trials; lia.
Qed.

(** C5.  For every type and trial, the career [simulate] records is
    one whose estimate is maximal among the three, and every career
    with a lower index has a strictly smaller estimate: ties go to the
    lowest index.  The recorded expected utility is that estimate. *)
Theorem first_choice_is_lowest_argmax fuel p (g : G) i n :
  (0 <= par_sigma p)%Q -> par_N p <= 10 -> (trials p <= fuel)%nat ->
  0 <= i < par_N p -> 0 <= n <= par_K p ->
  exists careerdict EVdict RVdict g' t ev,
    simulate fuel p g = Ok ((careerdict, EVdict, RVdict), g')
    /\ dict_get careerdict (i + 1) n = Ok t
    /\ dict_get EVdict (i + 1) n = Ok ev
    /\ 1 <= t <= 3
    /\ let est := estimate p (Z.to_nat i)
                    (trial_state p g (Z.to_nat i) (Z.to_nat n)) in
       ev = est t
       /\ (forall t', 1 <= t' <= 3 -> (est t' <= est t)%Q)
       /\ (forall t', 1 <= t' < t -> (est t' < est t)%Q).
Proof.
  intros Hs HN Hf Hi Hn.
  destruct (simulate_records fuel p g Hs HN Hf)
    as (cd & ed & rd & g' & E & _ & Hrec).
  destruct (Hrec i n Hi Hn) as (Ec & Ee & _).
  exists cd, ed, rd, g'. eexists _, _.
  split; [exact E|]. split; [exact Ec|]. split; [exact Ee|].
  split; [apply pick_range|].
  apply pick_argmax.
Qed.

(** [simulate] stops with the [ValueError] of the first normal draw
    when the scale is negative and there is at least one trial to
    run. *)
Lemma simulate_negative_sigma fuel p (g : G) :
  (par_sigma p < 0)%Q -> 1 <= par_N p -> 0 <= par_K p -> (1 <= fuel)%nat ->
  simulate fuel p g = Raise ValueError.
Proof.
  intros Hs HN HK Hf. unfold simulate, range.
  rewrite seqZ_cons by lia. cbn [for_in]. apply bind_Raise.
  apply bind_Raise. destruct fuel as [|fuel]; [lia|]. cbn [while].
  destruct (Z.leb_spec 0 (par_K p)) as [_|?]; [|lia].
  apply bind_Raise. apply bind_Raise. unfold career. apply bind_Raise.
  unfold v1, range. rewrite seqZ_cons by lia. cbn [for_in].
  apply bind_Raise. apply bind_Raise. unfold np_random_normal.
  destruct (Qle_bool 0 (par_sigma p)) eqn:T; [|reflexivity].
  apply Qle_bool_iff in T. exfalso. exact (Qlt_not_le _ _ Hs T).
Qed.

(** C6, as amended.  Nothing validates the parameters.  The
    constructor fixes them to literals and succeeds, with or without a
    seed; [simulate] runs to completion whenever the scale is not
    negative and [N] is at most 10 (the keys of its dicts), also for
    [N <= 0], [K <= 0], [sigma = 0] or an empty [v]; and the only
    failure a malformed parameter causes is the [ValueError] of the
    first normal draw under a negative scale. *)
Theorem parameters_are_not_validated fuel p (g : G) :
  par_N p <= 10 -> (trials p <= fuel)%nat ->
  (exists p0, init None g = Ok (p0, g))
  /\ (forall seed, 0 <= seed < 2 ^ 32 ->
        exists p0 g', init (Some seed) g = Ok (p0, g'))
  /\ ((0 <= par_sigma p)%Q ->
      exists careerdict EVdict RVdict g',
        simulate fuel p g = Ok ((careerdict, EVdict, RVdict), g'))
  /\ ((par_sigma p < 0)%Q -> 1 <= par_N p -> 0 <= par_K p ->
      simulate fuel p g = Raise ValueError).
Proof.
  intros HN Hf. split; [|split; [|split]].
  - eexists. reflexivity.
  - intros seed Hseed. eexists _, _. unfold init, bind, np_random_seed.
    destruct (Z.leb_spec 0 seed) as [_|?]; [|lia].
    destruct (Z.ltb_spec seed (2 ^ 32)) as [_|?]; [|lia].
    reflexivity.
  - intros Hs.
    destruct (simulate_spec fuel p g Hs HN Hf) as (cd & ed & rd & E & _).
    exists cd, ed, rd. eexists. exact E.
  - intros Hs H1 HK. apply simulate_negative_sigma; try assumption.
    unfold trials in Hf. lia.
Qed.

End FirstChoiceClaims.

(** ** The second year: [career_alt] *)

Lemma filled_ext {A} (f f' : nat -> list A) (k : nat) key :
  (forall i, (i < k)%nat -> f i = f' i) -> filled f k key = filled f' k key.
Proof.
  intros Hf. unfold filled.
  destruct (decide (1 <= key <= 10)); [|reflexivity].
  destruct (decide (key <= Z.of_nat k)); [|reflexivity].
  f_equal. apply Hf. lia.
Qed.

Lemma dict_is_ext {A} (d : gmap Z (list A)) key0 l (rest rest' : Z -> option (list A)) :
  (forall key, rest key = rest' key) ->
  dict_is d key0 l rest -> dict_is d key0 l rest'.
Proof. intros Hr Hd key. rewrite Hd, Hr. reflexivity. Qed.

Lemma alternatives_spec o a b :
  alternatives o = (a, b) ->
  1 <= a <= 3 /\ 1 <= b <= 3 /\ a <> first_career o /\ b <> first_career o
  /\ a <> b.
Proof.
  unfold alternatives, first_career.
  destruct (o =? 1); [|destruct (o =? 2)]; intros [= <- <-]; lia.
Qed.

Lemma first_career_id o : 1 <= o <= 3 -> first_career o = o.
Proof.
  intros Ho. unfold first_career.
  destruct (Z.eqb_spec o 1); [lia|]. destruct (Z.eqb_spec o 2); lia.
Qed.

Lemma alt_dicts_open d (k : nat) R :
  Z.of_nat k < 10 ->
  alt_dicts_filled d R k -> alt_dicts_are d (Z.of_nat k + 1) [] R k.
Proof.
  destruct d as [[[sw cda] eva] rva]. intros Hk (Hsw & Hc & He & Hr).
  repeat split; now apply filled_open.
Qed.

Lemma alt_dicts_close d (k : nat) rs R :
  Z.of_nat k < 10 ->
  alt_dicts_are d (Z.of_nat k + 1) rs R k ->
  alt_dicts_filled d (fun i => if decide (i = k) then rs else R i) (S k).
Proof.
  destruct d as [[[sw cda] eva] rva]. intros Hk (Hsw & Hc & He & Hr).
  repeat split; apply filled_close; try assumption; cbv beta;
    (destruct (decide (k = k)) as [_|?]; [|congruence]);
    (eapply dict_is_ext; [|eassumption]);
    intros key; apply filled_ext; intros i Hi;
    now destruct (decide (i = k)); [lia|].
Qed.

Section SecondYear.
Context {G : Type} `{RandomState G}.

Lemma alt_keep_ok (k : nat) a rv d rs R (g : G) :
  alt_dicts_are d (Z.of_nat k + 1) rs R k ->
  exists d',
    alt_keep (Z.of_nat k) a rv d g = Ok (d', g)
    /\ alt_dicts_are d' (Z.of_nat k + 1)
         (rs ++ [{| alt_switch := 0; alt_career := a;
                    alt_EV := rv; alt_RV := rv |}]) R k.
Proof.
  destruct d as [[[sw cda] eva] rva]. intros (Hsw & Hc & He & Hr).
  unfold alt_keep.
  destruct (dict_append_is _ _ _ a _ Hc) as (cda' & Ec & Hc').
  destruct (dict_append_is _ _ _ rv _ He) as (eva' & Ee & He').
  destruct (dict_append_is _ _ _ 0 _ Hsw) as (sw' & Esw & Hsw').
  destruct (dict_append_is _ _ _ rv _ Hr) as (rva' & Er & Hr').
  rewrite (lift_Ok_bind _ _ _ _ Ec), (lift_Ok_bind _ _ _ _ Ee),
    (lift_Ok_bind _ _ _ _ Esw), (lift_Ok_bind _ _ _ _ Er).
  exists (sw', cda', eva', rva'). split; [reflexivity|].
  unfold alt_dicts_are. rewrite !fmap_app. auto.
Qed.

Lemma alt_move_ok p (k : nat) a ev d rs R (g : G) :
  (0 <= par_sigma p)%Q ->
  alt_dicts_are d (Z.of_nat k + 1) rs R k ->
  exists d',
    alt_move p (Z.of_nat k) a ev d g = Ok (d', skip 1 g)
    /\ alt_dicts_are d' (Z.of_nat k + 1)
         (rs ++ [{| alt_switch := 1; alt_career := a; alt_EV := ev;
                    alt_RV := (inject_Z a - par_c p
                               + (0 + par_sigma p * tape g 0))%Q |}]) R k.
Proof.
  destruct d as [[[sw cda] eva] rva]. intros Hs (Hsw & Hc & He & Hr).
  unfold alt_move.
  destruct (dict_append_is _ _ _ a _ Hc) as (cda' & Ec & Hc').
  destruct (dict_append_is _ _ _ ev _ He) as (eva' & Ee & He').
  destruct (dict_append_is _ _ _ 1 _ Hsw) as (sw' & Esw & Hsw').
  destruct (dict_append_is _ _ _
              (inject_Z a - par_c p + (0 + par_sigma p * tape g 0))%Q _ Hr)
    as (rva' & Er & Hr').
  rewrite (lift_Ok_bind _ _ _ _ Ec), (lift_Ok_bind _ _ _ _ Ee),
    (lift_Ok_bind _ _ _ _ Esw).
  erewrite bind_Ok by (apply np_random_normal_Ok; [exact Hs | lia]).
  change (index _ 0) with (Ok (0 + par_sigma p * tape g 0)%Q).
  cbn [outcome_map]. rewrite (lift_Ok_bind _ _ _ _ Er).
  exists (sw', cda', eva', rva'). split; [reflexivity|].
  unfold alt_dicts_are. rewrite !fmap_app. auto.
Qed.

Lemma alt_noise_skip p (g : G) :
  alt_noise p g = (0 + par_sigma p * tape (skip (3 * draws_v p) g) 0)%Q.
Proof. unfold alt_noise. now rewrite tape_skip, Nat.add_0_r. Qed.

Lemma skip_one_more n (g : G) : skip 1 (skip n g) = skip (n + 1) g.
Proof. now rewrite <- skip_add. Qed.

(** One iteration of [career_alt] is a step of [alt_step]. *)
Lemma alt_iteration_step p careerdict RVdict (k : nat) n o rv d rs R (g : G) :
  (0 <= par_sigma p)%Q -> (k < Z.to_nat (par_N p))%nat ->
  dict_get careerdict (Z.of_nat k + 1) n = Ok o ->
  dict_get RVdict (Z.of_nat k + 1) n = Ok rv ->
  alt_dicts_are d (Z.of_nat k + 1) rs R k ->
  exists r g' d',
    alt_iteration p careerdict RVdict (Z.of_nat k) n d g = Ok (d', g')
    /\ alt_step p k o rv g r g'
    /\ later g g'
    /\ alt_dicts_are d' (Z.of_nat k + 1) (rs ++ [r]) R k.
Proof.
  intros Hs Hk Ho Hrv Hd. unfold alt_iteration.
  erewrite bind_Ok by (apply v1_spec; exact Hs).
  erewrite bind_Ok by (apply v2_spec; exact Hs).
  erewrite bind_Ok by (apply v3_spec; exact Hs).
  rewrite (lift_Ok_bind _ _ _ _ Ho).
  set (g3 := skip (3 * draws_v p) g).
  assert (Hcase :
    ((o =? 1) = true /\ alternatives o = (2, 3) /\ first_career o = 1)
    \/ ((o =? 1) = false /\ (o =? 2) = true
        /\ alternatives o = (1, 3) /\ first_career o = 2)
    \/ ((o =? 1) = false /\ (o =? 2) = false
        /\ alternatives o = (1, 2) /\ first_career o = 3)).
  { unfold alternatives, first_career.
    destruct (o =? 1); [|destruct (o =? 2)]; auto 10. }
  destruct Hcase as [(O1 & Ea & Eo) | [(O1 & O2 & Ea & Eo) | (O1 & O2 & Ea & Eo)]];
    rewrite O1, ?O2;
    rewrite (lift_Ok_bind _ _ _ _ Hrv);
    rewrite !(lift_Ok_bind _ _ _ _ (index_fmap_seq _ _ _ Hk));
    cbv zeta;
    (destruct (Qeq_bool _ rv) eqn:T1;
     [ apply Qeq_bool_iff in T1;
       destruct (alt_keep_ok k (first_career o) rv d rs R g3 Hd)
         as (d' & E & Hd');
       rewrite Eo in E at 1;
       eexists _, g3, d'; split; [exact E|];
       split; [exact (alt_step_keep p k o rv g _ _ Ea T1)|];
       split; [now eexists | exact Hd']
     | apply Qeq_bool_neq in T1;
       destruct (Qeq_bool _ (_ - par_c p)) eqn:T2;
       [ apply Qeq_bool_iff in T2 | apply Qeq_bool_neq in T2 ];
       match goal with
       | |- context [alt_move p _ ?t ?ev d g3] =>
           destruct (alt_move_ok p k t ev d rs R g3 Hs Hd) as (d' & E & Hd')
       end;
       unfold g3 in E, Hd' |- *;
       rewrite <- alt_noise_skip in Hd'; rewrite skip_one_more in E;
       eexists _, _, d'; (split; [exact E|]);
       (split; [ first [ exact (alt_step_first p k o rv g _ _ Ea T1 T2)
                       | exact (alt_step_second p k o rv g _ _ Ea T1 T2) ]
               | split; [now eexists | exact Hd'] ]) ]).
Qed.

(** What [career_alt] returns: for every type, [K] records, each the
    outcome of a step on the first-year entries of that trial. *)
Lemma career_alt_spec p careerdict RVdict (g : G) :
  (0 <= par_sigma p)%Q -> par_N p <= 10 -> first_year p careerdict RVdict ->
  exists d g' R,
    career_alt p careerdict RVdict g = Ok (d, g')
    /\ later g g'
    /\ alt_dicts_filled d R (Z.to_nat (par_N p))
    /\ forall i, (i < Z.to_nat (par_N p))%nat ->
         length (R i) = Z.to_nat (par_K p)
         /\ alt_trace p careerdict RVdict g i (R i).
Proof.
  intros Hs HN Hfy. unfold career_alt.
  match goal with
  | |- context [for_in ?l0 ?b0 ?s0 g] =>
      destruct (for_in_inv l0 b0
        (fun k d g' =>
           exists R, alt_dicts_filled d R k /\ later g g'
             /\ forall i, (i < k)%nat ->
                  length (R i) = Z.to_nat (par_K p)
                  /\ alt_trace p careerdict RVdict g i (R i)) s0 g)
        as (d & g' & E & R & Hd & Hl & HR)
  end.
  - exists (fun _ => []). split; [|split; [apply later_refl | intros i Hi; lia]].
    repeat split; intros key; apply ten_lists_lookup.
  - intros k x d g' Hx (R & Hd & Hl & HR).
    apply range_lookup in Hx as [-> Hk]. rewrite Z.add_0_l.
    assert (Hkn : (k < Z.to_nat (par_N p))%nat) by lia.
    match goal with
    | |- context [for_in ?l0 ?b0 d g'] =>
        destruct (for_in_inv l0 b0
          (fun m d1 g1 =>
             exists rs, length rs = m
               /\ alt_dicts_are d1 (Z.of_nat k + 1) rs R k
               /\ later g g1
               /\ alt_trace p careerdict RVdict g k rs) d g')
          as (d1 & g1 & E1 & rs & Hlen & Hd1 & Hl1 & Ht1)
    end.
    + exists []. split; [reflexivity|].
      split; [apply alt_dicts_open; [lia | exact Hd]|].
      split; [exact Hl|]. intros n r Hn. discriminate.
    + intros m y d1 g1 Hy (rs & Hlen & Hd1 & Hl1 & Ht1).
      apply range_lookup in Hy as [-> Hm]. rewrite Z.add_0_l.
      destruct (Hfy (Z.of_nat k) (Z.of_nat m)) as (o & rv & Ho & Hrv & Ho3);
        [lia | lia |].
      destruct (alt_iteration_step p careerdict RVdict k (Z.of_nat m) o rv
                  d1 rs R g1 Hs Hkn Ho Hrv Hd1)
        as (r & g2 & d2 & E2 & Hstep & Hl2 & Hd2).
      exists d2, g2. split; [exact E2|].
      exists (rs ++ [r]). split; [rewrite length_app; cbn; lia|].
      split; [exact Hd2|]. split.
      * destruct Hl1 as [a ->], Hl2 as [b ->]. exists (a + b)%nat.
        now rewrite skip_add.
      * intros n r' Hn. destruct (decide (n < length rs)%nat) as [Hlt|Hge].
        -- rewrite lookup_app_l in Hn by exact Hlt. now apply Ht1.
        -- rewrite lookup_app_r in Hn by lia.
           destruct (n - length rs)%nat as [|?] eqn:En; [|discriminate].
           injection Hn as <-. assert (n = m) as -> by lia.
           exists o, rv, g1, g2. auto.
    + exists d1, g1. split; [exact E1|].
      rewrite range_length, Z.sub_0_r in Hlen.
      exists (fun i => if decide (i = k) then rs else R i).
      split; [apply alt_dicts_close; [lia | exact Hd1]|].
      split; [exact Hl1|]. intros i Hi.
      destruct (decide (i = k)) as [->|Hne]; [now split|].
      apply HR. lia.
  - rewrite range_length, Z.sub_0_r in HR, Hd. exists d, g', R. auto.
Qed.

(** The record of type [i + 1], trial [n], read back from what
    [career_alt] returns. *)
Lemma career_alt_records p careerdict RVdict (g : G) :
  (0 <= par_sigma p)%Q -> par_N p <= 10 -> first_year p careerdict RVdict ->
  exists switchdict careerdict_alt EVdict_alt RVdict_alt g',
    career_alt p careerdict RVdict g
    = Ok ((switchdict, careerdict_alt, EVdict_alt, RVdict_alt), g')
    /\ later g g'
    /\ forall i n, 0 <= i < par_N p -> 0 <= n < par_K p ->
         exists o rv r gt gt',
           dict_get careerdict (i + 1) n = Ok o
           /\ dict_get RVdict (i + 1) n = Ok rv
           /\ 1 <= o <= 3
           /\ dict_get switchdict (i + 1) n = Ok (alt_switch r)
           /\ dict_get careerdict_alt (i + 1) n = Ok (alt_career r)
           /\ dict_get EVdict_alt (i + 1) n = Ok (alt_EV r)
           /\ dict_get RVdict_alt (i + 1) n = Ok (alt_RV r)
           /\ later g gt
           /\ alt_step p (Z.to_nat i) o rv gt r gt'.
Proof.
  intros Hs HN Hfy.
  destruct (career_alt_spec p careerdict RVdict g Hs HN Hfy)
    as ([[[sw cda] eva] rva] & g' & R & E & Hl' & (Hsw & Hc & He & Hr) & HR).
  exists sw, cda, eva, rva, g'. split; [exact E|]. split; [exact Hl'|].
  intros i n Hi Hn.
  destruct (HR (Z.to_nat i)) as (Hlen & Htr); [lia|].
  destruct (lookup_lt_is_Some_2 (R (Z.to_nat i)) (Z.to_nat n)) as [r Er];
    [lia|].
  destruct (Htr _ _ Er) as (o & rv & gt & gt' & Ho & Hrv & Ho3 & Hl & Hstep).
  rewrite !Z2Nat.id in Ho, Hrv by lia.
  exists o, rv, r, gt, gt'.
  split; [exact Ho|]. split; [exact Hrv|]. split; [exact Ho3|].
  replace (i + 1) with (Z.of_nat (Z.to_nat i) + 1) by lia.
  replace n with (Z.of_nat (Z.to_nat n)) by lia.
  repeat split; try assumption;
    (eapply filled_get; [eassumption | lia | lia |]);
    cbv beta; rewrite list_lookup_fmap, Er; reflexivity.
Qed.

(** [career_alt] files exactly [K] switch indicators per type. *)
Lemma career_alt_switch_list p careerdict RVdict (g : G)
    switchdict careerdict_alt EVdict_alt RVdict_alt g' i :
  (0 <= par_sigma p)%Q -> par_N p <= 10 -> first_year p careerdict RVdict ->
  career_alt p careerdict RVdict g
  = Ok ((switchdict, careerdict_alt, EVdict_alt, RVdict_alt), g') ->
  0 <= i < par_N p ->
  exists l, switchdict !! (i + 1) = Some l /\ length l = Z.to_nat (par_K p).
Proof.
  intros Hs HN Hfy E Hi.
  destruct (career_alt_spec p careerdict RVdict g Hs HN Hfy)
    as ([[[sw cda] eva] rva] & g1 & R & E1 & _ & (Hsw & _) & HR).
  rewrite E in E1. injection E1 as -> -> -> -> ->.
  destruct (HR (Z.to_nat i)) as (Hlen & _); [lia|].
  exists (alt_switch <$> R (Z.to_nat i)). split.
  - rewrite Hsw. unfold filled.
    destruct (decide (1 <= i + 1 <= 10)); [|lia].
    destruct (decide (i + 1 <= Z.of_nat (Z.to_nat (par_N p)))); [|lia].
    do 3 f_equal. lia.
  - now rewrite length_fmap.
Qed.

End SecondYear.

Lemma np_max3_not_first a b c :
  ~ (np_max3 a b c == a)%Q -> (a < np_max3 a b c)%Q.
Proof.
  intros Hne. apply Qle_neq_lt; [apply np_max3_ub | exact Hne].
Qed.

(** ** The second year: where each iteration starts *)

Section SecondYearStates.
Context {G : Type} `{RandomState G}.

Lemma alt_step_draws p k o rv (g : G) r g' :
  alt_step p k o rv g r g' ->
  g' = skip (3 * draws_v p + Z.to_nat (alt_switch r)) g
  /\ (alt_switch r = 0 \/ alt_switch r = 1).
Proof.
  intros [a b Ea Hmax | a b Ea Hne Hmax | a b Ea Hne Hne'];
    cbn [alt_switch]; (split; [f_equal; lia | auto]).
Qed.

Lemma sum_switch_fmap (rs : list alt_record) :
  sum_list_with Z.to_nat (alt_switch <$> rs)
  = sum_list_with (fun r => Z.to_nat (alt_switch r)) rs.
Proof. induction rs as [|r rs IH]; [reflexivity|]. cbn. now rewrite IH. Qed.

Lemma sum_list_with_ext_seq (f f' : nat -> nat) (k : nat) :
  (forall i, (i < k)%nat -> f i = f' i) ->
  sum_list_with f (seq 0 k) = sum_list_with f' (seq 0 k).
Proof.
  induction k as [|k IH]; intros Hf; [reflexivity|].
  rewrite seq_S, !sum_list_with_app. cbn. rewrite IH, (Hf k) by auto with lia.
  reflexivity.
Qed.

Lemma switches_recorded_filled (sw : gmap Z (list Z)) R (N k : nat) :
  (forall key, sw !! key = filled (fun i => alt_switch <$> R i) N key) ->
  (k <= N)%nat -> Z.of_nat N <= 10 ->
  switches_recorded sw k = sum_list_with (fun i => switch_count (R i)) (seq 0 k).
Proof.
  intros Hsw Hk HN. unfold switches_recorded.
  apply sum_list_with_ext_seq. intros i Hi.
  rewrite Hsw. unfold filled.
  destruct (decide (1 <= Z.of_nat i + 1 <= 10)); [|lia].
  destruct (decide (Z.of_nat i + 1 <= Z.of_nat N)); [|lia].
  replace (Z.to_nat (Z.of_nat i + 1 - 1)) with i by lia.
  change (default [] (Some (alt_switch <$> R i))) with (alt_switch <$> R i).
  apply sum_switch_fmap.
Qed.

Lemma alt_base_ext p (R R' : nat -> list alt_record) k :
  (forall i, (i < k)%nat -> R i = R' i) -> alt_base p R k = alt_base p R' k.
Proof.
  intros HR. unfold alt_base. f_equal.
  apply sum_list_with_ext_seq. intros i Hi. now rewrite HR.
Qed.

(** What [career_alt] returns, with the state each iteration starts
    in. *)
Lemma career_alt_trace p careerdict RVdict (g : G) :
  (0 <= par_sigma p)%Q -> par_N p <= 10 -> first_year p careerdict RVdict ->
  exists d R,
    career_alt p careerdict RVdict g
    = Ok (d, skip (alt_base p R (Z.to_nat (par_N p))) g)
    /\ alt_dicts_filled d R (Z.to_nat (par_N p))
    /\ forall i, (i < Z.to_nat (par_N p))%nat ->
         length (R i) = Z.to_nat (par_K p)
         /\ alt_trace_from p careerdict RVdict g i (alt_base p R i) (R i).
Proof.
  intros Hs HN Hfy. unfold career_alt.
  set (K' := Z.to_nat (par_K p)). set (T := (3 * draws_v p)%nat).
  match goal with
  | |- context [for_in ?l0 ?b0 ?s0 g] =>
      destruct (for_in_inv l0 b0
        (fun k d g' =>
           exists R, alt_dicts_filled d R k
             /\ g' = skip (alt_base p R k) g
             /\ forall i, (i < k)%nat ->
                  length (R i) = K'
                  /\ alt_trace_from p careerdict RVdict g i (alt_base p R i) (R i))
        s0 g)
        as (d & g' & E & R & Hd & -> & HR)
  end.
  - exists (fun _ => []). split; [|split; [reflexivity | intros i Hi; lia]].
    repeat split; intros key; apply ten_lists_lookup.
  - intros k x d g' Hx (R & Hd & -> & HR).
    apply range_lookup in Hx as [-> Hk]. rewrite Z.add_0_l.
    assert (Hkn : (k < Z.to_nat (par_N p))%nat) by lia.
    set (base := alt_base p R k).
    match goal with
    | |- context [for_in ?l0 ?b0 d ?g0] =>
        destruct (for_in_inv l0 b0
          (fun m d1 g1 =>
             exists rs, length rs = m
               /\ alt_dicts_are d1 (Z.of_nat k + 1) rs R k
               /\ g1 = skip (base + m * T + switch_count rs) g
               /\ alt_trace_from p careerdict RVdict g k base rs) d g0)
          as (d1 & g1 & E1 & rs & Hlen & Hd1 & Eg1 & Ht1)
    end.
    + exists []. split; [reflexivity|].
      split; [apply alt_dicts_open; [lia | exact Hd]|].
      split; [f_equal; cbn; lia|]. intros n r Hn. discriminate.
    + intros m y d1 g1 Hy (rs & Hlen & Hd1 & Eg1 & Ht1).
      apply range_lookup in Hy as [-> Hm]. rewrite Z.add_0_l.
      destruct (Hfy (Z.of_nat k) (Z.of_nat m)) as (o & rv & Ho & Hrv & Ho3);
        [lia | lia |].
      destruct (alt_iteration_step p careerdict RVdict k (Z.of_nat m) o rv
                  d1 rs R g1 Hs Hkn Ho Hrv Hd1)
        as (r & g2 & d2 & E2 & Hstep & _ & Hd2).
      pose proof (alt_step_draws _ _ _ _ _ _ _ Hstep) as [Eg2 _].
      exists d2, g2. split; [exact E2|].
      exists (rs ++ [r]). split; [rewrite length_app; cbn; lia|].
      split; [exact Hd2|]. split.
      * rewrite Eg2, Eg1, <- skip_add. f_equal.
        unfold switch_count. rewrite sum_list_with_app. cbn. fold T. lia.
      * intros n r' Hn. destruct (decide (n < length rs)%nat) as [Hlt|Hge].
        -- rewrite lookup_app_l in Hn by exact Hlt.
           rewrite take_app_le by lia. now apply Ht1.
        -- rewrite lookup_app_r in Hn by lia.
           destruct (n - length rs)%nat as [|?] eqn:En; [|discriminate].
           injection Hn as <-. assert (n = m) as -> by lia.
           rewrite take_app_length' by (symmetry; exact Hlen).
           exists o, rv, g2. fold T. rewrite <- Eg1. auto.
    + rewrite range_length, Z.sub_0_r in Hlen, Eg1. fold K' in Hlen, Eg1.
      exists d1, g1. split; [exact E1|].
      set (R' := fun i => if decide (i = k) then rs else R i).
      assert (HRR : forall i, (i < k)%nat -> R i = R' i)
        by (intros i Hi; unfold R'; now destruct (decide (i = k)); [lia|]).
      exists R'.
      split; [apply alt_dicts_close; [lia | exact Hd1]|].
      split.
      * rewrite Eg1. f_equal. unfold alt_base. fold K' T.
        rewrite seq_S, sum_list_with_app. cbn.
        unfold R' at 2. destruct (decide (k = k)) as [_|?]; [|congruence].
        rewrite <- (sum_list_with_ext_seq _ _ k
                      (fun i Hi => f_equal switch_count (HRR i Hi))).
        unfold base, alt_base. fold K' T. lia.
      * intros i Hi.
        assert (Eb : alt_base p R' i = alt_base p R i).
        { symmetry. apply alt_base_ext. intros j Hj. apply HRR. lia. }
        rewrite Eb. unfold R'.
        destruct (decide (i = k)) as [->|Hne]; [now split|].
        apply HR. lia.
  - rewrite range_length, Z.sub_0_r in E, Hd, HR. exists d, R. auto.
Qed.

(** The record of type [i + 1], trial [n], read back from what
    [career_alt] returns, with the state its iteration starts in. *)
Lemma career_alt_states p careerdict RVdict (g : G) :
  (0 <= par_sigma p)%Q -> par_N p <= 10 -> first_year p careerdict RVdict ->
  exists switchdict careerdict_alt EVdict_alt RVdict_alt g',
    career_alt p careerdict RVdict g
    = Ok ((switchdict, careerdict_alt, EVdict_alt, RVdict_alt), g')
    /\ forall i n, 0 <= i < par_N p -> 0 <= n < par_K p ->
         exists o rv r gt',
           dict_get careerdict (i + 1) n = Ok o
           /\ dict_get RVdict (i + 1) n = Ok rv
           /\ 1 <= o <= 3
           /\ dict_get switchdict (i + 1) n = Ok (alt_switch r)
           /\ dict_get careerdict_alt (i + 1) n = Ok (alt_career r)
           /\ dict_get EVdict_alt (i + 1) n = Ok (alt_EV r)
           /\ dict_get RVdict_alt (i + 1) n = Ok (alt_RV r)
           /\ alt_step p (Z.to_nat i) o rv
                (alt_state p switchdict g (Z.to_nat i) (Z.to_nat n)) r gt'.
Proof.
  intros Hs HN Hfy.
  destruct (career_alt_trace p careerdict RVdict g Hs HN Hfy)
    as ([[[sw cda] eva] rva] & R & E & (Hsw & Hc & He & Hr) & HR).
  exists sw, cda, eva, rva. eexists. split; [exact E|].
  intros i n Hi Hn.
  destruct (HR (Z.to_nat i)) as (Hlen & Htr); [lia|].
  destruct (lookup_lt_is_Some_2 (R (Z.to_nat i)) (Z.to_nat n)) as [r Er];
    [lia|].
  destruct (Htr _ _ Er) as (o & rv & gt' & Ho & Hrv & Ho3 & Hstep).
  rewrite !Z2Nat.id in Ho, Hrv by lia.
  exists o, rv, r, gt'.
  split; [exact Ho|]. split; [exact Hrv|]. split; [exact Ho3|].
  assert (Est : alt_state p sw g (Z.to_nat i) (Z.to_nat n)
                = skip (alt_base p R (Z.to_nat i)
                        + Z.to_nat n * (3 * draws_v p)
                        + switch_count (take (Z.to_nat n) (R (Z.to_nat i)))) g).
  { unfold alt_state, switches_before, alt_base. f_equal.
    rewrite (switches_recorded_filled sw R (Z.to_nat (par_N p))) by (auto; lia).
    rewrite Hsw. unfold filled.
    destruct (decide (1 <= Z.of_nat (Z.to_nat i) + 1 <= 10)); [|lia].
    destruct (decide (Z.of_nat (Z.to_nat i) + 1
                      <= Z.of_nat (Z.to_nat (par_N p)))); [|lia].
    replace (Z.to_nat (Z.of_nat (Z.to_nat i) + 1 - 1)) with (Z.to_nat i) by lia.
    change (default [] (Some ?l)) with l.
    rewrite <- fmap_take, sum_switch_fmap. unfold switch_count. lia. }
  rewrite Est.
  replace (i + 1) with (Z.of_nat (Z.to_nat i) + 1) by lia.
  replace n with (Z.of_nat (Z.to_nat n)) by lia.
  rewrite !Nat2Z.id.
  repeat split; try assumption;
    (eapply filled_get; [eassumption | lia | lia |]);
    cbv beta; rewrite list_lookup_fmap, Er; reflexivity.
Qed.

End SecondYearStates.

Section SecondYearClaims.
Context {G : Type} `{RandomState G}.

(** What a step decides, for a first career [o] in [1 .. 3]. *)
Lemma alt_step_props p k o rv (g : G) r g' :
  alt_step p k o rv g r g' -> 1 <= o <= 3 ->
  (alt_switch r = 0 \/ alt_switch r = 1)
  /\ (alt_switch r = 1 <->
      exists t, 1 <= t <= 3 /\ t <> o
                /\ (rv < estimate p k g t - par_c p)%Q)
  /\ (alt_switch r = 1 ->
      1 <= alt_career r <= 3 /\ alt_career r <> o
      /\ alt_RV r = (inject_Z (alt_career r) - par_c p + alt_noise p g)%Q)
  /\ (alt_switch r = 0 -> alt_career r = o /\ alt_RV r = rv).
Proof.
  intros Hstep Ho. pose proof (first_career_id o Ho) as Eo.
  destruct Hstep as [a b Ea Hmax | a b Ea Hne Hmax | a b Ea Hne Hne'];
    destruct (alternatives_spec o a b Ea) as (Ha & Hb & Hao & Hbo & Hab);
    rewrite Eo in Hao, Hbo; cbn [alt_switch alt_career alt_RV].
  - split; [now left|]. split; [|split; [discriminate | now rewrite Eo]].
    split; [discriminate|]. intros (t & Ht & Hto & Hlt). exfalso.
    destruct (np_max3_ub rv (estimate p k g a - par_c p)
                (estimate p k g b - par_c p)) as (_ & Ua & Ub).
    rewrite Hmax in Ua, Ub.
    assert (t = a \/ t = b) as [-> | ->] by lia;
      eapply Qlt_not_le; eassumption.
  - split; [now right|]. split; [|split; [auto | discriminate]].
    split; [|reflexivity]. intros _. exists a.
    split; [exact Ha|]. split; [exact Hao|].
    rewrite <- Hmax. now apply np_max3_not_first.
  - split; [now right|]. split; [|split; [auto | discriminate]].
    split; [|reflexivity]. intros _. exists b.
    split; [exact Hb|]. split; [exact Hbo|].
    assert (Hmax : (np_max3 rv (estimate p k g a - par_c p)
                      (estimate p k g b - par_c p)
                    == estimate p k g b - par_c p)%Q)
      by (destruct (np_max3_cases rv (estimate p k g a - par_c p)
                      (estimate p k g b - par_c p)) as [?|[?|?]]; tauto).
    rewrite <- Hmax. now apply np_max3_not_first.
Qed.

(** C4.  For every type and trial, [career_alt] records a switch
    exactly when the estimate, drawn afresh in that iteration, of a
    career other than the first one, less the cost [c], strictly
    exceeds the realized first-year utility.  The estimates are those
    of the state [alt_state] in which that iteration starts: the
    deviates after those of all earlier iterations, each of which
    drew the three estimators' and one more when it switched.  When
    it switches the new realized utility is the new career minus [c]
    plus one noise term drawn after the estimates; when it does not,
    the realized utility is carried over unchanged. *)
Theorem switch_iff_alternative_beats_realized p careerdict RVdict (g : G) i n :
  (0 <= par_sigma p)%Q -> par_N p <= 10 -> first_year p careerdict RVdict ->
  0 <= i < par_N p -> 0 <= n < par_K p ->
  exists switchdict careerdict_alt EVdict_alt RVdict_alt g' o rv s a rv',
    career_alt p careerdict RVdict g
    = Ok ((switchdict, careerdict_alt, EVdict_alt, RVdict_alt), g')
    /\ dict_get careerdict (i + 1) n = Ok o
    /\ dict_get RVdict (i + 1) n = Ok rv
    /\ dict_get switchdict (i + 1) n = Ok s
    /\ dict_get careerdict_alt (i + 1) n = Ok a
    /\ dict_get RVdict_alt (i + 1) n = Ok rv'
    /\ let gt := alt_state p switchdict g (Z.to_nat i) (Z.to_nat n) in
       (s = 1 <->
        exists t, 1 <= t <= 3 /\ t <> o
                  /\ (rv < estimate p (Z.to_nat i) gt t - par_c p)%Q)
       /\ (s = 1 -> rv' = (inject_Z a - par_c p + alt_noise p gt)%Q)
       /\ (s <> 1 -> rv' = rv).
Proof.
  intros Hs HN Hfy Hi Hn.
  destruct (career_alt_states p careerdict RVdict g Hs HN Hfy)
    as (sw & cda & eva & rva & g' & E & Hrec).
  destruct (Hrec i n Hi Hn)
    as (o & rv & r & gt' & Ho & Hrv & Ho3 & Esw & Ec & _ & Er & Hstep).
  destruct (alt_step_props p _ o rv _ r gt' Hstep Ho3)
    as (H01 & Hiff & H1 & H0).
  exists sw, cda, eva, rva, g', o, rv, (alt_switch r), (alt_career r),
    (alt_RV r).
  split; [exact E|]. split; [exact Ho|]. split; [exact Hrv|].
  split; [exact Esw|]. split; [exact Ec|]. split; [exact Er|].
  cbv zeta. split; [exact Hiff|]. split.
  - intros Hsw. now apply H1.
  - intros Hsw. apply H0. lia.
Qed.

(** C10.  For every type and trial, the switch indicator [career_alt]
    records is 0 or 1; it is 0 exactly when the second-year career is
    the first-year career, and when it is 1 the two differ. *)
Theorem switch_indicator_tracks_career_change p careerdict RVdict (g : G) i n :
  (0 <= par_sigma p)%Q -> par_N p <= 10 -> first_year p careerdict RVdict ->
  0 <= i < par_N p -> 0 <= n < par_K p ->
  exists switchdict careerdict_alt EVdict_alt RVdict_alt g' o s a,
    career_alt p careerdict RVdict g
    = Ok ((switchdict, careerdict_alt, EVdict_alt, RVdict_alt), g')
    /\ dict_get careerdict (i + 1) n = Ok o
    /\ dict_get switchdict (i + 1) n = Ok s
    /\ dict_get careerdict_alt (i + 1) n = Ok a
    /\ (s = 0 \/ s = 1)
    /\ (s = 0 <-> a = o)
    /\ (s = 1 -> a <> o).
Proof.
  intros Hs HN Hfy Hi Hn.
  destruct (career_alt_records p careerdict RVdict g Hs HN Hfy)
    as (sw & cda & eva & rva & g' & E & _ & Hrec).
  destruct (Hrec i n Hi Hn)
    as (o & rv & r & gt & gt' & Ho & Hrv & Ho3 & Esw & Ec & _ & Er & Hl & Hstep).
  destruct (alt_step_props p _ o rv gt r gt' Hstep Ho3)
    as (H01 & Hiff & H1 & H0).
  exists sw, cda, eva, rva, g', o, (alt_switch r), (alt_career r).
  split; [exact E|]. split; [exact Ho|]. split; [exact Esw|].
  split; [exact Ec|]. split; [exact H01|].
  split; [|intros Hsw; now apply H1].
  split; [intros Hsw; now apply H0|].
  intros Ha. destruct H01 as [?|Hsw]; [assumption|].
  exfalso. now apply (H1 Hsw).
Qed.

End SecondYearClaims.

(** ** Seeding *)

Section Seeding.
Context {G : Type} `{RandomState G}.

(** A seeded construction forgets the state the generator was in. *)
Lemma init_seeded seed (g : G) :
  0 <= seed < 2 ^ 32 -> init (Some seed) g = Ok (default_par, seed_state seed).
Proof.
  intros Hseed. unfold init, bind, np_random_seed.
  destruct (Z.leb_spec 0 seed) as [_|?]; [|lia].
  destruct (Z.ltb_spec seed (2 ^ 32)) as [_|?]; [|lia].
  reflexivity.
Qed.

(** C7.  Two runs constructed with the same seed and given the same
    parameters succeed with the same collections, whatever state the
    process-wide generator was in before each of them: the same
    first-year and second-year career lists for every type and trial,
    and the same utilities. *)
Theorem seeded_runs_agree fuel seed cfg (g1 g2 : G) :
  0 <= seed < 2 ^ 32 ->
  (0 <= par_sigma (cfg default_par))%Q -> par_N (cfg default_par) <= 10 ->
  (trials (cfg default_par) <= fuel)%nat ->
  exists careerdict EVdict RVdict second g',
    run fuel (Some seed) cfg g1 = Ok (((careerdict, EVdict, RVdict), second), g')
    /\ run fuel (Some seed) cfg g2
       = Ok (((careerdict, EVdict, RVdict), second), g').
Proof.
  intros Hseed Hs HN Hf. set (p := cfg default_par) in *.
  destruct (simulate_records fuel p (seed_state seed) Hs HN Hf)
    as (cd & ed & rd & gs & E & _ & _).
  pose proof (simulate_first_year fuel p _ cd ed rd gs Hs HN Hf E) as Hfy.
  destruct (career_alt_records p cd rd gs Hs HN Hfy)
    as (sw & cda & eva & rva & g' & Ea & _ & _).
  exists cd, ed, rd, (sw, cda, eva, rva), g'.
  unfold run. split.
  - rewrite (bind_Ok _ _ _ _ _ (init_seeded seed g1 Hseed)). cbv zeta.
    fold p. rewrite (bind_Ok _ _ _ _ _ E). cbv beta iota.
    now rewrite (bind_Ok _ _ _ _ _ Ea).
  - rewrite (bind_Ok _ _ _ _ _ (init_seeded seed g2 Hseed)). cbv zeta.
    fold p. rewrite (bind_Ok _ _ _ _ _ E). cbv beta iota.
    now rewrite (bind_Ok _ _ _ _ _ Ea).
Qed.

End Seeding.

(** Without a seed the outcome depends on the state the generator is
    in: a first deviate of 5 makes the one graduate pick career 1,
    a stream of zeros career 3. *)
Example unseeded_runs_may_differ :
  (exists cd ed rd a g',
      run 1 None (set_par 1 0 1) [5%Q] = Ok (((cd, ed, rd), a), g')
      /\ cd !! 1 = Some [1])
  /\ (exists cd ed rd a g',
         run 1 None (set_par 1 0 1) ([] : list Q) = Ok (((cd, ed, rd), a), g')
         /\ cd !! 1 = Some [3]).
Proof.
  split; eexists _, _, _, _, _; split;
    try (vm_compute; reflexivity); vm_compute; reflexivity.
Qed.

(** ** Noise disabled *)

Lemma np_sum_zero (l : list Q) :
  Forall (fun x => x == 0)%Q l -> (np_sum l == 0)%Q.
Proof.
  induction 1 as [|x l Hx Hl IH]; [reflexivity|].
  unfold np_sum. cbn [fold_left]. rewrite np_sum_from, IH, Hx. ring.
Qed.

Lemma count2_loop_zeros (m : nat) c0 c1 :
  count2_loop (replicate m 0) (c0, c1) = (c0 + Z.of_nat m, c1).
Proof.
  revert c0. induction m as [|m IH]; intros c0; cbn [replicate count2_loop].
  - f_equal. lia.
  - change (0 =? 0) with true. cbv iota. rewrite IH. f_equal. lia.
Qed.

(** The switch rate of a non-empty group in which nobody switched. *)
Lemma count2_zeros (m : nat) :
  (1 <= m)%nat -> exists rate, count2 (replicate m 0) = Ok rate /\ (rate == 0)%Q.
Proof.
  intros Hm. unfold count2. rewrite count2_loop_zeros, length_replicate.
  rewrite truediv_share by lia.
  eexists. split; [reflexivity|]. rewrite round64_zero; [reflexivity|].
  unfold Qdiv. apply Qmult_0_l.
Qed.

Section NoNoise.
Context {G : Type} `{RandomState G}.

Lemma zero_noise_EU j p k (g : G) :
  (par_sigma p == 0)%Q -> (EU_at j p k g == inject_Z j)%Q.
Proof.
  intros Hs. rewrite EU_at_mean. unfold mean.
  rewrite np_sum_zero.
  - unfold Qdiv. rewrite Qmult_0_l. ring.
  - unfold sample. apply Forall_fmap, Forall_forall. intros t _. cbn.
    rewrite Hs. ring.
Qed.

Lemma zero_noise_estimate p k (g : G) t :
  (par_sigma p == 0)%Q -> 1 <= t <= 3 -> (estimate p k g t == inject_Z t)%Q.
Proof.
  intros Hs Ht. unfold estimate, EU1, EU2, EU3.
  destruct (Z.eqb_spec t 1) as [->|]; [now apply zero_noise_EU|].
  destruct (Z.eqb_spec t 2) as [->|]; [now apply zero_noise_EU|].
  assert (t = 3) as -> by lia. now apply zero_noise_EU.
Qed.

Lemma zero_noise_career p k (g : G) :
  (par_sigma p == 0)%Q -> career_at p k g = 3.
Proof.
  intros Hs. unfold career_at.
  destruct (pick_argmax (EU1 p k g) (EU2 p k g) (EU3 p k g)) as (_ & Hmax & _).
  pose proof (pick_range (EU1 p k g) (EU2 p k g) (EU3 p k g)) as Hr.
  specialize (Hmax 3 ltac:(lia)). cbn in Hmax.
  change (EU3 p k g <= estimate p k g (pick (EU1 p k g) (EU2 p k g) (EU3 p k g)))%Q
    in Hmax.
  rewrite (zero_noise_estimate p k g _ Hs Hr) in Hmax.
  assert (H3 : (inject_Z 3 <= inject_Z (pick (EU1 p k g) (EU2 p k g) (EU3 p k g)))%Q).
  { rewrite <- (zero_noise_EU 3 p k (skip (2 * draws_v p) g) Hs). exact Hmax. }
  rewrite <- Zle_Qle in H3. lia.
Qed.

Lemma zero_noise_RV p k (g : G) :
  (par_sigma p == 0)%Q -> (RV_at p k g == 3)%Q.
Proof.
  intros Hs. unfold RV_at, noise_at. rewrite (zero_noise_career p k g Hs).
  rewrite Hs. ring.
Qed.

(** With zero noise and unit cost, a step from career 3 and a
    realized utility of 3 keeps career 3. *)
Lemma zero_noise_step p k rv (g : G) r g' :
  (par_sigma p == 0)%Q -> (par_c p == 1)%Q -> (rv == 3)%Q ->
  alt_step p k 3 rv g r g' -> alt_switch r = 0 /\ alt_career r = 3.
Proof.
  intros Hs Hc Hrv Hstep.
  destruct (alt_step_props p k 3 rv g r g' Hstep ltac:(lia))
    as (H01 & Hiff & _ & H0).
  assert (Hsw : alt_switch r = 0).
  { destruct H01 as [?|H1]; [assumption|]. exfalso.
    apply Hiff in H1 as (t & Ht & Ht3 & Hlt).
    rewrite (zero_noise_estimate p k g t Hs Ht), Hc, Hrv in Hlt.
    assert (t = 1 \/ t = 2) as [-> | ->] by lia; vm_compute in Hlt;
      discriminate. }
  split; [exact Hsw | now apply H0].
Qed.

(** [sort_career] when every first career is 3 and nobody switched:
    the lists of the careers 1 and 2 stay empty, the list of career 3
    receives [K] zeros per type. *)
Lemma sort_career_all_stay p switchdict careerdict (g : G) :
  par_N p <= 10 ->
  (forall i n, 0 <= i < par_N p -> 0 <= n < par_K p ->
     dict_get careerdict (i + 1) n = Ok 3
     /\ dict_get switchdict (i + 1) n = Ok 0) ->
  exists v3_original,
    sort_career p switchdict careerdict g
    = Ok ((ten_lists, ten_lists, v3_original), g)
    /\ forall key, v3_original !! key
                   = filled (fun _ => replicate (Z.to_nat (par_K p)) 0)
                       (Z.to_nat (par_N p)) key.
Proof.
  intros HN Hall. unfold sort_career.
  match goal with
  | |- context [for_in ?l0 ?b0 ?s0 g] =>
      destruct (for_in_inv l0 b0
        (fun k d g' =>
           exists v3o, d = (ten_lists, ten_lists, v3o) /\ g' = g
             /\ forall key, v3o !! key
                  = filled (fun _ => replicate (Z.to_nat (par_K p)) 0) k key)
        s0 g)
        as (d & g' & E & v3o & -> & -> & Hv)
  end.
  - exists ten_lists. split; [reflexivity|]. split; [reflexivity|].
    intros key. apply ten_lists_lookup.
  - intros k x d g' Hx (v3o & -> & -> & Hv).
    apply range_lookup in Hx as [-> Hk]. rewrite Z.add_0_l.
    match goal with
    | |- context [for_in ?l0 ?b0 ?s0 g] =>
        destruct (for_in_inv l0 b0
          (fun m d g' =>
             exists v3o', d = (ten_lists, ten_lists, v3o') /\ g' = g
               /\ dict_is v3o' (Z.of_nat k + 1) (replicate m 0)
                    (filled (fun _ => replicate (Z.to_nat (par_K p)) 0) k))
          s0 g)
          as (d1 & g1 & E1 & v3o' & -> & -> & Hv')
    end.
    + exists v3o. split; [reflexivity|]. split; [reflexivity|].
      apply filled_open; [lia | exact Hv].
    + intros m y d g' Hy (v3o' & -> & -> & Hv').
      apply range_lookup in Hy as [-> Hm]. rewrite Z.add_0_l.
      destruct (Hall (Z.of_nat k) (Z.of_nat m)) as (Ec & Esw); [lia | lia |].
      cbv beta iota. rewrite (lift_Ok_bind _ _ _ _ Ec).
      change (3 =? 1) with false. change (3 =? 2) with false. cbv iota.
      rewrite (lift_Ok_bind _ _ _ _ Esw).
      change (0 =? 1) with false. cbv iota.
      destruct (dict_append_is _ _ _ 0 _ Hv') as (v3o'' & Ea & Hv'').
      rewrite (lift_Ok_bind _ _ _ _ Ea).
      eexists _, _. split; [reflexivity|].
      exists v3o''. split; [reflexivity|]. split; [reflexivity|].
      replace (replicate (S m) 0) with (replicate m 0 ++ [0]); [exact Hv''|].
      clear. induction m as [|m IH]; [reflexivity|].
      cbn [replicate app]. now rewrite IH.
    + rewrite range_length, Z.sub_0_r in Hv'.
      eexists _, _. split; [exact E1|].
      exists v3o'. split; [reflexivity|]. split; [reflexivity|].
      apply (filled_close v3o' (fun _ => replicate (Z.to_nat (par_K p)) 0) k);
        [lia | exact Hv'].
  - rewrite range_length, Z.sub_0_r in Hv. exists v3o. split; [exact E | exact Hv].
Qed.

End NoNoise.

Section NoNoiseClaim.
Context {G : Type} `{RandomState G}.

(** C9, as amended.  With the noise disabled ([sigma = 0]) and the
    switching cost [c = 1], every trial of every type chooses career 3
    in the first year, and in the second year every switch indicator
    is 0 and the career stays 3: the indicator list of a type is [K]
    zeros.  Split by first career, the indicator lists of the careers
    1 and 2 are empty and that of career 3 is the same [K] zeros: no
    list counts a switch, and the switch rate [count2] computes, over
    a type and for career 3, is 0 (for [K >= 1]). *)
Theorem no_noise_chooses_track_3_and_never_switches fuel p (g : G) i :
  (par_sigma p == 0)%Q -> (par_c p == 1)%Q ->
  par_N p <= 10 -> (trials p <= fuel)%nat -> 0 <= i < par_N p ->
  exists careerdict EVdict RVdict g1
         switchdict careerdict_alt EVdict_alt RVdict_alt g2
         v1_original v2_original v3_original g3,
    simulate fuel p g = Ok ((careerdict, EVdict, RVdict), g1)
    /\ career_alt p careerdict RVdict g1
       = Ok ((switchdict, careerdict_alt, EVdict_alt, RVdict_alt), g2)
    /\ sort_career p switchdict careerdict g2
       = Ok ((v1_original, v2_original, v3_original), g3)
    /\ (forall n, 0 <= n <= par_K p -> dict_get careerdict (i + 1) n = Ok 3)
    /\ (forall n, 0 <= n < par_K p ->
          dict_get switchdict (i + 1) n = Ok 0
          /\ dict_get careerdict_alt (i + 1) n = Ok 3)
    /\ switchdict !! (i + 1) = Some (replicate (Z.to_nat (par_K p)) 0)
    /\ v1_original !! (i + 1) = Some []
    /\ v2_original !! (i + 1) = Some []
    /\ v3_original !! (i + 1) = Some (replicate (Z.to_nat (par_K p)) 0)
    /\ (1 <= par_K p ->
        exists rate,
          count2 (replicate (Z.to_nat (par_K p)) 0) = Ok rate
          /\ (rate == 0)%Q).
Proof.
  intros Hs0 Hc HN Hf Hi.
  assert (Hs : (0 <= par_sigma p)%Q) by (rewrite Hs0; apply Qle_refl).
  destruct (simulate_records fuel p g Hs HN Hf)
    as (cd & ed & rd & g1 & E & _ & Hrec).
  pose proof (simulate_first_year fuel p g cd ed rd g1 Hs HN Hf E) as Hfy.
  destruct (career_alt_records p cd rd g1 Hs HN Hfy)
    as (sw & cda & eva & rva & g2 & Ea & _ & Hrec2).
  assert (Hcd : forall i n, 0 <= i < par_N p -> 0 <= n <= par_K p ->
                  dict_get cd (i + 1) n = Ok 3).
  { intros i' n Hi' Hn. destruct (Hrec i' n Hi' Hn) as (Ec & _).
    now rewrite zero_noise_career in Ec. }
  assert (Hsw : forall i n, 0 <= i < par_N p -> 0 <= n < par_K p ->
                  dict_get sw (i + 1) n = Ok 0
                  /\ dict_get cda (i + 1) n = Ok 3).
  { intros i' n Hi' Hn.
    destruct (Hrec2 i' n Hi' Hn)
      as (o & rv & r & gt & gt' & Ho & Hrv & _ & Esw & Ec & _ & _ & _ & Hstep).
    destruct (Hrec i' n Hi' ltac:(lia)) as (_ & _ & Er).
    rewrite Hcd in Ho by lia. injection Ho as <-.
    rewrite Er in Hrv. injection Hrv as <-.
    destruct (zero_noise_step p _ _ gt r gt' Hs0 Hc
                (zero_noise_RV p _ _ Hs0) Hstep) as [E0 E3].
    now rewrite E0 in Esw; rewrite E3 in Ec. }
  destruct (sort_career_all_stay p sw cd g2 HN) as (v3o & Es & Hv3).
  { intros i' n Hi' Hn. split; [apply Hcd; lia | now apply Hsw]. }
  exists cd, ed, rd, g1, sw, cda, eva, rva, g2, ten_lists, ten_lists, v3o, g2.
  split; [exact E|]. split; [exact Ea|]. split; [exact Es|].
  split; [intros n Hn; now apply Hcd|].
  split; [intros n Hn; now apply Hsw|].
  split.
  { destruct (career_alt_switch_list p cd rd g1 sw cda eva rva g2 i
                Hs HN Hfy Ea Hi) as (l & El & Hlen).
    rewrite El. f_equal. apply all_zero_replicate; [exact Hlen|].
    intros k Hk. destruct (Hsw i (Z.of_nat k) Hi ltac:(lia)) as (E0 & _).
    unfold dict_get in E0. rewrite El in E0.
    apply index_Ok_inv in E0; [|lia]. now rewrite Nat2Z.id in E0. }
  assert (Hten : forall A, (ten_lists : gmap Z (list A)) !! (i + 1) = Some []).
  { intros A. rewrite (ten_lists_lookup (fun _ => [])). unfold filled.
    destruct (decide (1 <= i + 1 <= 10)); [|lia].
    now destruct (decide (i + 1 <= Z.of_nat 0)). }
  split; [apply Hten|]. split; [apply Hten|]. split.
  - rewrite Hv3. unfold filled.
    destruct (decide (1 <= i + 1 <= 10)); [|lia].
    now destruct (decide (i + 1 <= Z.of_nat (Z.to_nat (par_N p)))); [|lia].
  - intros HK. apply count2_zeros. lia.
Qed.

End NoNoiseClaim.

(** The group of a career nobody chose is empty, and [count2] has no
    rate for it. *)
Example count2_empty_group : count2 [] = Raise ZeroDivisionError.
Proof. reflexivity. Qed.

(** ** Worked instances

    The theorems above, applied to the replay generator and to small
    parameters. *)

Lemma simulate_files_one_record_too_many_witness :
  exists careerdict EVdict RVdict g' lc le lr,
    simulate 3 (par_with 2 2 1) [1; -2; 3]%Q
    = Ok ((careerdict, EVdict, RVdict), g')
    /\ careerdict !! 1 = Some lc
    /\ EVdict !! 1 = Some le
    /\ RVdict !! 1 = Some lr
    /\ Z.of_nat (length lc) = par_K (par_with 2 2 1) + 1
    /\ Z.of_nat (length le) = par_K (par_with 2 2 1) + 1
    /\ Z.of_nat (length lr) = par_K (par_with 2 2 1) + 1.
Proof.
  apply (simulate_files_one_record_too_many 3 (par_with 2 2 1) [1; -2; 3]%Q 1).
  - vm_compute. discriminate.
  - simpl. lia.
  - vm_compute. lia.
  - simpl. lia.
  - simpl. lia.
Defined.

(** The same at the parameters of [__init__]: 10001 records for each
    of the ten types, not 10000. *)
Lemma default_simulate_files_10001_records (key : Z) :
  1 <= key <= 10 ->
  exists careerdict EVdict RVdict g' lc,
    simulate (Z.to_nat 10001) default_par ([] : list Q)
    = Ok ((careerdict, EVdict, RVdict), g')
    /\ careerdict !! key = Some lc
    /\ Z.of_nat (length lc) = 10001.
Proof.
  intros Hkey.
  destruct (simulate_files_one_record_too_many (Z.to_nat 10001) default_par
              ([] : list Q) key)
    as (cd & ed & rd & g' & lc & le & lr & E & Hc & _ & _ & Hl & _).
  - vm_compute. discriminate.
  - simpl. lia.
  - apply Nat.eq_le_incl. reflexivity.
  - simpl. lia.
  - simpl. lia.
  - exists cd, ed, rd, g', lc. auto.
Qed.

Lemma realized_utility_is_track_plus_noise_witness :
  exists careerdict EVdict RVdict g' t rv,
    simulate 3 (par_with 2 2 1) [1; -2; 3]%Q
    = Ok ((careerdict, EVdict, RVdict), g')
    /\ dict_get careerdict (1 + 1) 2 = Ok t
    /\ dict_get RVdict (1 + 1) 2 = Ok rv
    /\ 1 <= t <= 3
    /\ rv = (inject_Z t
             + (0 + par_sigma (par_with 2 2 1)
                    * tape [1; -2; 3]%Q
                        (noise_index (par_with 2 2 1) (Z.to_nat 1) (Z.to_nat 2))))%Q
    /\ (forall i' n', 0 <= i' < par_N (par_with 2 2 1) ->
          0 <= n' <= par_K (par_with 2 2 1) ->
          noise_index (par_with 2 2 1) (Z.to_nat i') (Z.to_nat n')
          = noise_index (par_with 2 2 1) (Z.to_nat 1) (Z.to_nat 2) ->
          i' = 1 /\ n' = 2).
Proof.
  apply (realized_utility_is_track_plus_noise 3 (par_with 2 2 1) [1; -2; 3]%Q 1 2).
  - vm_compute. discriminate.
  - simpl. lia.
  - vm_compute. lia.
  - simpl. lia.
  - simpl. lia.
Defined.

Lemma first_choice_is_lowest_argmax_witness :
  exists careerdict EVdict RVdict g' t ev,
    simulate 3 (par_with 2 2 1) [1; -2; 3]%Q
    = Ok ((careerdict, EVdict, RVdict), g')
    /\ dict_get careerdict (0 + 1) 0 = Ok t
    /\ dict_get EVdict (0 + 1) 0 = Ok ev
    /\ 1 <= t <= 3
    /\ let est := estimate (par_with 2 2 1) (Z.to_nat 0)
                    (trial_state (par_with 2 2 1) [1; -2; 3]%Q
                       (Z.to_nat 0) (Z.to_nat 0)) in
       ev = est t
       /\ (forall t', 1 <= t' <= 3 -> (est t' <= est t)%Q)
       /\ (forall t', 1 <= t' < t -> (est t' < est t)%Q).
Proof.
  apply (first_choice_is_lowest_argmax 3 (par_with 2 2 1) [1; -2; 3]%Q 0 0).
  - vm_compute. discriminate.
  - simpl. lia.
  - vm_compute. lia.
  - simpl. lia.
  - simpl. lia.
Defined.

(** A tie: with a first deviate of 1 and a second of 0 the estimates
    of the careers 1 and 2 are both 2; career 3 comes out at 2 as well
    with a third deviate of -1, and career 1 is recorded. *)
Example tie_goes_to_lowest_index :
  exists EV RV g',
    career (par_with 1 0 1) [1; 0; -1]%Q = Ok (([1], EV, RV), g').
Proof. eexists _, _, _. vm_compute. reflexivity. Qed.

(** C6, as stated, fails: [K = 0] and [sigma = 0] are malformed, yet
    construction and simulation run to completion and file a
    record. *)
Lemma malformed_parameters_are_accepted_counterexample :
  malformed (par_with 1 0 0)
  /\ exists careerdict EVdict RVdict g',
       init None ([] : list Q) = Ok (default_par, [])
       /\ simulate 1 (par_with 1 0 0) ([] : list Q)
          = Ok ((careerdict, EVdict, RVdict), g')
       /\ careerdict !! 1 = Some [3].
Proof.
  split.
  - right. left. simpl. lia.
  - eexists _, _, _, _. split; [reflexivity|].
    split; vm_compute; reflexivity.
Qed.

Lemma parameters_are_not_validated_witness :
  (exists p0, init None ([] : list Q) = Ok (p0, []))
  /\ (forall seed, 0 <= seed < 2 ^ 32 ->
        exists p0 g', init (Some seed) ([] : list Q) = Ok (p0, g'))
  /\ ((0 <= par_sigma (par_with 1 0 0))%Q ->
      exists careerdict EVdict RVdict g',
        simulate 1 (par_with 1 0 0) ([] : list Q)
        = Ok ((careerdict, EVdict, RVdict), g'))
  /\ ((par_sigma (par_with 1 0 0) < 0)%Q -> 1 <= par_N (par_with 1 0 0) ->
      0 <= par_K (par_with 1 0 0) ->
      simulate 1 (par_with 1 0 0) ([] : list Q) = Raise ValueError).
Proof.
  apply (parameters_are_not_validated 1 (par_with 1 0 0) ([] : list Q)).
  - simpl. lia.
  - vm_compute. lia.
Defined.

(** A negative scale is the one malformed parameter that stops the
    simulation, at its first draw. *)
Example negative_sigma_raises :
  simulate 1 (par_with 1 0 (-1)) ([] : list Q) = Raise ValueError.
Proof. vm_compute. reflexivity. Qed.

Lemma seeded_runs_agree_witness :
  exists careerdict EVdict RVdict second g',
    run 3 (Some 7) (set_par 2 2 1) [5; 5; 5]%Q
    = Ok (((careerdict, EVdict, RVdict), second), g')
    /\ run 3 (Some 7) (set_par 2 2 1) ([] : list Q)
       = Ok (((careerdict, EVdict, RVdict), second), g').
Proof.
  apply (seeded_runs_agree 3 7 (set_par 2 2 1) [5; 5; 5]%Q []).
  - lia.
  - vm_compute. discriminate.
  - simpl. lia.
  - vm_compute. lia.
Defined.

(** First-year collections for one type and two trials: career 3 with
    a realized utility of 5/2, twice. *)
Lemma first_year_two_trials :
  first_year (par_with 1 2 1) (<[1 := [3; 3]]> ten_lists)
    (<[1 := [(5 # 2)%Q; (5 # 2)%Q]]> ten_lists).
Proof.
  intros i n Hi Hn. simpl in Hi, Hn.
  assert (i = 0) as -> by lia.
  assert (n = 0 \/ n = 1) as [-> | ->] by lia;
    (exists 3, (5 # 2)%Q; split; [reflexivity|]; split; [reflexivity | lia]).
Qed.

(** On these collections and the deviates 0, 3, 0, 1 the first trial
    reads the deviates 0, 3, 0 and switches (the estimate of career 2
    is 5) and draws the noise 1; the second trial starts after these
    four deviates, reads none that is not zero, and stays. *)
Example second_trial_reads_later_deviates :
  exists careerdict_alt EVdict_alt RVdict_alt g',
    career_alt (par_with 1 2 1) (<[1 := [3; 3]]> ten_lists)
      (<[1 := [(5 # 2)%Q; (5 # 2)%Q]]> ten_lists) [0; 3; 0; 1]%Q
    = Ok ((<[1 := [1; 0]]> ten_lists, careerdict_alt, EVdict_alt,
           RVdict_alt), g')
    /\ alt_state (par_with 1 2 1) (<[1 := [1; 0]]> ten_lists)
         [0; 3; 0; 1]%Q 0 1 = [].
Proof. eexists _, _, _, _. vm_compute. split; reflexivity. Qed.

(** First-year collections for one type and one trial: career 3 with
    a realized utility of 5/2. *)
Lemma first_year_example :
  first_year (par_with 1 1 1) (<[1 := [3]]> ten_lists)
    (<[1 := [(5 # 2)%Q]]> ten_lists).
Proof.
  intros i n Hi Hn. simpl in Hi, Hn.
  assert (i = 0) as -> by lia. assert (n = 0) as -> by lia.
  exists 3, (5 # 2)%Q. split; [reflexivity|]. split; [reflexivity | lia].
Qed.

Lemma switch_iff_alternative_beats_realized_witness :
  exists switchdict careerdict_alt EVdict_alt RVdict_alt g' o rv s a rv',
    career_alt (par_with 1 2 1) (<[1 := [3; 3]]> ten_lists)
      (<[1 := [(5 # 2)%Q; (5 # 2)%Q]]> ten_lists) [0; 3; 0; 1]%Q
    = Ok ((switchdict, careerdict_alt, EVdict_alt, RVdict_alt), g')
    /\ dict_get (<[1 := [3; 3]]> ten_lists) (0 + 1) 1 = Ok o
    /\ dict_get (<[1 := [(5 # 2)%Q; (5 # 2)%Q]]> ten_lists) (0 + 1) 1 = Ok rv
    /\ dict_get switchdict (0 + 1) 1 = Ok s
    /\ dict_get careerdict_alt (0 + 1) 1 = Ok a
    /\ dict_get RVdict_alt (0 + 1) 1 = Ok rv'
    /\ let gt := alt_state (par_with 1 2 1) switchdict [0; 3; 0; 1]%Q
                   (Z.to_nat 0) (Z.to_nat 1) in
       (s = 1 <->
        exists t, 1 <= t <= 3 /\ t <> o
                  /\ (rv < estimate (par_with 1 2 1) (Z.to_nat 0) gt t
                           - par_c (par_with 1 2 1))%Q)
       /\ (s = 1 -> rv' = (inject_Z a - par_c (par_with 1 2 1)
                           + alt_noise (par_with 1 2 1) gt)%Q)
       /\ (s <> 1 -> rv' = rv).
Proof.
  apply (switch_iff_alternative_beats_realized (par_with 1 2 1)
           (<[1 := [3; 3]]> ten_lists)
           (<[1 := [(5 # 2)%Q; (5 # 2)%Q]]> ten_lists)
           [0; 3; 0; 1]%Q 0 1).
  - vm_compute. discriminate.
  - simpl. lia.
  - exact first_year_two_trials.
  - simpl. lia.
  - simpl. lia.
Defined.

(** One type and one trial, evaluated: the estimate of career 2 is
    5, so net of the cost it beats 5/2; the graduate moves to career 2
    and realizes [2 - 1 + 1]. *)
Example switch_example :
  exists EVdict_alt g',
    career_alt (par_with 1 1 1) (<[1 := [3]]> ten_lists)
      (<[1 := [(5 # 2)%Q]]> ten_lists) [0; 3; 0; 1]%Q
    = Ok ((<[1 := [1]]> ten_lists, <[1 := [2]]> ten_lists, EVdict_alt,
           <[1 := [2%Q]]> ten_lists), g').
Proof. eexists _, _. vm_compute. reflexivity. Qed.

Lemma switch_indicator_tracks_career_change_witness :
  exists switchdict careerdict_alt EVdict_alt RVdict_alt g' o s a,
    career_alt (par_with 1 1 1) (<[1 := [3]]> ten_lists)
      (<[1 := [(5 # 2)%Q]]> ten_lists) [0; 3; 0; 1]%Q
    = Ok ((switchdict, careerdict_alt, EVdict_alt, RVdict_alt), g')
    /\ dict_get (<[1 := [3]]> ten_lists) (0 + 1) 0 = Ok o
    /\ dict_get switchdict (0 + 1) 0 = Ok s
    /\ dict_get careerdict_alt (0 + 1) 0 = Ok a
    /\ (s = 0 \/ s = 1)
    /\ (s = 0 <-> a = o)
    /\ (s = 1 -> a <> o).
Proof.
  apply (switch_indicator_tracks_career_change (par_with 1 1 1)
           (<[1 := [3]]> ten_lists) (<[1 := [(5 # 2)%Q]]> ten_lists)
           [0; 3; 0; 1]%Q 0 0).
  - vm_compute. discriminate.
  - simpl. lia.
  - exact first_year_example.
  - simpl. lia.
  - simpl. lia.
Defined.

Lemma no_noise_chooses_track_3_and_never_switches_witness :
  exists careerdict EVdict RVdict g1
         switchdict careerdict_alt EVdict_alt RVdict_alt g2
         v1_original v2_original v3_original g3,
    simulate 3 (par_with 1 2 0) [4; -7; 2]%Q
    = Ok ((careerdict, EVdict, RVdict), g1)
    /\ career_alt (par_with 1 2 0) careerdict RVdict g1
       = Ok ((switchdict, careerdict_alt, EVdict_alt, RVdict_alt), g2)
    /\ sort_career (par_with 1 2 0) switchdict careerdict g2
       = Ok ((v1_original, v2_original, v3_original), g3)
    /\ (forall n, 0 <= n <= par_K (par_with 1 2 0) ->
          dict_get careerdict (0 + 1) n = Ok 3)
    /\ (forall n, 0 <= n < par_K (par_with 1 2 0) ->
          dict_get switchdict (0 + 1) n = Ok 0
          /\ dict_get careerdict_alt (0 + 1) n = Ok 3)
    /\ switchdict !! (0 + 1)
       = Some (replicate (Z.to_nat (par_K (par_with 1 2 0))) 0)
    /\ v1_original !! (0 + 1) = Some []
    /\ v2_original !! (0 + 1) = Some []
    /\ v3_original !! (0 + 1)
       = Some (replicate (Z.to_nat (par_K (par_with 1 2 0))) 0)
    /\ (1 <= par_K (par_with 1 2 0) ->
        exists rate,
          count2 (replicate (Z.to_nat (par_K (par_with 1 2 0))) 0) = Ok rate
          /\ (rate == 0)%Q).
Proof.
  apply (no_noise_chooses_track_3_and_never_switches 3 (par_with 1 2 0)
           [4; -7; 2]%Q 0).
  - vm_compute. reflexivity.
  - vm_compute. reflexivity.
  - simpl. lia.
  - vm_compute. lia.
  - simpl. lia.
Defined.

(** C9, as stated, fails in its last part: in the scenario of the
    specification ([N = 1], [K = 5], [sigma = 0]) nobody chooses
    career 1, the list [sort_career] builds for it is empty, and
    [count2] raises on it: career 1 has no switch rate, let alone a
    switch rate of 0. *)
Lemma switch_rate_of_unchosen_track_counterexample :
  exists careerdict EVdict RVdict g1
         switchdict careerdict_alt EVdict_alt RVdict_alt g2
         v1_original v2_original v3_original g3,
    simulate 6 (par_with 1 5 0) [4; -7; 2]%Q
    = Ok ((careerdict, EVdict, RVdict), g1)
    /\ career_alt (par_with 1 5 0) careerdict RVdict g1
       = Ok ((switchdict, careerdict_alt, EVdict_alt, RVdict_alt), g2)
    /\ sort_career (par_with 1 5 0) switchdict careerdict g2
       = Ok ((v1_original, v2_original, v3_original), g3)
    /\ v1_original !! 1 = Some []
    /\ count2 [] = Raise ZeroDivisionError
    /\ ~ (exists l rate,
            v1_original !! 1 = Some l /\ count2 l = Ok rate /\ (rate == 0)%Q).
Proof.
  eexists _, _, _, _, _, _, _, _, _, _, _, _, _.
  split; [vm_compute; reflexivity|].
  split; [vm_compute; reflexivity|].
  split; [vm_compute; reflexivity|].
  split; [vm_compute; reflexivity|].
  split; [reflexivity|].
  intros (l & rate & El & Ec & _). vm_compute in El.
  injection El as <-. discriminate Ec.
Qed.

(** * Further properties of the code *)

(** ** The aggregators [count] and [count2] *)

(** X1.  Over a non-empty list, [count] returns the number of entries
    equal to 1, the number equal to 2 and the number of all other
    entries (3 or anything else), each divided by the length of the
    list, the quotient rounded to the nearest float. *)
Theorem count_shares_are_frequencies (l : list Z) :
  l <> [] ->
  count l
  = Ok [ round64 (inject_Z (Z.of_nat (count_occ Z.eq_dec l 1%Z))
                  / inject_Z (Z.of_nat (length l)));
         round64 (inject_Z (Z.of_nat (count_occ Z.eq_dec l 2%Z))
                  / inject_Z (Z.of_nat (length l)));
         round64 (inject_Z (Z.of_nat (length l - count_occ Z.eq_dec l 1%Z
                                      - count_occ Z.eq_dec l 2%Z))
                  / inject_Z (Z.of_nat (length l))) ].
Proof.
  intros Hl. unfold count. rewrite count_loop_occ. rewrite !Z.add_0_l.
  assert (Hn : 0 < Z.of_nat (length l)) by (destruct l; [congruence | cbn; lia]).
  pose proof (count_occ_bound Z.eq_dec 1 l) as B1.
  pose proof (count_occ_bound Z.eq_dec 2 l) as B2.
  rewrite !truediv_share by lia. reflexivity.
Qed.

Lemma count_shares_are_frequencies_witness :
  count [3; 1; 7; 2; 1]%Z
  = Ok [ round64 (inject_Z (Z.of_nat (count_occ Z.eq_dec [3; 1; 7; 2; 1]%Z 1%Z))
                  / inject_Z (Z.of_nat (length [3; 1; 7; 2; 1]%Z)));
         round64 (inject_Z (Z.of_nat (count_occ Z.eq_dec [3; 1; 7; 2; 1]%Z 2%Z))
                  / inject_Z (Z.of_nat (length [3; 1; 7; 2; 1]%Z)));
         round64 (inject_Z (Z.of_nat (length [3; 1; 7; 2; 1]%Z
                                      - count_occ Z.eq_dec [3; 1; 7; 2; 1]%Z 1%Z
                                      - count_occ Z.eq_dec [3; 1; 7; 2; 1]%Z 2%Z))
                  / inject_Z (Z.of_nat (length [3; 1; 7; 2; 1]%Z))) ].
Proof. apply (count_shares_are_frequencies [3; 1; 7; 2; 1]%Z). discriminate. Defined.

(** X2.  [count] raises [ZeroDivisionError] on the empty list and on
    no other list; on every other list its three shares lie between 0
    and 1. *)
Theorem count_fails_only_on_empty (l : list Z) :
  (count l = Raise ZeroDivisionError <-> l = [])
  /\ (forall e, count l = Raise e -> e = ZeroDivisionError)
  /\ (forall s, count l = Ok s ->
        length s = 3%nat /\ Forall (fun x => 0 <= x <= 1)%Q s).
Proof.
  destruct l as [|x l].
  - split; [split; [reflexivity | reflexivity]|].
    split; [intros e [= <-]; reflexivity | intros s; discriminate].
  - remember (x :: l) as m eqn:Em.
    assert (Hne : m <> []) by (subst m; discriminate).
    assert (Hm : 0 < Z.of_nat (length m)) by (subst m; cbn; lia).
    rewrite (count_shares_are_frequencies m Hne).
    split; [split; [discriminate | intros E; contradiction]|].
    split; [discriminate|].
    intros s [= <-]. split; [reflexivity|].
    pose proof (count_occ_bound Z.eq_dec 1 m) as B1.
    pose proof (count_occ_bound Z.eq_dec 2 m) as B2.
    constructor; [apply round64_unit, share_bounds; lia|].
    constructor; [apply round64_unit, share_bounds; lia|].
    constructor; [apply round64_unit, share_bounds; lia|]. constructor.
Qed.

(** X3.  Over a non-empty list, [count2] returns the share of entries
    other than 0 (every non-zero entry counts as a switch), the
    quotient rounded to the nearest float; the share lies between 0
    and 1; it is 0 when every entry is 0, and only then: a positive
    share does not round to 0 as long as the list has at most
    [2^1074] entries (a Python list has fewer than [2^63]). *)
Theorem count2_is_share_of_nonzero (l : list Z) :
  l <> [] ->
  exists rate,
    count2 l = Ok rate
    /\ rate = round64 (inject_Z (Z.of_nat (length l - count_occ Z.eq_dec l 0%Z))
                       / inject_Z (Z.of_nat (length l)))
    /\ (0 <= rate <= 1)%Q
    /\ (Forall (fun x => x = 0) l -> (rate == 0)%Q)
    /\ (Z.of_nat (length l) <= 2 ^ 1074 ->
        (rate == 0)%Q -> Forall (fun x => x = 0) l).
Proof.
  intros Hl. unfold count2. rewrite count2_loop_occ, Z.add_0_l.
  assert (Hn : 0 < Z.of_nat (length l)) by (destruct l; [congruence | cbn; lia]).
  pose proof (count_occ_bound Z.eq_dec 0 l) as B0.
  rewrite truediv_share by lia.
  eexists. split; [reflexivity|]. split; [reflexivity|].
  split; [apply round64_unit, share_bounds; lia|].
  assert (Hall : Forall (fun x => x = 0) l <-> count_occ Z.eq_dec l 0%Z = length l).
  { clear. induction l as [|y l IH]; [split; [reflexivity | constructor]|].
    pose proof (count_occ_bound Z.eq_dec 0 l) as B0. cbn [count_occ length].
    split.
    - intros Hf. inversion Hf as [|? ? -> Hf']; subst.
      destruct (Z.eq_dec 0 0); [|congruence]. f_equal. now apply IH.
    - destruct (Z.eq_dec y 0) as [->|Hy]; intros E; [|lia].
      constructor; [reflexivity|]. apply IH. lia. }
  rewrite Hall. split.
  - intros ->. rewrite Nat.sub_diag, round64_zero; [reflexivity|].
    unfold Qdiv. apply Qmult_0_l.
  - intros Hlen E.
    destruct (Nat.eq_dec (count_occ Z.eq_dec l 0%Z) (length l)) as [?|Hne];
      [assumption|].
    exfalso. set (c := Z.of_nat (length l - count_occ Z.eq_dec l 0%Z)) in *.
    set (n := Z.of_nat (length l)) in *.
    assert (Hc : 1 <= c <= n) by (unfold c, n; lia).
    assert (Hn' : (0 < inject_Z n)%Q)
      by (change 0%Q with (inject_Z 0); now rewrite <- Zlt_Qlt).
    assert (Hpos : (0 < round64 (inject_Z c / inject_Z n))%Q).
    { apply round64_positive; [|apply share_bounds; lia].
      apply Qle_shift_div_l; [exact Hn'|].
      apply Qle_trans with (2 ^ (-1074) * inject_Z (2 ^ 1074))%Q.
      - apply Qmult_le_l; [apply two_pow_pos | now rewrite <- Zle_Qle].
      - apply Qle_trans with 1%Q.
        + rewrite (Zpower_Qpower 2) by lia.
          change (-1074) with (- (1074)). rewrite Qpower_opp.
          apply Qle_lteq. right. field.
        + change 1%Q with (inject_Z 1). rewrite <- Zle_Qle. lia. }
    rewrite E in Hpos. discriminate.
Qed.

Lemma count2_is_share_of_nonzero_witness :
  exists rate,
    count2 [0; 1; 0; 5]%Z = Ok rate
    /\ rate = round64 (inject_Z (Z.of_nat (length [0; 1; 0; 5]%Z
                                           - count_occ Z.eq_dec [0; 1; 0; 5]%Z 0%Z))
                       / inject_Z (Z.of_nat (length [0; 1; 0; 5]%Z)))
    /\ (0 <= rate <= 1)%Q
    /\ (Forall (fun x => x = 0) [0; 1; 0; 5]%Z -> (rate == 0)%Q)
    /\ (Z.of_nat (length [0; 1; 0; 5]%Z) <= 2 ^ 1074 ->
        (rate == 0)%Q -> Forall (fun x => x = 0) [0; 1; 0; 5]%Z).
Proof. apply (count2_is_share_of_nonzero [0; 1; 0; 5]%Z). discriminate. Defined.

(** X4.  [count2] raises [ZeroDivisionError] on the empty list, and
    that is its only failure. *)
Theorem count2_fails_only_on_empty (l : list Z) :
  (count2 l = Raise ZeroDivisionError <-> l = [])
  /\ (forall e, count2 l = Raise e -> e = ZeroDivisionError).
Proof.
  destruct l as [|x l].
  - split; [split; reflexivity | intros e [= <-]; reflexivity].
  - destruct (count2_is_share_of_nonzero (x :: l)) as (rate & E & _);
      [discriminate|].
    rewrite E. split; [split; discriminate | discriminate].
Qed.

(** ** Loops that stop or idle *)

Section LoopFacts.
Context {G : Type}.

Lemma for_in_app {A St} (l1 l2 : list A) (body : A -> St -> M G St) s (g : G) :
  for_in (l1 ++ l2) body s g
  = (s' <- for_in l1 body s ;; for_in l2 body s') g.
Proof.
  revert s g. induction l1 as [|x l1 IH]; intros s g; [reflexivity|].
  cbn [app for_in]. unfold bind.
  destruct (body x s g) as [[s1 g1]|e]; [|reflexivity].
  rewrite IH. reflexivity.
Qed.

(** A loop whose body changes nothing changes nothing. *)
Lemma for_in_idle {A St} (l : list A) (body : A -> St -> M G St) s (g : G) :
  (forall x, x ∈ l -> body x s g = Ok (s, g)) ->
  for_in l body s g = Ok (s, g).
Proof.
  induction l as [|x l IH]; intros Hb; [reflexivity|].
  cbn [for_in]. rewrite (bind_Ok _ _ _ _ _ (Hb x ltac:(left))).
  apply IH. intros y Hy. apply Hb. now right.
Qed.

End LoopFacts.

Lemma tri_closed n : (2 * tri n = n * (n + 1))%nat.
Proof. induction n as [|n IH]; [reflexivity|]. cbn [tri]. lia. Qed.

Lemma tri_half n : tri n = (n * (n + 1) / 2)%nat.
Proof.
  rewrite <- tri_closed, Nat.mul_comm. symmetry. now apply Nat.div_mul.
Qed.

(** ** [epsdraw] and [utility] *)

Section UtilityFacts.
Context {G : Type} `{RandomState G}.

(** X5.  Draws continue where the previous call stopped: [epsdraw(a)]
    followed by [epsdraw(b)] returns, in two pieces of [a] and [b]
    values, exactly what one call [epsdraw(a + b)] returns, and leaves
    the generator in the same state. *)
Theorem epsdraw_splits p (g : G) a b :
  (0 <= par_sigma p)%Q -> 0 <= a -> 0 <= b ->
  exists x y g1 g2,
    epsdraw p a g = Ok (x, g1)
    /\ epsdraw p b g1 = Ok (y, g2)
    /\ epsdraw p (a + b) g = Ok (x ++ y, g2)
    /\ Z.of_nat (length x) = a /\ Z.of_nat (length y) = b.
Proof.
  intros Hs Ha Hb. unfold epsdraw.
  rewrite !np_random_normal_Ok by (assumption || lia).
  eexists _, _, _, _. split; [reflexivity|].
  rewrite np_random_normal_Ok by assumption.
  split; [reflexivity|]. split.
  - rewrite Z2Nat.inj_add, seq_app, fmap_app, skip_add by assumption.
    replace (seq (0 + Z.to_nat a) (Z.to_nat b))
      with (Nat.add (Z.to_nat a) <$> seq 0 (Z.to_nat b))
      by (rewrite fmap_add_seq; f_equal; lia).
    rewrite <- list_fmap_compose. do 3 f_equal.
    apply list_fmap_ext. intros _ t _. cbn. now rewrite tape_skip.
  - rewrite !length_fmap, !length_seq. lia.
Qed.

Lemma np_mean_sample p j (g : G) :
  1 <= par_K p -> np_mean (utility_sample p j g) = Num (mean (utility_sample p j g)).
Proof.
  intros HK. unfold utility_sample, mean.
  destruct (Z.to_nat (par_K p)) as [|k] eqn:Ek; [lia|]. reflexivity.
Qed.

(** What [utility] returns for a positive draw count. *)
Lemma utility_spec p (g : G) :
  (0 <= par_sigma p)%Q -> 1 <= par_K p ->
  exists us,
    utility p g = Ok (us, skip (length (par_v p) * Z.to_nat (par_K p)) g)
    /\ length us = length (par_v p)
    /\ forall j v, par_v p !! j = Some v ->
         us !! j = Some (Num (v + mean (utility_sample p j g))%Q).
Proof.
  intros Hs HK. unfold utility.
  match goal with
  | |- context [for_in ?l0 ?b0 ?s0 g] =>
      destruct (for_in_inv l0 b0
        (fun k us g' =>
           g' = skip (k * Z.to_nat (par_K p)) g
           /\ length us = k
           /\ forall j v, (j < k)%nat -> par_v p !! j = Some v ->
                us !! j = Some (Num (v + mean (utility_sample p j g))%Q))
        s0 g)
        as (us & g' & E & -> & Hlen & Hus)
  end.
  - split; [reflexivity|]. split; [reflexivity|]. intros j v Hj. lia.
  - intros k x us g' Hx (-> & Hlen & Hus). unfold epsdraw.
    erewrite bind_Ok by (apply np_random_normal_Ok; [exact Hs | lia]).
    eexists _, _. split; [reflexivity|]. split; [|split].
    + rewrite <- skip_add. f_equal. lia.
    + rewrite length_app. cbn. lia.
    + intros j v Hj Hv. destruct (decide (j < k)%nat) as [Hlt|Hge].
      * rewrite lookup_app_l by lia. now apply Hus.
      * assert (j = k) as -> by lia. rewrite Hv in Hx. injection Hx as <-.
        rewrite lookup_app_r, Hlen, Nat.sub_diag by lia. cbn [lookup list_lookup].
        assert (Eeps :
          (fun t => (0 + par_sigma p
                         * tape (skip (k * Z.to_nat (par_K p)) g) t)%Q)
            <$> seq 0 (Z.to_nat (par_K p))
          = utility_sample p k g).
        { unfold utility_sample. apply list_fmap_ext. intros _ t _. cbn.
          now rewrite tape_skip. }
        rewrite Eeps, (np_mean_sample p k g HK). reflexivity.
  - exists us. rewrite E. split; [reflexivity|]. split; [exact Hlen|].
    intros j v Hv. apply Hus; [|exact Hv]. now apply lookup_lt_Some in Hv.
Qed.

(** X6.  With at least one draw per career ([K >= 1]), [utility]
    returns one number per entry of [par.v]: that entry plus the mean
    of [K] draws of its own, entry [j] reading the deviates at
    positions [j*K .. j*K + K - 1]; it draws [len(v) * K] deviates in
    all and never returns a NaN. *)
Theorem utility_adds_sample_means p (g : G) j v :
  (0 <= par_sigma p)%Q -> 1 <= par_K p -> par_v p !! j = Some v ->
  exists us,
    utility p g = Ok (us, skip (length (par_v p) * Z.to_nat (par_K p)) g)
    /\ length us = length (par_v p)
    /\ us !! j = Some (Num (v + mean (utility_sample p j g))%Q)
    /\ length (utility_sample p j g) = Z.to_nat (par_K p)
    /\ NaN ∉ us.
Proof.
  intros Hs HK Hv. destruct (utility_spec p g Hs HK) as (us & E & Hlen & Hus).
  exists us. split; [exact E|]. split; [exact Hlen|].
  split; [now apply Hus|].
  split; [unfold utility_sample; now rewrite length_fmap, length_seq|].
  intros Hin. apply list_elem_of_lookup in Hin as [k Hk].
  destruct (lookup_lt_is_Some_2 (par_v p) k) as [w Hw].
  { rewrite <- Hlen. now apply lookup_lt_Some in Hk. }
  rewrite (Hus k w Hw) in Hk. discriminate.
Qed.

(** X7.  With [K = 0], [utility] raises nothing and draws nothing:
    every career's utility is the NaN of an empty mean. *)
Theorem utility_without_draws_is_nan p (g : G) :
  (0 <= par_sigma p)%Q -> par_K p = 0 ->
  utility p g = Ok (replicate (length (par_v p)) NaN, g).
Proof.
  intros Hs HK. unfold utility.
  match goal with
  | |- for_in ?l0 ?b0 ?s0 g = _ =>
      destruct (for_in_inv l0 b0
        (fun k us g' => g' = g /\ us = replicate k NaN) s0 g)
        as (us & g' & E & -> & ->)
  end.
  - split; reflexivity.
  - intros k x us g' Hx (-> & ->). unfold epsdraw. rewrite HK.
    erewrite bind_Ok by (apply np_random_normal_Ok; [exact Hs | lia]).
    eexists _, _. split; [reflexivity|]. split; [reflexivity|].
    cbn. clear. induction k as [|k IH]; [reflexivity|].
    cbn [replicate app]. now rewrite IH.
  - exact E.
Qed.

(** X8.  [utility] fails only through its draws: with a negative
    scale or a negative draw count it raises [ValueError] as soon as
    [par.v] has an entry, and with an empty [par.v] it returns the
    empty list whatever the other parameters are. *)
Theorem utility_failures p (g : G) :
  (par_v p = [] -> utility p g = Ok ([], g))
  /\ (par_v p <> [] -> (par_sigma p < 0)%Q \/ par_K p < 0 ->
      utility p g = Raise ValueError).
Proof.
  unfold utility. split.
  - intros ->. reflexivity.
  - intros Hv Hbad. destruct (par_v p) as [|v vs]; [congruence|].
    cbn [for_in]. apply bind_Raise. apply bind_Raise.
    unfold epsdraw, np_random_normal.
    destruct (Qle_bool 0 (par_sigma p)) eqn:T; [|reflexivity].
    apply Qle_bool_iff in T. destruct Hbad as [Hs|HK].
    + exfalso. exact (Qlt_not_le _ _ Hs T).
    + destruct (Z.leb_spec 0 (par_K p)) as [?|_]; [lia | reflexivity].
Qed.

(** X9.  With the noise disabled ([sigma = 0]) and [K >= 1],
    [utility] returns the base values [par.v] themselves. *)
Theorem utility_without_noise_is_v p (g : G) j v :
  (par_sigma p == 0)%Q -> 1 <= par_K p -> par_v p !! j = Some v ->
  exists us g' q,
    utility p g = Ok (us, g') /\ us !! j = Some (Num q) /\ (q == v)%Q.
Proof.
  intros Hs0 HK Hv.
  assert (Hs : (0 <= par_sigma p)%Q) by (rewrite Hs0; apply Qle_refl).
  destruct (utility_spec p g Hs HK) as (us & E & _ & Hus).
  eexists us, _, _. split; [exact E|]. split; [exact (Hus j v Hv)|].
  unfold mean. rewrite np_sum_zero.
  - unfold Qdiv. rewrite Qmult_0_l. ring.
  - unfold utility_sample. apply Forall_fmap, Forall_forall. intros t _. cbn.
    rewrite Hs0. ring.
Qed.

End UtilityFacts.

Lemma epsdraw_splits_witness :
  exists x y g1 g2,
    epsdraw (par_with 1 1 2) 1 [1; -1; 3]%Q = Ok (x, g1)
    /\ epsdraw (par_with 1 1 2) 2 g1 = Ok (y, g2)
    /\ epsdraw (par_with 1 1 2) (1 + 2) [1; -1; 3]%Q = Ok (x ++ y, g2)
    /\ Z.of_nat (length x) = 1 /\ Z.of_nat (length y) = 2.
Proof.
  apply (epsdraw_splits (par_with 1 1 2) [1; -1; 3]%Q 1 2).
  - vm_compute. discriminate.
  - lia.
  - lia.
Defined.

Lemma utility_adds_sample_means_witness :
  exists us,
    utility (par_with 1 2 1) [1; -1; 3; 5]%Q
    = Ok (us, skip (length (par_v (par_with 1 2 1))
                    * Z.to_nat (par_K (par_with 1 2 1))) [1; -1; 3; 5]%Q)
    /\ length us = length (par_v (par_with 1 2 1))
    /\ us !! 1%nat
       = Some (Num (2 + mean (utility_sample (par_with 1 2 1) 1 [1; -1; 3; 5]%Q))%Q)
    /\ length (utility_sample (par_with 1 2 1) 1 [1; -1; 3; 5]%Q)
       = Z.to_nat (par_K (par_with 1 2 1))
    /\ NaN ∉ us.
Proof.
  apply (utility_adds_sample_means (par_with 1 2 1) [1; -1; 3; 5]%Q 1 2%Q).
  - vm_compute. discriminate.
  - simpl. lia.
  - reflexivity.
Defined.

Lemma utility_without_draws_is_nan_witness :
  utility (par_with 1 0 1) [1; -1; 3]%Q
  = Ok (replicate (length (par_v (par_with 1 0 1))) NaN, [1; -1; 3]%Q).
Proof.
  apply (utility_without_draws_is_nan (par_with 1 0 1) [1; -1; 3]%Q).
  - vm_compute. discriminate.
  - reflexivity.
Defined.

Lemma utility_without_noise_is_v_witness :
  exists us g' q,
    utility (par_with 1 2 0) [1; -1; 3; 5]%Q = Ok (us, g')
    /\ us !! 2%nat = Some (Num q) /\ (q == 3)%Q.
Proof.
  apply (utility_without_noise_is_v (par_with 1 2 0) [1; -1; 3; 5]%Q 2 3%Q).
  - vm_compute. reflexivity.
  - simpl. lia.
  - reflexivity.
Defined.

Lemma utility_failures_witness :
  utility (par_with 1 (-1) 1) ([] : list Q) = Raise ValueError.
Proof.
  apply (utility_failures (par_with 1 (-1) 1) ([] : list Q)).
  - discriminate.
  - right. simpl. lia.
Defined.

(** ** [career] and [simulate]: shape, cost and edges *)

Lemma ten_lists_keys {A} : ten_keys (ten_lists : gmap Z (list A)).
Proof.
  intros key. rewrite (ten_lists_lookup (fun _ : nat => @nil A)).
  unfold filled. destruct (decide (1 <= key <= 10)) as [Hk|Hk].
  - split; [intros _; exact Hk | intros _; eexists; reflexivity].
  - split; [intros [x Hx]; discriminate | intros Hk'; contradiction].
Qed.

Lemma filled_keys {A} (d : gmap Z (list A)) f k :
  (forall key, d !! key = filled f k key) -> ten_keys d.
Proof.
  intros Hd key. rewrite Hd. unfold filled.
  destruct (decide (1 <= key <= 10)) as [Hk|Hk].
  - split; [intros _; exact Hk | intros _; eexists; reflexivity].
  - split; [intros [x Hx]; discriminate | intros Hk'; contradiction].
Qed.

Lemma dict_append_keys {A} (d : gmap Z (list A)) k (x : A) :
  ten_keys d -> 1 <= k <= 10 ->
  exists d', dict_append d k (Ok x) = Ok d' /\ ten_keys d'.
Proof.
  intros Hd Hk. unfold dict_append.
  destruct (proj2 (Hd k) Hk) as [l El]. rewrite El.
  eexists. split; [reflexivity|]. intros key. rewrite lookup_insert_is_Some.
  rewrite <- (Hd key). split.
  - intros [<-|[_ Hs]]; [rewrite El; eexists; reflexivity | exact Hs].
  - intros Hs. destruct (decide (k = key)); [left | right]; auto.
Qed.

Section FirstYearFacts.
Context {G : Type} `{RandomState G}.

(** X10.  Whatever careers come out, one call of [career] returns
    three lists of length [N], holds only the careers 1, 2 and 3, and
    draws exactly [3 * N(N+1)/2 + N] deviates. *)
Theorem career_shape_and_cost p (g : G) :
  (0 <= par_sigma p)%Q ->
  exists career_ EV RV,
    career p g
    = Ok ((career_, EV, RV),
          skip (3 * (Z.to_nat (par_N p) * (Z.to_nat (par_N p) + 1) / 2)
                + Z.to_nat (par_N p)) g)
    /\ length career_ = Z.to_nat (par_N p)
    /\ length EV = Z.to_nat (par_N p)
    /\ length RV = Z.to_nat (par_N p)
    /\ Forall (fun t => 1 <= t <= 3) career_.
Proof.
  intros Hs. eexists _, _, _. rewrite (career_spec p g Hs).
  unfold draws_career, draws_v. rewrite tri_half.
  split; [reflexivity|]. rewrite !length_fmap, !length_seq.
  repeat (split; [reflexivity|]).
  apply Forall_fmap, Forall_forall. intros k _. apply pick_range.
Qed.

(** X11.  The edges of [career]: without types ([N <= 0]) it returns
    three empty lists and leaves the generator alone, whatever the
    scale; with a type and a negative scale it raises the [ValueError]
    of its first draw. *)
Theorem career_edges p (g : G) :
  (par_N p <= 0 -> career p g = Ok (([], [], []), g))
  /\ (1 <= par_N p -> (par_sigma p < 0)%Q -> career p g = Raise ValueError).
Proof.
  split.
  - intros HN. unfold career, v1, v2, v3, range.
    rewrite !seqZ_nil by lia. reflexivity.
  - intros HN Hs. unfold career. apply bind_Raise.
    unfold v1, range. rewrite seqZ_cons by lia. cbn [for_in].
    apply bind_Raise. apply bind_Raise. unfold np_random_normal.
    destruct (Qle_bool 0 (par_sigma p)) eqn:T; [|reflexivity].
    apply Qle_bool_iff in T. exfalso. exact (Qlt_not_le _ _ Hs T).
Qed.

(** X12.  Without types or trials ([N <= 0] or [K < 0]) [simulate]
    returns its three dict literals untouched, ten empty lists each,
    and draws nothing, whatever the scale, [N] and the fuel. *)
Theorem simulate_without_trials fuel p (g : G) :
  par_N p <= 0 \/ par_K p < 0 ->
  simulate fuel p g = Ok ((ten_lists, ten_lists, ten_lists), g).
Proof.
  intros Hedge. unfold simulate. apply for_in_idle. intros i Hi.
  destruct Hedge as [HN|HK].
  - unfold range in Hi. rewrite seqZ_nil in Hi by lia. inversion Hi.
  - cbv beta iota.
    assert (Hc : (0 <=? par_K p) = false) by (apply Z.leb_gt; lia).
    destruct fuel; cbn [while]; rewrite Hc; reflexivity.
Qed.

(** X13.  The dicts have the keys 1 to 10 only: with more than ten
    types (and at least one trial) [simulate] raises [KeyError], when
    it reaches type 11. *)
Theorem simulate_more_than_ten_types fuel p (g : G) :
  (0 <= par_sigma p)%Q -> 10 < par_N p -> 0 <= par_K p ->
  (trials p <= fuel)%nat ->
  simulate fuel p g = Raise KeyError.
Proof.
  intros Hs HN HK Hf. unfold simulate, range.
  replace (par_N p - 0) with (10 + (par_N p - 10)) by lia.
  rewrite seqZ_app by lia. rewrite for_in_app.
  match goal with
  | |- bind (for_in ?l0 ?b0 ?s0) _ g = _ =>
      destruct (for_in_inv l0 b0
        (fun k s g' =>
           exists cd ed rd, s = (cd, ed, rd)
             /\ ten_keys cd /\ ten_keys ed /\ ten_keys rd) s0 g)
        as (s1 & g1 & E1 & cd & ed & rd & -> & Hc & He & Hr)
  end.
  - exists ten_lists, ten_lists, ten_lists.
    split; [reflexivity|].
    split; [exact ten_lists_keys|]. split; exact ten_lists_keys.
  - intros k x s g' Hx (cd & ed & rd & -> & Hc & He & Hr).
    apply lookup_seqZ in Hx as [-> Hk]. rewrite Z.add_0_l. cbv beta iota.
    assert (Hkn : (k < Z.to_nat (par_N p))%nat) by lia.
    match goal with
    | |- context [bind (while fuel ?c0 ?b0 ?s0) _ ?g0] =>
        destruct (while_inv fuel (trials p) c0 b0
          (fun m s g' =>
             exists cd ed rd, s = (Z.of_nat m, cd, ed, rd)
               /\ ten_keys cd /\ ten_keys ed /\ ten_keys rd) s0 g0)
          as (s2 & g2 & E2 & cd2 & ed2 & rd2 & -> & Hc2 & He2 & Hr2)
    end.
    + exists cd, ed, rd. auto.
    + intros m s g'' Hm (cd1 & ed1 & rd1 & -> & Hc1 & He1 & Hr1).
      split; [apply Z.leb_le; unfold trials in Hm; lia|].
      erewrite bind_Ok by (apply career_spec; exact Hs).
      cbv beta iota. rewrite !(index_fmap_seq _ _ _ Hkn).
      destruct (dict_append_keys cd1 (Z.of_nat k + 1)
                  (career_at p k g'') Hc1 ltac:(lia)) as (cd' & -> & Hc').
      rewrite (lift_Ok_bind _ _ _ _ eq_refl).
      destruct (dict_append_keys ed1 (Z.of_nat k + 1)
                  (EV_at p k g'') He1 ltac:(lia)) as (ed' & -> & He').
      rewrite (lift_Ok_bind _ _ _ _ eq_refl).
      destruct (dict_append_keys rd1 (Z.of_nat k + 1)
                  (RV_at p k g'') Hr1 ltac:(lia)) as (rd' & -> & Hr').
      rewrite (lift_Ok_bind _ _ _ _ eq_refl).
      eexists _, _. split; [reflexivity|].
      exists cd', ed', rd'. split; [do 3 f_equal; lia | auto].
    + intros s g'' (cd1 & ed1 & rd1 & -> & _). apply Z.leb_gt.
      unfold trials. lia.
    + exact Hf.
    + erewrite bind_Ok by exact E2. eexists _, _. split; [reflexivity|].
      exists cd2, ed2, rd2. auto.
  - rewrite (bind_Ok _ _ _ _ _ E1).
    rewrite seqZ_cons by lia. cbn [for_in]. apply bind_Raise.
    cbv beta iota. apply bind_Raise.
    destruct fuel as [|fuel]; [unfold trials in Hf; lia|]. cbn [while].
    destruct (Z.leb_spec 0 (par_K p)) as [_|?]; [|lia].
    apply bind_Raise.
    erewrite bind_Ok by (apply career_spec; exact Hs). cbv beta iota.
    apply bind_Raise.
    assert (Em : cd !! (0 + 10 + 1) = None).
    { destruct (cd !! (0 + 10 + 1)) eqn:E; [|reflexivity].
      assert (1 <= 0 + 10 + 1 <= 10) by (apply Hc; rewrite E; now eexists).
      lia. }
    unfold lift, dict_append. rewrite Em. reflexivity.
Qed.

(** X14.  Whatever [N <= 10] is, the three dicts [simulate] returns
    have exactly the keys 1 to 10, and the lists of the types above
    [N] are empty. *)
Theorem simulate_keeps_ten_keys fuel p (g : G) key :
  (0 <= par_sigma p)%Q -> par_N p <= 10 -> (trials p <= fuel)%nat ->
  exists careerdict EVdict RVdict g',
    simulate fuel p g = Ok ((careerdict, EVdict, RVdict), g')
    /\ (is_Some (careerdict !! key) <-> 1 <= key <= 10)
    /\ (is_Some (EVdict !! key) <-> 1 <= key <= 10)
    /\ (is_Some (RVdict !! key) <-> 1 <= key <= 10)
    /\ (par_N p < key <= 10 -> 0 <= par_N p ->
        careerdict !! key = Some [] /\ EVdict !! key = Some []
        /\ RVdict !! key = Some []).
Proof.
  intros Hs HN Hf.
  destruct (simulate_spec fuel p g Hs HN Hf) as (cd & ed & rd & E & Hc & He & Hr).
  exists cd, ed, rd. eexists. split; [exact E|].
  split; [apply (filled_keys _ _ _ Hc)|].
  split; [apply (filled_keys _ _ _ He)|].
  split; [apply (filled_keys _ _ _ Hr)|].
  intros Hk HN0. rewrite Hc, He, Hr. unfold filled.
  destruct (decide (1 <= key <= 10)); [|lia].
  destruct (decide (key <= Z.of_nat (Z.to_nat (par_N p)))); [lia|]. auto.
Qed.

(** X15.  [simulate] calls [career] once per type and trial and keeps
    one entry of each call: it draws exactly
    [N * (K + 1) * (3 * N(N+1)/2 + N)] deviates. *)
Theorem simulate_cost fuel p (g : G) :
  (0 <= par_sigma p)%Q -> par_N p <= 10 -> (trials p <= fuel)%nat ->
  exists careerdict EVdict RVdict,
    simulate fuel p g
    = Ok ((careerdict, EVdict, RVdict),
          skip (Z.to_nat (par_N p) * Z.to_nat (par_K p + 1)
                * (3 * (Z.to_nat (par_N p) * (Z.to_nat (par_N p) + 1) / 2)
                   + Z.to_nat (par_N p))) g).
Proof.
  intros Hs HN Hf.
  destruct (simulate_spec fuel p g Hs HN Hf) as (cd & ed & rd & E & _).
  exists cd, ed, rd. rewrite E. unfold trial_state, draws_career, draws_v, trials.
  rewrite tri_half. do 3 f_equal. lia.
Qed.

End FirstYearFacts.

(** ** [career_alt]: what it files *)

Lemma alternatives_lt o a b : alternatives o = (a, b) -> a < b.
Proof.
  unfold alternatives.
  destruct (o =? 1); [|destruct (o =? 2)]; intros [= <- <-]; lia.
Qed.

Section SecondYearFacts.
Context {G : Type} `{RandomState G}.

(** The expected value a step files, and the career it moves to. *)
Lemma alt_step_EV p k o rv (g : G) r g' :
  alt_step p k o rv g r g' -> 1 <= o <= 3 ->
  (rv <= alt_EV r)%Q
  /\ (forall t, 1 <= t <= 3 -> t <> o ->
        (estimate p k g t - par_c p <= alt_EV r)%Q)
  /\ (alt_switch r = 0 -> alt_EV r = rv)
  /\ (alt_switch r = 1 ->
      alt_EV r = (estimate p k g (alt_career r) - par_c p)%Q
      /\ forall t, 1 <= t <= 3 -> t <> o ->
           (estimate p k g t <= estimate p k g (alt_career r))%Q
           /\ ((estimate p k g t == estimate p k g (alt_career r))%Q ->
               alt_career r <= t)).
Proof.
  intros Hstep Ho. pose proof (first_career_id o Ho) as Eo.
  destruct Hstep as [a b Ea Hmax | a b Ea Hne Hmax | a b Ea Hne Hne'];
    destruct (alternatives_spec o a b Ea) as (Ha & Hb & Hao & Hbo & Hab);
    pose proof (alternatives_lt o a b Ea) as Hlt;
    rewrite Eo in Hao, Hbo; cbn [alt_switch alt_career alt_EV];
    destruct (np_max3_ub rv (estimate p k g a - par_c p)
                (estimate p k g b - par_c p)) as (Ur & Ua & Ub);
    set (ea := estimate p k g a) in *; set (eb := estimate p k g b) in *;
    set (m := np_max3 rv (ea - par_c p) (eb - par_c p)) in *.
  - split; [apply Qle_refl|]. split; [|split; [reflexivity | discriminate]].
    intros t Ht Hto. assert (t = a \/ t = b) as [-> | ->] by lia;
      fold ea; fold eb; lra.
  - split; [lra|]. split; [|split; [discriminate|]].
    + intros t Ht Hto. assert (t = a \/ t = b) as [-> | ->] by lia;
        fold ea; fold eb; lra.
    + intros _. split; [reflexivity|]. intros t Ht Hto.
      assert (t = a \/ t = b) as [-> | ->] by lia; fold ea; fold eb;
        (split; [lra | intros _; lia]).
  - assert (Hmax : (m == eb - par_c p)%Q).
    { destruct (np_max3_cases rv (ea - par_c p) (eb - par_c p))
        as [?|[?|?]]; [contradiction | contradiction | assumption]. }
    split; [lra|]. split; [|split; [discriminate|]].
    + intros t Ht Hto. assert (t = a \/ t = b) as [-> | ->] by lia;
        fold ea; fold eb; lra.
    + intros _. split; [reflexivity|]. intros t Ht Hto.
      assert (t = a \/ t = b) as [-> | ->] by lia; fold ea; fold eb.
      * split; [lra|]. intros Etie. exfalso. apply Hne'. lra.
      * split; [lra | intros _; lia].
Qed.

(** X16.  The expected value [career_alt] files for the second year
    is the largest of the realized first-year utility and the two
    other careers' fresh estimates net of the cost, the estimates
    being those of the state [alt_state] in which that iteration
    starts: it is never below the realized utility, it equals it when
    the graduate stays, and it is the new career's estimate minus [c]
    when the graduate switches. *)
Theorem second_year_expected_value_is_the_maximum
    p careerdict RVdict (g : G) i n :
  (0 <= par_sigma p)%Q -> par_N p <= 10 -> first_year p careerdict RVdict ->
  0 <= i < par_N p -> 0 <= n < par_K p ->
  exists switchdict careerdict_alt EVdict_alt RVdict_alt g' o rv s a ev,
    career_alt p careerdict RVdict g
    = Ok ((switchdict, careerdict_alt, EVdict_alt, RVdict_alt), g')
    /\ dict_get careerdict (i + 1) n = Ok o
    /\ dict_get RVdict (i + 1) n = Ok rv
    /\ dict_get switchdict (i + 1) n = Ok s
    /\ dict_get careerdict_alt (i + 1) n = Ok a
    /\ dict_get EVdict_alt (i + 1) n = Ok ev
    /\ let gt := alt_state p switchdict g (Z.to_nat i) (Z.to_nat n) in
       (rv <= ev)%Q
       /\ (forall t, 1 <= t <= 3 -> t <> o ->
             (estimate p (Z.to_nat i) gt t - par_c p <= ev)%Q)
       /\ (s = 0 -> ev = rv)
       /\ (s = 1 -> ev = (estimate p (Z.to_nat i) gt a - par_c p)%Q).
Proof.
  intros Hs HN Hfy Hi Hn.
  destruct (career_alt_states p careerdict RVdict g Hs HN Hfy)
    as (sw & cda & eva & rva & g' & E & Hrec).
  destruct (Hrec i n Hi Hn)
    as (o & rv & r & gt' & Ho & Hrv & Ho3 & Esw & Ec & Ee & _ & Hstep).
  destruct (alt_step_EV p _ o rv _ r gt' Hstep Ho3) as (Hge & Hall & H0 & H1).
  exists sw, cda, eva, rva, g', o, rv, (alt_switch r), (alt_career r),
    (alt_EV r).
  split; [exact E|]. split; [exact Ho|]. split; [exact Hrv|].
  split; [exact Esw|]. split; [exact Ec|]. split; [exact Ee|].
  cbv zeta. split; [exact Hge|]. split; [exact Hall|].
  split; [exact H0|]. intros Hsw. now apply H1.
Qed.

(** X17.  When [career_alt] records a switch, the new career is one
    of the two careers other than the first one: the one with the
    larger fresh estimate, and the lower-indexed of the two when the
    estimates are equal.  The estimates are those of the state
    [alt_state] in which that iteration starts. *)
Theorem switch_goes_to_the_better_alternative
    p careerdict RVdict (g : G) i n :
  (0 <= par_sigma p)%Q -> par_N p <= 10 -> first_year p careerdict RVdict ->
  0 <= i < par_N p -> 0 <= n < par_K p ->
  exists switchdict careerdict_alt EVdict_alt RVdict_alt g' o s a,
    career_alt p careerdict RVdict g
    = Ok ((switchdict, careerdict_alt, EVdict_alt, RVdict_alt), g')
    /\ dict_get careerdict (i + 1) n = Ok o
    /\ dict_get switchdict (i + 1) n = Ok s
    /\ dict_get careerdict_alt (i + 1) n = Ok a
    /\ let gt := alt_state p switchdict g (Z.to_nat i) (Z.to_nat n) in
       (s = 1 ->
        1 <= a <= 3 /\ a <> o
        /\ forall t, 1 <= t <= 3 -> t <> o ->
             (estimate p (Z.to_nat i) gt t <= estimate p (Z.to_nat i) gt a)%Q
             /\ ((estimate p (Z.to_nat i) gt t
                  == estimate p (Z.to_nat i) gt a)%Q -> a <= t)).
Proof.
  intros Hs HN Hfy Hi Hn.
  destruct (career_alt_states p careerdict RVdict g Hs HN Hfy)
    as (sw & cda & eva & rva & g' & E & Hrec).
  destruct (Hrec i n Hi Hn)
    as (o & rv & r & gt' & Ho & Hrv & Ho3 & Esw & Ec & Ee & _ & Hstep).
  destruct (alt_step_EV p _ o rv _ r gt' Hstep Ho3) as (_ & _ & _ & H1).
  destruct (alt_step_props p _ o rv _ r gt' Hstep Ho3) as (_ & _ & Hnew & _).
  exists sw, cda, eva, rva, g', o, (alt_switch r), (alt_career r).
  split; [exact E|]. split; [exact Ho|]. split; [exact Esw|].
  split; [exact Ec|]. cbv zeta. intros Hsw.
  destruct (Hnew Hsw) as (Ha & Hao & _).
  split; [exact Ha|]. split; [exact Hao|]. now apply H1.
Qed.

End SecondYearFacts.

Section LoopExt.
Context {G : Type}.

Lemma for_in_ext {A St} (l : list A) (body1 body2 : A -> St -> M G St) s (g : G) :
  (forall x s g, x ∈ l -> body1 x s g = body2 x s g) ->
  for_in l body1 s g = for_in l body2 s g.
Proof.
  revert s g. induction l as [|x l IH]; intros s g Hb; [reflexivity|].
  cbn [for_in]. unfold bind. rewrite (Hb x s g ltac:(left)).
  destruct (body2 x s g) as [[s1 g1]|e]; [|reflexivity].
  apply IH. intros y s' g' Hy. apply Hb. now right.
Qed.

End LoopExt.

Section SecondYearShape.
Context {G : Type} `{RandomState G}.

(** X18.  [career_alt] files exactly [K] records per type in each of
    its four collections (one fewer than the [K + 1] first-year
    records of [simulate]); the collections have exactly the keys 1 to
    10, and the lists of the types above [N] stay empty. *)
Theorem career_alt_files_K_records p careerdict RVdict (g : G) key :
  (0 <= par_sigma p)%Q -> par_N p <= 10 -> first_year p careerdict RVdict ->
  exists switchdict careerdict_alt EVdict_alt RVdict_alt g',
    career_alt p careerdict RVdict g
    = Ok ((switchdict, careerdict_alt, EVdict_alt, RVdict_alt), g')
    /\ (is_Some (switchdict !! key) <-> 1 <= key <= 10)
    /\ (is_Some (careerdict_alt !! key) <-> 1 <= key <= 10)
    /\ (is_Some (EVdict_alt !! key) <-> 1 <= key <= 10)
    /\ (is_Some (RVdict_alt !! key) <-> 1 <= key <= 10)
    /\ (1 <= key <= par_N p ->
        (length <$> switchdict !! key) = Some (Z.to_nat (par_K p))
        /\ (length <$> careerdict_alt !! key) = Some (Z.to_nat (par_K p))
        /\ (length <$> EVdict_alt !! key) = Some (Z.to_nat (par_K p))
        /\ (length <$> RVdict_alt !! key) = Some (Z.to_nat (par_K p)))
    /\ (par_N p < key <= 10 -> 0 <= par_N p ->
        switchdict !! key = Some [] /\ careerdict_alt !! key = Some []
        /\ EVdict_alt !! key = Some [] /\ RVdict_alt !! key = Some []).
Proof.
  intros Hs HN Hfy.
  destruct (career_alt_spec p careerdict RVdict g Hs HN Hfy)
    as ([[[sw cda] eva] rva] & g' & R & E & _ & (Hsw & Hc & He & Hr) & HR).
  exists sw, cda, eva, rva, g'. split; [exact E|].
  split; [apply (filled_keys _ _ _ Hsw)|].
  split; [apply (filled_keys _ _ _ Hc)|].
  split; [apply (filled_keys _ _ _ He)|].
  split; [apply (filled_keys _ _ _ Hr)|]. split.
  - intros Hk. destruct (HR (Z.to_nat (key - 1))) as (Hlen & _); [lia|].
    rewrite Hsw, Hc, He, Hr. unfold filled.
    destruct (decide (1 <= key <= 10)); [|lia].
    destruct (decide (key <= Z.of_nat (Z.to_nat (par_N p)))); [|lia].
    cbn. rewrite !length_fmap, Hlen. auto.
  - intros Hk HN0. rewrite Hsw, Hc, He, Hr. unfold filled.
    destruct (decide (1 <= key <= 10)); [|lia].
    destruct (decide (key <= Z.of_nat (Z.to_nat (par_N p)))); [lia|]. auto.
Qed.

Lemma career_alt_first_iteration p careerdict RVdict (g : G) e :
  (0 <= par_sigma p)%Q -> 1 <= par_N p -> 1 <= par_K p ->
  dict_get careerdict 1 0 = Raise e
  \/ (exists o, dict_get careerdict 1 0 = Ok o
                /\ dict_get RVdict 1 0 = Raise e) ->
  career_alt p careerdict RVdict g = Raise e.
Proof.
  intros Hs HN HK He. unfold career_alt, range.
  rewrite (seqZ_cons 0) by lia. cbn [for_in]. apply bind_Raise.
  rewrite (seqZ_cons 0) by lia. cbn [for_in]. apply bind_Raise.
  unfold alt_iteration. change (0 + 1) with 1.
  erewrite bind_Ok by (apply v1_spec; exact Hs).
  erewrite bind_Ok by (apply v2_spec; exact Hs).
  erewrite bind_Ok by (apply v3_spec; exact Hs).
  destruct He as [Hc | (o & Ho & Hr)].
  - apply bind_Raise. unfold lift. now rewrite Hc.
  - rewrite (lift_Ok_bind _ _ _ _ Ho).
    destruct (o =? 1); [|destruct (o =? 2)];
      apply bind_Raise; unfold lift; now rewrite Hr.
Qed.

(** X19.  [career_alt] needs the first-year collections: when the
    career list of type 1 is missing from [careerdict] it raises
    [KeyError], when it is empty [IndexError], and when [RVdict] lacks
    the list of type 1 [KeyError] again, in each case after the three
    estimators have drawn their deviates for the first trial. *)
Theorem career_alt_needs_first_year p careerdict RVdict (g : G) :
  (0 <= par_sigma p)%Q -> 1 <= par_N p -> 1 <= par_K p ->
  (careerdict !! 1 = None ->
   career_alt p careerdict RVdict g = Raise KeyError)
  /\ (careerdict !! 1 = Some [] ->
      career_alt p careerdict RVdict g = Raise IndexError)
  /\ (forall o l, careerdict !! 1 = Some (o :: l) -> RVdict !! 1 = None ->
        career_alt p careerdict RVdict g = Raise KeyError).
Proof.
  intros Hs HN HK. split; [|split].
  - intros E. apply career_alt_first_iteration; try assumption. left.
    unfold dict_get. now rewrite E.
  - intros E. apply career_alt_first_iteration; try assumption. left.
    unfold dict_get. now rewrite E.
  - intros o l E Er. apply career_alt_first_iteration; try assumption.
    right. exists o. unfold dict_get. rewrite E, Er. split; reflexivity.
Qed.

(** X20.  [career_alt] reads nothing but the first [K] entries of the
    lists of the types 1 to [N]: two pairs of collections that agree
    on those entries give the same result, so the last of the [K + 1]
    first-year records of each type is never used. *)
Theorem career_alt_reads_first_K_entries
    p careerdict RVdict careerdict' RVdict' (g : G) :
  (forall i n, 0 <= i < par_N p -> 0 <= n < par_K p ->
     dict_get careerdict (i + 1) n = dict_get careerdict' (i + 1) n
     /\ dict_get RVdict (i + 1) n = dict_get RVdict' (i + 1) n) ->
  career_alt p careerdict RVdict g = career_alt p careerdict' RVdict' g.
Proof.
  intros Hagree. unfold career_alt. apply for_in_ext.
  intros i d g1 Hi. apply for_in_ext. intros n d1 g2 Hn.
  apply list_elem_of_lookup in Hi as [ki Hi]. apply range_lookup in Hi.
  apply list_elem_of_lookup in Hn as [kn Hn]. apply range_lookup in Hn.
  destruct (Hagree i n ltac:(lia) ltac:(lia)) as (Ec & Er).
  unfold alt_iteration. now rewrite Ec, Er.
Qed.

End SecondYearShape.

(** ** [career_alt]: what it draws *)

Section SecondYearCost.
Context {G : Type} `{RandomState G}.

(** X21.  [career_alt] draws the deviates of the three estimators in
    every trial and one more for every switch it records: in all
    [N * K * 3 * N(N+1)/2] deviates plus the number of switches on
    file. *)
Theorem career_alt_cost p careerdict RVdict (g : G) :
  (0 <= par_sigma p)%Q -> par_N p <= 10 -> first_year p careerdict RVdict ->
  exists switchdict careerdict_alt EVdict_alt RVdict_alt,
    career_alt p careerdict RVdict g
    = Ok ((switchdict, careerdict_alt, EVdict_alt, RVdict_alt),
          skip (Z.to_nat (par_N p) * Z.to_nat (par_K p)
                * (3 * (Z.to_nat (par_N p) * (Z.to_nat (par_N p) + 1) / 2))
                + switches_recorded switchdict (Z.to_nat (par_N p))) g).
Proof.
  intros Hs HN Hfy. unfold career_alt.
  set (K' := Z.to_nat (par_K p)). set (T := (3 * draws_v p)%nat).
  set (cnt := sum_list_with (fun r => Z.to_nat (alt_switch r))).
  match goal with
  | |- context [for_in ?l0 ?b0 ?s0 g] =>
      destruct (for_in_inv l0 b0
        (fun k d g' =>
           exists R, alt_dicts_filled d R k
             /\ g' = skip (k * K' * T
                           + sum_list_with (fun i => cnt (R i)) (seq 0 k)) g)
        s0 g)
        as (d & g' & E & R & Hd & ->)
  end.
  - exists (fun _ => []). split; [|reflexivity].
    repeat split; intros key; apply ten_lists_lookup.
  - intros k x d g' Hx (R & Hd & ->).
    apply range_lookup in Hx as [-> Hk]. rewrite Z.add_0_l.
    assert (Hkn : (k < Z.to_nat (par_N p))%nat) by lia.
    set (base := (k * K' * T
                  + sum_list_with (fun i => cnt (R i)) (seq 0 k))%nat).
    match goal with
    | |- context [for_in ?l0 ?b0 d ?g0] =>
        destruct (for_in_inv l0 b0
          (fun m d1 g1 =>
             exists rs, length rs = m
               /\ alt_dicts_are d1 (Z.of_nat k + 1) rs R k
               /\ g1 = skip (base + m * T + cnt rs) g) d g0)
          as (d1 & g1 & E1 & rs & Hlen & Hd1 & Eg1)
    end.
    + exists []. split; [reflexivity|].
      split; [apply alt_dicts_open; [lia | exact Hd]|].
      f_equal. cbn. lia.
    + intros m y d1 g1 Hy (rs & Hlen & Hd1 & Eg1).
      apply range_lookup in Hy as [-> Hm]. rewrite Z.add_0_l.
      destruct (Hfy (Z.of_nat k) (Z.of_nat m)) as (o & rv & Ho & Hrv & Ho3);
        [lia | lia |].
      destruct (alt_iteration_step p careerdict RVdict k (Z.of_nat m) o rv
                  d1 rs R g1 Hs Hkn Ho Hrv Hd1)
        as (r & g2 & d2 & E2 & Hstep & _ & Hd2).
      apply alt_step_draws in Hstep as [-> _].
      exists d2. eexists. split; [exact E2|].
      exists (rs ++ [r]). split; [rewrite length_app; cbn; lia|].
      split; [exact Hd2|]. rewrite Eg1, <- skip_add. f_equal.
      unfold cnt. rewrite sum_list_with_app. cbn. fold T. lia.
    + rewrite range_length, Z.sub_0_r in Hlen, Eg1. fold K' in Hlen, Eg1.
      exists d1, g1. split; [exact E1|].
      exists (fun i => if decide (i = k) then rs else R i).
      split; [apply alt_dicts_close; [lia | exact Hd1]|].
      rewrite Eg1. f_equal. rewrite seq_S, sum_list_with_app. cbn.
      destruct (decide (k = k)) as [_|?]; [|congruence].
      rewrite (sum_list_with_ext_seq
                 (fun i => cnt (if decide (i = k) then rs else R i))
                 (fun i => cnt (R i))).
      * unfold base. lia.
      * intros i Hi. now destruct (decide (i = k)); [lia|].
  - rewrite range_length, Z.sub_0_r in E, Hd.
    destruct d as [[[sw cda] eva] rva]. exists sw, cda, eva, rva.
    rewrite E. do 2 f_equal. destruct Hd as (Hsw & _).
    unfold T, draws_v. rewrite tri_half. fold K'.
    assert (Ecount : sum_list_with (fun i => cnt (R i)) (seq 0 (Z.to_nat (par_N p)))
                     = switches_recorded sw (Z.to_nat (par_N p))).
    { unfold switches_recorded. apply sum_list_with_ext_seq. intros i Hi.
      rewrite Hsw. unfold filled.
      destruct (decide (1 <= Z.of_nat i + 1 <= 10)); [|lia].
      destruct (decide (Z.of_nat i + 1 <= Z.of_nat (Z.to_nat (par_N p)))); [|lia].
      replace (Z.to_nat (Z.of_nat i + 1 - 1)) with i by lia.
      change (default [] (Some (alt_switch <$> R i))) with (alt_switch <$> R i).
      now rewrite sum_switch_fmap. }
    rewrite Ecount. reflexivity.
Qed.

End SecondYearCost.

(** ** [sort_career] *)

Lemma sorted_indicators_S t lc ls (m : nat) o s :
  lc !! m = Some o -> ls !! m = Some s ->
  sorted_indicators t lc ls (S m)
  = sorted_indicators t lc ls m
    ++ (if decide (first_career o = t) then [indicator s] else []).
Proof.
  intros Ho Hs. unfold sorted_indicators.
  assert (Hz : zip lc ls !! m = Some (o, s)).
  { apply lookup_zip_Some. now split. }
  rewrite (take_S_r _ _ _ Hz), filter_app, fmap_app. f_equal.
  rewrite filter_cons, filter_nil. cbn [fst].
  destruct (decide (first_career o = t)); reflexivity.
Qed.

Lemma sorted_indicators_partition lc ls (K : nat) :
  (K <= length lc)%nat -> (K <= length ls)%nat ->
  (length (sorted_indicators 1 lc ls K)
   + length (sorted_indicators 2 lc ls K)
   + length (sorted_indicators 3 lc ls K) = K)%nat.
Proof.
  intros Hc Hs. induction K as [|K IH]; [reflexivity|].
  destruct (lookup_lt_is_Some_2 lc K ltac:(lia)) as [o Ho].
  destruct (lookup_lt_is_Some_2 ls K ltac:(lia)) as [s Hsw].
  rewrite !(sorted_indicators_S _ lc ls K o s Ho Hsw), !length_app.
  specialize (IH ltac:(lia) ltac:(lia)).
  unfold first_career.
  destruct (o =? 1); [|destruct (o =? 2)];
    repeat match goal with
           | |- context [decide (?a = ?b)] => destruct (decide (a = b)); try lia
           end; cbn [length]; lia.
Qed.

Lemma sorted_indicators_binary t lc ls (K : nat) :
  Forall (fun x => x = 0 \/ x = 1) (sorted_indicators t lc ls K).
Proof.
  unfold sorted_indicators. apply Forall_fmap, Forall_forall.
  intros [o s] _. cbn. unfold indicator. destruct (s =? 1); auto.
Qed.

Section SortCareer.
Context {G : Type} `{RandomState G}.

(** What [sort_career] returns. *)
Lemma sort_career_spec p switchdict careerdict (g : G) :
  par_N p <= 10 -> sortable p switchdict careerdict ->
  exists v1_original v2_original v3_original,
    sort_career p switchdict careerdict g
    = Ok ((v1_original, v2_original, v3_original), g)
    /\ forall t d, (t, d) ∈ [(1, v1_original); (2, v2_original); (3, v3_original)] ->
         forall key,
           d !! key
           = filled (fun i => sorted_indicators t
                                (default [] (careerdict !! (Z.of_nat i + 1)))
                                (default [] (switchdict !! (Z.of_nat i + 1)))
                                (Z.to_nat (par_K p)))
               (Z.to_nat (par_N p)) key.
Proof.
  intros HN Hok. unfold sort_career.
  set (F := fun t i => sorted_indicators t
                         (default [] (careerdict !! (Z.of_nat i + 1)))
                         (default [] (switchdict !! (Z.of_nat i + 1)))
                         (Z.to_nat (par_K p))).
  match goal with
  | |- context [for_in ?l0 ?b0 ?s0 g] =>
      destruct (for_in_inv l0 b0
        (fun k d g' =>
           exists v1 v2 v3, d = (v1, v2, v3) /\ g' = g
             /\ (forall key, v1 !! key = filled (F 1) k key)
             /\ (forall key, v2 !! key = filled (F 2) k key)
             /\ (forall key, v3 !! key = filled (F 3) k key)) s0 g)
        as (d & g' & E & v1 & v2 & v3 & -> & -> & H1 & H2 & H3)
  end.
  - exists ten_lists, ten_lists, ten_lists.
    split; [reflexivity|]. split; [reflexivity|].
    split; [|split]; intros key; apply ten_lists_lookup.
  - intros k x d g' Hx (v1 & v2 & v3 & -> & -> & H1 & H2 & H3).
    apply range_lookup in Hx as [-> Hk]. rewrite Z.add_0_l.
    destruct (Hok (Z.of_nat k) ltac:(lia)) as (lc & ls & Ec & Es & Lc & Ls).
    match goal with
    | |- context [for_in ?l0 ?b0 ?s0 g] =>
        destruct (for_in_inv l0 b0
          (fun m d g' =>
             exists w1 w2 w3, d = (w1, w2, w3) /\ g' = g
               /\ dict_is w1 (Z.of_nat k + 1) (sorted_indicators 1 lc ls m)
                    (filled (F 1) k)
               /\ dict_is w2 (Z.of_nat k + 1) (sorted_indicators 2 lc ls m)
                    (filled (F 2) k)
               /\ dict_is w3 (Z.of_nat k + 1) (sorted_indicators 3 lc ls m)
                    (filled (F 3) k)) s0 g)
          as (d1 & g1 & E1 & w1 & w2 & w3 & -> & -> & W1 & W2 & W3)
    end.
    + exists v1, v2, v3. split; [reflexivity|]. split; [reflexivity|].
      split; [|split]; apply filled_open; (lia || assumption).
    + intros m y d g' Hy (w1 & w2 & w3 & -> & -> & W1 & W2 & W3).
      apply range_lookup in Hy as [-> Hm]. rewrite Z.add_0_l.
      destruct (lookup_lt_is_Some_2 lc m ltac:(lia)) as [o Ho].
      destruct (lookup_lt_is_Some_2 ls m ltac:(lia)) as [s Hs].
      assert (Eo : dict_get careerdict (Z.of_nat k + 1) (Z.of_nat m) = Ok o)
        by (unfold dict_get; rewrite Ec; now apply index_Ok).
      assert (Esw : dict_get switchdict (Z.of_nat k + 1) (Z.of_nat m) = Ok s)
        by (unfold dict_get; rewrite Es; now apply index_Ok).
      cbv beta iota. rewrite (lift_Ok_bind _ _ _ _ Eo).
      rewrite !(sorted_indicators_S _ lc ls m o s Ho Hs).
      unfold first_career.
      destruct (o =? 1); [|destruct (o =? 2)];
        rewrite (lift_Ok_bind _ _ _ _ Esw);
        repeat match goal with
               | |- context [decide (?a = ?b)] =>
                   destruct (decide (a = b)); try lia
               end;
        rewrite ?app_nil_r;
        [ destruct (dict_append_is _ _ _ (indicator s) _ W1) as (w' & Ea & W')
        | destruct (dict_append_is _ _ _ (indicator s) _ W2) as (w' & Ea & W')
        | destruct (dict_append_is _ _ _ (indicator s) _ W3) as (w' & Ea & W') ];
        unfold indicator in Ea; rewrite (lift_Ok_bind _ _ _ _ Ea);
        eexists _, _; (split; [reflexivity|]);
        eexists _, _, _; (split; [reflexivity|]); (split; [reflexivity|]);
        auto.
    + rewrite range_length, Z.sub_0_r in W1, W2, W3.
      eexists _, _. split; [exact E1|].
      exists w1, w2, w3. split; [reflexivity|]. split; [reflexivity|].
      assert (EF : forall t, sorted_indicators t lc ls (Z.to_nat (par_K p)) = F t k).
      { intros t. unfold F. now rewrite Ec, Es. }
      rewrite !EF in W1, W2, W3.
      split; [|split]; apply filled_close; (lia || assumption).
  - rewrite range_length, Z.sub_0_r in H1, H2, H3.
    exists v1, v2, v3. split; [exact E|].
    intros t d Hin key.
    repeat (apply elem_of_cons in Hin as [[= -> ->]|Hin]; [auto|]).
    inversion Hin.
Qed.

(** The lists [sort_career_spec] gives for one type. *)
Lemma sort_career_lists p switchdict careerdict (g : G) i lc ls :
  par_N p <= 10 -> sortable p switchdict careerdict ->
  0 <= i < par_N p ->
  careerdict !! (i + 1) = Some lc -> switchdict !! (i + 1) = Some ls ->
  exists v1_original v2_original v3_original,
    sort_career p switchdict careerdict g
    = Ok ((v1_original, v2_original, v3_original), g)
    /\ forall t d,
         (t, d) ∈ [(1, v1_original); (2, v2_original); (3, v3_original)] ->
         d !! (i + 1) = Some (sorted_indicators t lc ls (Z.to_nat (par_K p))).
Proof.
  intros HN Hok Hi Ec Es.
  destruct (sort_career_spec p switchdict careerdict g HN Hok)
    as (v1 & v2 & v3 & E & Hall).
  exists v1, v2, v3. split; [exact E|].
  intros t d Hin. rewrite (Hall t d Hin). unfold filled.
  destruct (decide (1 <= i + 1 <= 10)); [|lia].
  destruct (decide (i + 1 <= Z.of_nat (Z.to_nat (par_N p)))); [|lia].
  replace (Z.of_nat (Z.to_nat (i + 1 - 1)) + 1) with (i + 1) by lia.
  now rewrite Ec, Es.
Qed.

(** X22.  [sort_career] splits the first [K] switch indicators of
    every type by first career, keeping the trial order: the list it
    files under career [t] holds, for the trials whose first career is
    [t] (career 3 standing for every value other than 1 and 2), 1 when
    the indicator is 1 and 0 otherwise.  It draws nothing. *)
Theorem sort_career_splits_by_first_career p switchdict careerdict (g : G) i lc ls :
  par_N p <= 10 -> sortable p switchdict careerdict ->
  0 <= i < par_N p ->
  careerdict !! (i + 1) = Some lc -> switchdict !! (i + 1) = Some ls ->
  exists v1_original v2_original v3_original,
    sort_career p switchdict careerdict g
    = Ok ((v1_original, v2_original, v3_original), g)
    /\ v1_original !! (i + 1)
       = Some (sorted_indicators 1 lc ls (Z.to_nat (par_K p)))
    /\ v2_original !! (i + 1)
       = Some (sorted_indicators 2 lc ls (Z.to_nat (par_K p)))
    /\ v3_original !! (i + 1)
       = Some (sorted_indicators 3 lc ls (Z.to_nat (par_K p))).
Proof.
  intros HN Hok Hi Ec Es.
  destruct (sort_career_lists p switchdict careerdict g i lc ls HN Hok Hi Ec Es)
    as (v1 & v2 & v3 & E & Hall).
  exists v1, v2, v3. split; [exact E|].
  split; [|split].
  - apply (Hall 1 v1), elem_of_cons. now left.
  - apply (Hall 2 v2), elem_of_cons. right. apply elem_of_cons. now left.
  - apply (Hall 3 v3). do 2 (apply elem_of_cons; right).
    apply elem_of_cons. now left.
Qed.

(** X23.  The three lists [sort_career] files for a type hold
    together exactly [K] entries, one per trial, each of them 0 or
    1. *)
Theorem sort_career_partitions_the_trials p switchdict careerdict (g : G) i :
  par_N p <= 10 -> sortable p switchdict careerdict ->
  0 <= i < par_N p ->
  exists v1_original v2_original v3_original g' l1 l2 l3,
    sort_career p switchdict careerdict g
    = Ok ((v1_original, v2_original, v3_original), g')
    /\ v1_original !! (i + 1) = Some l1
    /\ v2_original !! (i + 1) = Some l2
    /\ v3_original !! (i + 1) = Some l3
    /\ (length l1 + length l2 + length l3 = Z.to_nat (par_K p))%nat
    /\ Forall (fun x => x = 0 \/ x = 1) (l1 ++ l2 ++ l3).
Proof.
  intros HN Hok Hi.
  destruct (Hok i Hi) as (lc & ls & Ec & Es & Lc & Ls).
  destruct (sort_career_lists p switchdict careerdict g i lc ls HN Hok Hi Ec Es)
    as (v1 & v2 & v3 & E & Hall).
  exists v1, v2, v3, g. eexists _, _, _.
  split; [exact E|].
  split; [apply (Hall 1 v1), elem_of_cons; now left|].
  split; [apply (Hall 2 v2), elem_of_cons; right; apply elem_of_cons; now left|].
  split; [apply (Hall 3 v3); do 2 (apply elem_of_cons; right);
          apply elem_of_cons; now left|].
  split; [now apply sorted_indicators_partition|].
  rewrite !Forall_app. repeat split; apply sorted_indicators_binary.
Qed.

End SortCareer.

(** ** The three steps together *)

Section Pipeline.
Context {G : Type} `{RandomState G}.

(** X24.  The steps compose: for a scale [sigma >= 0] and at most ten
    types, whatever [simulate] files is accepted by [career_alt], and
    the switch indicators of [career_alt] with the careers of
    [simulate] are accepted by [sort_career]; none of the three raises,
    each continues the stream of deviates where the previous one
    stopped, and [sort_career] draws nothing. *)
Theorem first_and_second_year_compose fuel p (g : G) :
  (0 <= par_sigma p)%Q -> par_N p <= 10 -> (trials p <= fuel)%nat ->
  exists careerdict EVdict RVdict g1
         switchdict careerdict_alt EVdict_alt RVdict_alt g2
         v1_original v2_original v3_original,
    simulate fuel p g = Ok ((careerdict, EVdict, RVdict), g1)
    /\ career_alt p careerdict RVdict g1
       = Ok ((switchdict, careerdict_alt, EVdict_alt, RVdict_alt), g2)
    /\ sort_career p switchdict careerdict g2
       = Ok ((v1_original, v2_original, v3_original), g2)
    /\ later g g1 /\ later g1 g2
    /\ first_year p careerdict RVdict
    /\ sortable p switchdict careerdict.
Proof.
  intros Hs HN Hf.
  destruct (simulate_spec fuel p g Hs HN Hf) as (cd & ed & rd & E & Hc & He & Hr).
  pose proof (simulate_first_year fuel p g cd ed rd _ Hs HN Hf E) as Hfy.
  destruct (career_alt_records p cd rd (trial_state p g (Z.to_nat (par_N p)) 0)
              Hs HN Hfy) as (sw & cda & eva & rva & g2 & E2 & Hl2 & _).
  assert (Hsort : sortable p sw cd).
  { intros i Hi.
    destruct (career_alt_switch_list p cd rd _ sw cda eva rva g2 i Hs HN Hfy E2 Hi)
      as (ls & Els & Lls).
    eexists _, ls. split; [|split; [exact Els|]].
    - rewrite Hc. unfold filled.
      destruct (decide (1 <= i + 1 <= 10)); [|lia].
      destruct (decide (i + 1 <= Z.of_nat (Z.to_nat (par_N p)))); [|lia].
      reflexivity.
    - rewrite length_fmap, length_seq. unfold trials. split; lia. }
  destruct (sort_career_spec p sw cd g2 HN Hsort) as (v1o & v2o & v3o & E3 & _).
  exists cd, ed, rd, (trial_state p g (Z.to_nat (par_N p)) 0),
    sw, cda, eva, rva, g2, v1o, v2o, v3o.
  split; [exact E|]. split; [exact E2|]. split; [exact E3|].
  split; [unfold trial_state; eexists; reflexivity|].
  split; [exact Hl2|]. split; [exact Hfy | exact Hsort].
Qed.

(** X25.  The simulation reads [N], [K] and [sigma], and in the second
    year [c], and nothing else of the parameters: the number of
    careers [J], the friend counts [F] and the base utilities [v] have
    no effect on [simulate], [career_alt] and [sort_career], which
    have the careers 1, 2, 3 and the friend counts [1 .. N] written
    into them. *)
Theorem simulation_reads_N_K_sigma_c
    fuel p p' (g : G) careerdict RVdict switchdict :
  par_N p = par_N p' -> par_K p = par_K p' -> par_sigma p = par_sigma p' ->
  simulate fuel p g = simulate fuel p' g
  /\ sort_career p switchdict careerdict g
     = sort_career p' switchdict careerdict g
  /\ (par_c p = par_c p' ->
      career_alt p careerdict RVdict g = career_alt p' careerdict RVdict g).
Proof.
  intros EN EK Es. destruct p, p'; cbn in EN, EK, Es; subst.
  split; [reflexivity|]. split; [reflexivity|].
  intros Ec. cbn in Ec. subst. reflexivity.
Qed.

End Pipeline.

(** ** Worked instances of the further properties *)

Lemma career_shape_and_cost_witness :
  exists career_ EV RV,
    career (par_with 2 1 1) [1; -2; 3]%Q
    = Ok ((career_, EV, RV),
          skip (3 * (Z.to_nat (par_N (par_with 2 1 1))
                     * (Z.to_nat (par_N (par_with 2 1 1)) + 1) / 2)
                + Z.to_nat (par_N (par_with 2 1 1))) [1; -2; 3]%Q)
    /\ length career_ = Z.to_nat (par_N (par_with 2 1 1))
    /\ length EV = Z.to_nat (par_N (par_with 2 1 1))
    /\ length RV = Z.to_nat (par_N (par_with 2 1 1))
    /\ Forall (fun t => 1 <= t <= 3) career_.
Proof.
  apply (career_shape_and_cost (par_with 2 1 1) [1; -2; 3]%Q).
  vm_compute. discriminate.
Defined.

Lemma career_edges_witness :
  career (par_with 1 1 (-1)) ([] : list Q) = Raise ValueError.
Proof.
  apply (proj2 (career_edges (par_with 1 1 (-1)) ([] : list Q))).
  - simpl. lia.
  - reflexivity.
Defined.

Lemma simulate_without_trials_witness :
  simulate 0 (par_with 0 5 (-1)) [1; -2; 3]%Q
  = Ok ((ten_lists, ten_lists, ten_lists), [1; -2; 3]%Q).
Proof.
  apply (simulate_without_trials 0 (par_with 0 5 (-1)) [1; -2; 3]%Q).
  left. simpl. lia.
Defined.

Lemma simulate_more_than_ten_types_witness :
  simulate 1 (par_with 11 0 1) ([] : list Q) = Raise KeyError.
Proof.
  apply (simulate_more_than_ten_types 1 (par_with 11 0 1) ([] : list Q)).
  - vm_compute. discriminate.
  - simpl. lia.
  - simpl. lia.
  - vm_compute. lia.
Defined.

Lemma simulate_keeps_ten_keys_witness :
  exists careerdict EVdict RVdict g',
    simulate 3 (par_with 2 2 1) [1; -2; 3]%Q
    = Ok ((careerdict, EVdict, RVdict), g')
    /\ (is_Some (careerdict !! 3) <-> 1 <= 3 <= 10)
    /\ (is_Some (EVdict !! 3) <-> 1 <= 3 <= 10)
    /\ (is_Some (RVdict !! 3) <-> 1 <= 3 <= 10)
    /\ (par_N (par_with 2 2 1) < 3 <= 10 -> 0 <= par_N (par_with 2 2 1) ->
        careerdict !! 3 = Some [] /\ EVdict !! 3 = Some []
        /\ RVdict !! 3 = Some []).
Proof.
  apply (simulate_keeps_ten_keys 3 (par_with 2 2 1) [1; -2; 3]%Q 3).
  - vm_compute. discriminate.
  - simpl. lia.
  - vm_compute. lia.
Defined.

Lemma simulate_cost_witness :
  exists careerdict EVdict RVdict,
    simulate 3 (par_with 2 2 1) [1; -2; 3]%Q
    = Ok ((careerdict, EVdict, RVdict),
          skip (Z.to_nat (par_N (par_with 2 2 1))
                * Z.to_nat (par_K (par_with 2 2 1) + 1)
                * (3 * (Z.to_nat (par_N (par_with 2 2 1))
                        * (Z.to_nat (par_N (par_with 2 2 1)) + 1) / 2)
                   + Z.to_nat (par_N (par_with 2 2 1)))) [1; -2; 3]%Q).
Proof.
  apply (simulate_cost 3 (par_with 2 2 1) [1; -2; 3]%Q).
  - vm_compute. discriminate.
  - simpl. lia.
  - vm_compute. lia.
Defined.

Lemma second_year_expected_value_is_the_maximum_witness :
  exists switchdict careerdict_alt EVdict_alt RVdict_alt g' o rv s a ev,
    career_alt (par_with 1 2 1) (<[1 := [3; 3]]> ten_lists)
      (<[1 := [(5 # 2)%Q; (5 # 2)%Q]]> ten_lists) [0; 3; 0; 1]%Q
    = Ok ((switchdict, careerdict_alt, EVdict_alt, RVdict_alt), g')
    /\ dict_get (<[1 := [3; 3]]> ten_lists) (0 + 1) 1 = Ok o
    /\ dict_get (<[1 := [(5 # 2)%Q; (5 # 2)%Q]]> ten_lists) (0 + 1) 1 = Ok rv
    /\ dict_get switchdict (0 + 1) 1 = Ok s
    /\ dict_get careerdict_alt (0 + 1) 1 = Ok a
    /\ dict_get EVdict_alt (0 + 1) 1 = Ok ev
    /\ let gt := alt_state (par_with 1 2 1) switchdict [0; 3; 0; 1]%Q
                   (Z.to_nat 0) (Z.to_nat 1) in
       (rv <= ev)%Q
       /\ (forall t, 1 <= t <= 3 -> t <> o ->
             (estimate (par_with 1 2 1) (Z.to_nat 0) gt t
              - par_c (par_with 1 2 1) <= ev)%Q)
       /\ (s = 0 -> ev = rv)
       /\ (s = 1 -> ev = (estimate (par_with 1 2 1) (Z.to_nat 0) gt a
                          - par_c (par_with 1 2 1))%Q).
Proof.
  apply (second_year_expected_value_is_the_maximum (par_with 1 2 1)
           (<[1 := [3; 3]]> ten_lists)
           (<[1 := [(5 # 2)%Q; (5 # 2)%Q]]> ten_lists)
           [0; 3; 0; 1]%Q 0 1).
  - vm_compute. discriminate.
  - simpl. lia.
  - exact first_year_two_trials.
  - simpl. lia.
  - simpl. lia.
Defined.

Lemma switch_goes_to_the_better_alternative_witness :
  exists switchdict careerdict_alt EVdict_alt RVdict_alt g' o s a,
    career_alt (par_with 1 2 1) (<[1 := [3; 3]]> ten_lists)
      (<[1 := [(5 # 2)%Q; (5 # 2)%Q]]> ten_lists) [0; 3; 0; 1]%Q
    = Ok ((switchdict, careerdict_alt, EVdict_alt, RVdict_alt), g')
    /\ dict_get (<[1 := [3; 3]]> ten_lists) (0 + 1) 0 = Ok o
    /\ dict_get switchdict (0 + 1) 0 = Ok s
    /\ dict_get careerdict_alt (0 + 1) 0 = Ok a
    /\ let gt := alt_state (par_with 1 2 1) switchdict [0; 3; 0; 1]%Q
                   (Z.to_nat 0) (Z.to_nat 0) in
       (s = 1 ->
        1 <= a <= 3 /\ a <> o
        /\ forall t, 1 <= t <= 3 -> t <> o ->
             (estimate (par_with 1 2 1) (Z.to_nat 0) gt t
              <= estimate (par_with 1 2 1) (Z.to_nat 0) gt a)%Q
             /\ ((estimate (par_with 1 2 1) (Z.to_nat 0) gt t
                  == estimate (par_with 1 2 1) (Z.to_nat 0) gt a)%Q -> a <= t)).
Proof.
  apply (switch_goes_to_the_better_alternative (par_with 1 2 1)
           (<[1 := [3; 3]]> ten_lists)
           (<[1 := [(5 # 2)%Q; (5 # 2)%Q]]> ten_lists)
           [0; 3; 0; 1]%Q 0 0).
  - vm_compute. discriminate.
  - simpl. lia.
  - exact first_year_two_trials.
  - simpl. lia.
  - simpl. lia.
Defined.

Lemma career_alt_files_K_records_witness :
  exists switchdict careerdict_alt EVdict_alt RVdict_alt g',
    career_alt (par_with 1 1 1) (<[1 := [3]]> ten_lists)
      (<[1 := [(5 # 2)%Q]]> ten_lists) [0; 3; 0; 1]%Q
    = Ok ((switchdict, careerdict_alt, EVdict_alt, RVdict_alt), g')
    /\ (is_Some (switchdict !! 1) <-> 1 <= 1 <= 10)
    /\ (is_Some (careerdict_alt !! 1) <-> 1 <= 1 <= 10)
    /\ (is_Some (EVdict_alt !! 1) <-> 1 <= 1 <= 10)
    /\ (is_Some (RVdict_alt !! 1) <-> 1 <= 1 <= 10)
    /\ (1 <= 1 <= par_N (par_with 1 1 1) ->
        length <$> switchdict !! 1
        = Some (Z.to_nat (par_K (par_with 1 1 1)))
        /\ length <$> careerdict_alt !! 1
           = Some (Z.to_nat (par_K (par_with 1 1 1)))
        /\ length <$> EVdict_alt !! 1
           = Some (Z.to_nat (par_K (par_with 1 1 1)))
        /\ length <$> RVdict_alt !! 1
           = Some (Z.to_nat (par_K (par_with 1 1 1))))
    /\ (par_N (par_with 1 1 1) < 1 <= 10 -> 0 <= par_N (par_with 1 1 1) ->
        switchdict !! 1 = Some [] /\ careerdict_alt !! 1 = Some []
        /\ EVdict_alt !! 1 = Some [] /\ RVdict_alt !! 1 = Some []).
Proof.
  apply (career_alt_files_K_records (par_with 1 1 1)
           (<[1 := [3]]> ten_lists) (<[1 := [(5 # 2)%Q]]> ten_lists)
           [0; 3; 0; 1]%Q 1).
  - vm_compute. discriminate.
  - simpl. lia.
  - exact first_year_example.
Defined.

Lemma career_alt_needs_first_year_witness :
  career_alt (par_with 1 1 1) ∅ ∅ [0; 3; 0; 1]%Q = Raise KeyError.
Proof.
  apply (career_alt_needs_first_year (par_with 1 1 1) ∅ ∅ [0; 3; 0; 1]%Q).
  - vm_compute. discriminate.
  - simpl. lia.
  - simpl. lia.
  - reflexivity.
Defined.

(** First-year collections that agree with those of
    [first_year_example] on the first [K = 1] entries and go on. *)
Lemma first_year_example_extended i n :
  0 <= i < par_N (par_with 1 1 1) -> 0 <= n < par_K (par_with 1 1 1) ->
  dict_get (<[1 := [3]]> ten_lists) (i + 1) n
  = dict_get (<[1 := [3; 1]]> (<[2 := [2]]> ten_lists)) (i + 1) n
  /\ dict_get (<[1 := [(5 # 2)%Q]]> ten_lists) (i + 1) n
     = dict_get (<[1 := [(5 # 2)%Q; 7%Q]]> ten_lists) (i + 1) n.
Proof.
  intros Hi Hn. simpl in Hi, Hn.
  assert (i = 0) as -> by lia. assert (n = 0) as -> by lia.
  split; reflexivity.
Qed.

Lemma career_alt_reads_first_K_entries_witness :
  career_alt (par_with 1 1 1) (<[1 := [3]]> ten_lists)
    (<[1 := [(5 # 2)%Q]]> ten_lists) [0; 3; 0; 1]%Q
  = career_alt (par_with 1 1 1) (<[1 := [3; 1]]> (<[2 := [2]]> ten_lists))
      (<[1 := [(5 # 2)%Q; 7%Q]]> ten_lists) [0; 3; 0; 1]%Q.
Proof.
  apply (career_alt_reads_first_K_entries (par_with 1 1 1)).
  exact first_year_example_extended.
Defined.

Lemma career_alt_cost_witness :
  exists switchdict careerdict_alt EVdict_alt RVdict_alt,
    career_alt (par_with 1 1 1) (<[1 := [3]]> ten_lists)
      (<[1 := [(5 # 2)%Q]]> ten_lists) [0; 3; 0; 1]%Q
    = Ok ((switchdict, careerdict_alt, EVdict_alt, RVdict_alt),
          skip (Z.to_nat (par_N (par_with 1 1 1))
                * Z.to_nat (par_K (par_with 1 1 1))
                * (3 * (Z.to_nat (par_N (par_with 1 1 1))
                        * (Z.to_nat (par_N (par_with 1 1 1)) + 1) / 2))
                + switches_recorded switchdict
                    (Z.to_nat (par_N (par_with 1 1 1)))) [0; 3; 0; 1]%Q).
Proof.
  apply (career_alt_cost (par_with 1 1 1)
           (<[1 := [3]]> ten_lists) (<[1 := [(5 # 2)%Q]]> ten_lists)
           [0; 3; 0; 1]%Q).
  - vm_compute. discriminate.
  - simpl. lia.
  - exact first_year_example.
Defined.

(** Careers and switch indicators of one type over two trials, with a
    third career on file that [sort_career] does not reach. *)
Lemma sortable_example :
  sortable (par_with 1 2 1) (<[1 := [1; 0]]> ten_lists)
    (<[1 := [2; 3; 1]]> ten_lists).
Proof.
  intros i Hi. simpl in Hi. assert (i = 0) as -> by lia.
  exists [2; 3; 1], [1; 0].
  split; [reflexivity|]. split; [reflexivity|]. simpl. lia.
Qed.

Lemma sort_career_splits_by_first_career_witness :
  exists v1_original v2_original v3_original,
    sort_career (par_with 1 2 1) (<[1 := [1; 0]]> ten_lists)
      (<[1 := [2; 3; 1]]> ten_lists) [1; -2; 3]%Q
    = Ok ((v1_original, v2_original, v3_original), [1; -2; 3]%Q)
    /\ v1_original !! (0 + 1)
       = Some (sorted_indicators 1 [2; 3; 1] [1; 0]
                 (Z.to_nat (par_K (par_with 1 2 1))))
    /\ v2_original !! (0 + 1)
       = Some (sorted_indicators 2 [2; 3; 1] [1; 0]
                 (Z.to_nat (par_K (par_with 1 2 1))))
    /\ v3_original !! (0 + 1)
       = Some (sorted_indicators 3 [2; 3; 1] [1; 0]
                 (Z.to_nat (par_K (par_with 1 2 1)))).
Proof.
  apply (sort_career_splits_by_first_career (par_with 1 2 1)
           (<[1 := [1; 0]]> ten_lists) (<[1 := [2; 3; 1]]> ten_lists)
           [1; -2; 3]%Q 0 [2; 3; 1] [1; 0]).
  - simpl. lia.
  - exact sortable_example.
  - simpl. lia.
  - reflexivity.
  - reflexivity.
Defined.

Lemma sort_career_partitions_the_trials_witness :
  exists v1_original v2_original v3_original g' l1 l2 l3,
    sort_career (par_with 1 2 1) (<[1 := [1; 0]]> ten_lists)
      (<[1 := [2; 3; 1]]> ten_lists) [1; -2; 3]%Q
    = Ok ((v1_original, v2_original, v3_original), g')
    /\ v1_original !! (0 + 1) = Some l1
    /\ v2_original !! (0 + 1) = Some l2
    /\ v3_original !! (0 + 1) = Some l3
    /\ (length l1 + length l2 + length l3
        = Z.to_nat (par_K (par_with 1 2 1)))%nat
    /\ Forall (fun x => x = 0 \/ x = 1) (l1 ++ l2 ++ l3).
Proof.
  apply (sort_career_partitions_the_trials (par_with 1 2 1)
           (<[1 := [1; 0]]> ten_lists) (<[1 := [2; 3; 1]]> ten_lists)
           [1; -2; 3]%Q 0).
  - simpl. lia.
  - exact sortable_example.
  - simpl. lia.
Defined.

Lemma first_and_second_year_compose_witness :
  exists careerdict EVdict RVdict g1
         switchdict careerdict_alt EVdict_alt RVdict_alt g2
         v1_original v2_original v3_original,
    simulate 3 (par_with 2 2 1) [1; -2; 3]%Q
    = Ok ((careerdict, EVdict, RVdict), g1)
    /\ career_alt (par_with 2 2 1) careerdict RVdict g1
       = Ok ((switchdict, careerdict_alt, EVdict_alt, RVdict_alt), g2)
    /\ sort_career (par_with 2 2 1) switchdict careerdict g2
       = Ok ((v1_original, v2_original, v3_original), g2)
    /\ later [1; -2; 3]%Q g1 /\ later g1 g2
    /\ first_year (par_with 2 2 1) careerdict RVdict
    /\ sortable (par_with 2 2 1) switchdict careerdict.
Proof.
  apply (first_and_second_year_compose 3 (par_with 2 2 1) [1; -2; 3]%Q).
  - vm_compute. discriminate.
  - simpl. lia.
  - vm_compute. lia.
Defined.

Lemma simulation_reads_N_K_sigma_c_witness :
  simulate 3 (par_with 2 2 1) [1; -2; 3]%Q
  = simulate 3 (Build_par 7 2 2 [] 1 [5%Q; 5%Q] 1) [1; -2; 3]%Q
  /\ sort_career (par_with 2 2 1) (<[1 := [1; 0]]> ten_lists)
       (<[1 := [2; 3; 1]]> ten_lists) [1; -2; 3]%Q
     = sort_career (Build_par 7 2 2 [] 1 [5%Q; 5%Q] 1)
         (<[1 := [1; 0]]> ten_lists) (<[1 := [2; 3; 1]]> ten_lists)
         [1; -2; 3]%Q
  /\ (par_c (par_with 2 2 1) = par_c (Build_par 7 2 2 [] 1 [5%Q; 5%Q] 1) ->
      career_alt (par_with 2 2 1) (<[1 := [2; 3; 1]]> ten_lists)
        (<[1 := [(5 # 2)%Q]]> ten_lists) [1; -2; 3]%Q
      = career_alt (Build_par 7 2 2 [] 1 [5%Q; 5%Q] 1)
          (<[1 := [2; 3; 1]]> ten_lists)
          (<[1 := [(5 # 2)%Q]]> ten_lists) [1; -2; 3]%Q).
Proof.
  apply (simulation_reads_N_K_sigma_c 3 (par_with 2 2 1)
           (Build_par 7 2 2 [] 1 [5%Q; 5%Q] 1) [1; -2; 3]%Q).
  - reflexivity.
  - reflexivity.
  - reflexivity.
Defined.
